(** * CallWaitingAI voice gateway: a shallow embedding of its decision logic

  The development follows the TypeScript sources:
  - the qualification scorer of the AI service ([calculateQualificationScore]),
  - the transcript heuristics of the webhook routes ([checkQualification],
    [calculateConfidence], [extractName], [extractEmail]),
  - the fixed-window rate limiter middleware ([rateLimiter]),
  - the Vapi webhook route with its call handlers and the lead pipeline,
  - the chat turn handler.

  JavaScript numbers are IEEE-754 binary64 values; they are modelled with the
  executable specification of the Rocq core library ([spec_float] at
  precision 53 and maximal exponent 1024), so that every arithmetic step
  rounds as it does at run time.  Strings are sequences of code units below
  256; the external services (database, notification bot, payment gateway)
  are an explicit world that is threaded through the handlers. *)

From Stdlib Require Import ZArith QArith Qabs Qminmax Lia Bool List Ascii String.
From Stdlib Require Import Floats.SpecFloat.
From stdpp Require Import gmap strings list.

Local Open Scope Z_scope.

(* ===================================================================== *)
(** * Part I: definitions                                                  *)
(* ===================================================================== *)

(** ** JavaScript numbers *)

Module JsNum.

Definition prec : Z := 53.
Definition emax : Z := 1024.

(** A number is a [spec_float]; the operations below round to nearest,
    ties to even, and return canonical values on canonical arguments. *)
Abbreviation number := spec_float.

Definition add : number -> number -> number := SFadd prec emax.
Definition sub : number -> number -> number := SFsub prec emax.
Definition mul : number -> number -> number := SFmul prec emax.
Definition div : number -> number -> number := SFdiv prec emax.

(** The number denoted by an integer literal, or by an integer-valued
    property such as [Array.prototype.length]. *)
Definition ofZ (z : Z) : number := binary_normalize prec emax z 0 false.

(** The number denoted by the decimal literal whose exact value is [n/d]:
    the correctly rounded quotient of two exactly representable integers
    is the binary64 value nearest to [n/d], which is what the literal
    denotes. *)
Definition lit (n d : Z) : number := div (ofZ n) (ofZ d).

Definition zero : number := ofZ 0.
Definition one : number := ofZ 1.

Definition ltb : number -> number -> bool := SFltb.
Definition leb : number -> number -> bool := SFleb.
(** [a > b] *)
Definition gtb (a b : number) : bool := SFltb b a.

Definition isNaN (x : number) : bool :=
  match x with S754_nan => true | _ => false end.

(** ToBoolean on a number: [0], [-0] and [NaN] are falsy. *)
Definition truthy (x : number) : bool :=
  match x with
  | S754_zero _ | S754_nan => false
  | _ => true
  end.

(** [o || d] where [o] is a number or [undefined]. *)
Definition or_default (o : option number) (d : number) : number :=
  match o with
  | Some v => if truthy v then v else d
  | None => d
  end.

(** [Math.max(x, y)]: [NaN] if either argument is, and [+0] above [-0]. *)
Definition Math_max (x y : number) : number :=
  match SFcompare x y with
  | None => S754_nan
  | Some Lt => y
  | Some Gt => x
  | Some Eq => match x with S754_zero true => y | _ => x end
  end.

(** [Math.min(x, y)]: [NaN] if either argument is, and [-0] below [+0]. *)
Definition Math_min (x y : number) : number :=
  match SFcompare x y with
  | None => S754_nan
  | Some Lt => x
  | Some Gt => y
  | Some Eq => match x with S754_zero false => y | _ => x end
  end.

(** [Math.round(x)]: the nearest integer, ties towards [+Infinity];
    values in [[-0.5, 0)] give [-0]. *)
Definition Math_round (x : number) : number :=
  match x with
  | S754_finite s m e =>
      if 0 <=? e then x
      else
        let sm := if s then Z.neg m else Z.pos m in
        let n := (2 * sm + 2 ^ (- e)) / 2 ^ (- e + 1) in
        if n =? 0 then S754_zero s else ofZ n
  | _ => x
  end.

(** The real value of a finite number (and [0] for the others); used
    only to state how far a rounded result is from the exact one. *)
Definition toQ (x : number) : Q :=
  match x with
  | S754_finite s m e =>
      let v := (if s then Z.neg m else Z.pos m) in
      if 0 <=? e then inject_Z (v * 2 ^ e)
      else Qmake v (Z.to_pos (2 ^ (- e)))
  | _ => 0%Q
  end.

(** *** Sign classes, for the proofs *)

(** The result carries sign [s] and is a number. *)
Definition signed (s : bool) (r : number) : Prop :=
  match r with
  | S754_zero s' | S754_infinity s' | S754_finite s' _ _ => s' = s
  | S754_nan => False
  end.

(** Zero of either sign, a positive finite value or [+Infinity]. *)
Definition nonneg (r : number) : Prop :=
  match r with
  | S754_zero _ => True
  | S754_infinity s | S754_finite s _ _ => s = false
  | S754_nan => False
  end.

(** A positive finite value. *)
Definition pos_finite (r : number) : Prop :=
  match r with
  | S754_finite false _ _ => True
  | _ => False
  end.

(** Membership in the closed unit interval. *)
Definition in_unit (x : number) : Prop :=
  leb zero x = true /\ leb x one = true.

End JsNum.

(** ** The qualification scorer (AI service) *)

Module Scorer.
Import JsNum.

Record SentimentAnalysis := mkSentiment {
  score : number;        (* 0-1, where 1 is most positive/interested *)
  intent : string;
  urgency : string;
  keywords : list string
}.

(** *** Property reads on an object literal

    The two weight tables are object literals.  A read [table[key]] finds
    an own property or else follows the prototype chain to
    [Object.prototype], whose members are functions (and, under
    [__proto__], the prototype object itself); only a key that names none
    of them reads as [undefined]. *)
Definition Object_prototype : list string :=
  [ "constructor"; "__defineGetter__"; "__defineSetter__"; "hasOwnProperty";
    "__lookupGetter__"; "__lookupSetter__"; "isPrototypeOf"; "propertyIsEnumerable";
    "toString"; "valueOf"; "__proto__"; "toLocaleString" ].

Record object := mkObject {
  own : gmap string number;
  prototype : list string
}.

Definition literal (properties : list (string * number)) : object :=
  mkObject (list_to_map properties) Object_prototype.

(** What a read yields. *)
Inductive property :=
| Own (w : number)
| Inherited            (* a member of the prototype: a function or an object *)
| Undefined.

Definition get (o : object) (key : string) : property :=
  match own o !! key with
  | Some w => Own w
  | None => if existsb (String.eqb key) (prototype o) then Inherited else Undefined
  end.

(** The value of [table[key] || 0.5]: a number, or the inherited member,
    which is truthy. *)
Inductive operand :=
| Weight (w : number)
| Member.

Definition or_half (p : property) : operand :=
  match p with
  | Own w => Weight (or_default (Some w) (lit 5 10))
  | Inherited => Member
  | Undefined => Weight (lit 5 10)
  end.

(** The accumulator of [reduce].  [sum + x] adds two numbers; when [x] is
    a member of the prototype it concatenates two texts instead, and so
    does every later step.  Such a sum contains the source text of a
    function or the text [[object Object]]: it is no numeric literal, and
    the division that follows turns it into [NaN]. *)
Inductive accumulator :=
| Sum (n : number)
| Joined.

Definition plus (sum : accumulator) (x : operand) : accumulator :=
  match sum, x with
  | Sum a, Weight b => Sum (add a b)
  | _, _ => Joined
  end.

Definition ToNumber (sum : accumulator) : number :=
  match sum with
  | Sum a => a
  | Joined => S754_nan
  end.

Definition intentScores : object :=
  literal
    [ ("purchase", lit 10 10); ("demo", lit 9 10); ("pricing", lit 8 10);
      ("information", lit 6 10); ("support", lit 5 10); ("general", lit 4 10) ].

Definition urgencyScores : object :=
  literal [ ("high", lit 10 10); ("medium", lit 6 10); ("low", lit 3 10) ].

(** [sentimentHistory.length] *)
Definition length_of (h : list SentimentAnalysis) : number :=
  ofZ (Z.of_nat (length h)).

Definition calculateQualificationScore (sentimentHistory : list SentimentAnalysis) : number :=
  if Nat.eqb (length sentimentHistory) 0 then lit 5 10
  else
    let avgSentiment :=
      div (fold_left (fun sum s => add sum (score s)) sentimentHistory zero)
          (length_of sentimentHistory) in
    let avgIntentScore :=
      div (ToNumber
             (fold_left (fun sum s => plus sum (or_half (get intentScores (intent s))))
                        sentimentHistory (Sum zero)))
          (length_of sentimentHistory) in
    let avgUrgencyScore :=
      div (ToNumber
             (fold_left (fun sum s => plus sum (or_half (get urgencyScores (urgency s))))
                        sentimentHistory (Sum zero)))
          (length_of sentimentHistory) in
    let qualificationScore :=
      add (add (mul avgSentiment (lit 3 10)) (mul avgIntentScore (lit 5 10)))
          (mul avgUrgencyScore (lit 2 10)) in
    Math_min (Math_max qualificationScore zero) one.

(** *** The scorer as the specification words it *)

Definition intent_weight (i : string) : number :=
  if String.eqb i "purchase" then one
  else if String.eqb i "demo" then lit 9 10
  else if String.eqb i "pricing" then lit 8 10
  else if String.eqb i "information" then lit 6 10
  else if String.eqb i "support" then lit 5 10
  else if String.eqb i "general" then lit 4 10
  else lit 5 10.

Definition urgency_weight (u : string) : number :=
  if String.eqb u "high" then one
  else if String.eqb u "medium" then lit 6 10
  else if String.eqb u "low" then lit 3 10
  else lit 5 10.

(** Mean of the values, summed in history order. *)
Definition mean (xs : list number) : number :=
  div (fold_left add xs zero) (ofZ (Z.of_nat (length xs))).

Definition clamp01 (x : number) : number :=
  Math_min (Math_max x zero) one.

Definition spec_score (h : list SentimentAnalysis) : number :=
  match h with
  | [] => lit 5 10
  | _ =>
      clamp01
        (add (add (mul (lit 3 10) (mean (map score h)))
                  (mul (lit 5 10) (mean (map (fun s => intent_weight (intent s)) h))))
             (mul (lit 2 10) (mean (map (fun s => urgency_weight (urgency s)) h))))
  end.

(** A value of the data model: the score lies in [[0,1]]. *)
Definition well_formed (s : SentimentAnalysis) : Prop := in_unit (score s).

(** Arrays have fewer than [2^32] elements. *)
Definition array_sized {A} (l : list A) : Prop := Z.of_nat (length l) < 2 ^ 32.

(** The text names a member of [Object.prototype]. *)
Definition inherited (key : string) : bool :=
  existsb (String.eqb key) Object_prototype.

(** Neither the intent nor the urgency of the analysis does. *)
Definition plain (s : SentimentAnalysis) : Prop :=
  inherited (intent s) = false /\ inherited (urgency s) = false.

(** An analysis whose intent is the name of an inherited method. *)
Definition stray : SentimentAnalysis :=
  mkSentiment (lit 5 10) "toString" "low" [].

End Scorer.

(** ** JavaScript strings *)

Module JsString.

(** A string is a sequence of code units; the model keeps the code units
    below 256, which covers every literal of the sources. *)

Definition code (c : ascii) : nat := nat_of_ascii c.

Definition between (lo hi : nat) (c : ascii) : bool :=
  Nat.leb lo (code c) && Nat.leb (code c) hi.

Definition is_upper : ascii -> bool := between 65 90.
Definition is_lower : ascii -> bool := between 97 122.
Definition is_digit : ascii -> bool := between 48 57.

(** Lower-casing of one code unit: [A-Z], and the upper-case letters of the
    Latin-1 block ([U+00C0]-[U+00DE] without the multiplication sign). *)
Definition lower_unit (c : ascii) : ascii :=
  if is_upper c then ascii_of_nat (code c + 32)
  else if between 192 222 c && negb (Nat.eqb (code c) 215) then ascii_of_nat (code c + 32)
  else c.

(** [s.toLowerCase()] *)
Fixpoint toLowerCase (s : string) : string :=
  match s with
  | EmptyString => EmptyString
  | String c s' => String (lower_unit c) (toLowerCase s')
  end.

(** [s.startsWith(p)] *)
Fixpoint startsWith (s p : string) : bool :=
  match p, s with
  | EmptyString, _ => true
  | String a p', String b s' => if Ascii.eqb a b then startsWith s' p' else false
  | String _ _, EmptyString => false
  end.

(** [s.includes(p)] *)
Fixpoint includes (s p : string) : bool :=
  startsWith s p ||
  match s with
  | EmptyString => false
  | String _ s' => includes s' p
  end.

(** White space as [\s] and [trim] see it (code units below 256). *)
Definition is_space (c : ascii) : bool :=
  between 9 13 c || Nat.eqb (code c) 32 || Nat.eqb (code c) 160.

Fixpoint trimStart (s : string) : string :=
  match s with
  | EmptyString => EmptyString
  | String c s' => if is_space c then trimStart s' else s
  end.

Fixpoint trimEnd (s : string) : string :=
  match s with
  | EmptyString => EmptyString
  | String c s' =>
      match trimEnd s' with
      | EmptyString => if is_space c then EmptyString else String c EmptyString
      | t => String c t
      end
  end.

(** [s.trim()] *)
Definition trim (s : string) : string := trimEnd (trimStart s).

End JsString.

(** ** Regular expressions

    A backtracking matcher for the fragment the sources use: classes,
    greedy [+] on a class, concatenation, a greedy optional group and one
    capturing group.  [exec] lists the ways a pattern matches at the head
    of a string, in the order in which a backtracking engine tries them,
    so that the first element is the match the engine reports. *)

Module Regex.
Import JsString.

Inductive re :=
| Eps
| Chr (p : ascii -> bool)
| Plus (p : ascii -> bool)
| Cat (a b : re)
| Opt (a : re)
| Cap (a : re).

(** One way of matching: the matched text, the text captured by the group
    (if it took part), and the rest of the input. *)
Record result := mkResult {
  matched : string;
  group1 : option string;
  rest : string
}.

(** The non-empty prefixes of the longest run of class members, longest
    first. *)
Fixpoint runs (p : ascii -> bool) (s : string) : list (string * string) :=
  match s with
  | EmptyString => []
  | String c s' =>
      if p c
      then map (fun mr => (String c (fst mr), snd mr)) (runs p s') ++ [(String c EmptyString, s')]
      else []
  end.

Fixpoint exec (r : re) (s : string) : list result :=
  match r with
  | Eps => [mkResult EmptyString None s]
  | Chr p =>
      match s with
      | String c s' => if p c then [mkResult (String c EmptyString) None s'] else []
      | EmptyString => []
      end
  | Plus p => map (fun mr => mkResult (fst mr) None (snd mr)) (runs p s)
  | Cat a b =>
      flat_map
        (fun ra =>
           map (fun rb =>
                  mkResult (String.append (matched ra) (matched rb))
                           (match group1 rb with Some g => Some g | None => group1 ra end)
                           (rest rb))
               (exec b (rest ra)))
        (exec a s)
  | Opt a => exec a s ++ [mkResult EmptyString None s]
  | Cap a => map (fun ra => mkResult (matched ra) (Some (matched ra)) (rest ra)) (exec a s)
  end.

(** [s.match(r)] for a pattern without the global flag: the first way of
    matching at the leftmost position that has one. *)
Fixpoint match_ (r : re) (s : string) : option result :=
  match exec r s with
  | m :: _ => Some m
  | [] =>
      match s with
      | EmptyString => None
      | String _ s' => match_ r s'
      end
  end.

(** A literal character under the [i] flag. *)
Definition chr_i (c : ascii) : re :=
  Chr (fun x => Ascii.eqb (lower_unit x) (lower_unit c)).

(** A literal character. *)
Definition chr (c : ascii) : re := Chr (Ascii.eqb c).

(** A literal text under the [i] flag. *)
Fixpoint text_i (t : string) : re :=
  match t with
  | EmptyString => Eps
  | String c t' => Cat (chr_i c) (text_i t')
  end.

(** [[a-z]] under the [i] flag. *)
Definition letter_i (c : ascii) : bool := is_lower c || is_upper c.

(** [[a-zA-Z0-9._-]] *)
Definition mail_unit (c : ascii) : bool :=
  is_lower c || is_upper c || is_digit c ||
  Ascii.eqb c "." || Ascii.eqb c "_" || Ascii.eqb c "-".

(** [[a-zA-Z0-9_-]] *)
Definition tld_unit (c : ascii) : bool :=
  is_lower c || is_upper c || is_digit c || Ascii.eqb c "_" || Ascii.eqb c "-".

End Regex.

(** ** Transcript heuristics of the webhook routes *)

Module Leads.
Import JsNum JsString Regex.

Definition extractIntent (transcript : string) : string :=
  let lowerTranscript := toLowerCase transcript in
  if includes lowerTranscript "book" || includes lowerTranscript "reservation" then "booking"
  else if includes lowerTranscript "price" || includes lowerTranscript "cost"
          || includes lowerTranscript "how much" then "pricing_inquiry"
  else if includes lowerTranscript "interested" || includes lowerTranscript "sign up"
       then "service_interest"
  else if includes lowerTranscript "support" || includes lowerTranscript "help" then "support"
  else if includes lowerTranscript "cancel" || includes lowerTranscript "refund" then "cancellation"
  else "general_inquiry".

Definition qualifyingKeywords : list string :=
  ["interested"; "sign up"; "buy"; "purchase"; "book"; "yes"].

Definition checkQualification (transcript : string) : bool :=
  let lowerTranscript := toLowerCase transcript in
  existsb (fun keyword => includes lowerTranscript keyword) qualifyingKeywords.

Definition positiveKeywords : list string :=
  ["interested"; "yes"; "definitely"; "sure"; "absolutely"].

Definition negativeKeywords : list string :=
  ["no"; "not interested"; "maybe"; "later"].

Definition calculateConfidence (transcript : string) : number :=
  let score := lit 5 10 in (* Base score *)
  let lowerTranscript := toLowerCase transcript in
  let score :=
    fold_left (fun score keyword =>
                 if includes lowerTranscript keyword then add score (lit 1 10) else score)
              positiveKeywords score in
  let score :=
    fold_left (fun score keyword =>
                 if includes lowerTranscript keyword then sub score (lit 15 100) else score)
              negativeKeywords score in
  Math_max zero (Math_min one score).

(** [([a-z]+(?:\s[a-z]+)?)] under the [i] flag *)
Definition name_group : re :=
  Cap (Cat (Plus letter_i) (Opt (Cat (Chr is_space) (Plus letter_i)))).

Definition name_patterns : list re :=
  [ Cat (text_i "my name is ") name_group;
    Cat (text_i "i'm ") name_group;
    Cat (text_i "this is ") name_group ].

(** The loop over the patterns: the first pattern that matches with a
    non-empty group decides. *)
Fixpoint first_name (patterns : list re) (transcript : string) : option string :=
  match patterns with
  | [] => None
  | pattern :: more =>
      match match_ pattern transcript with
      | Some m =>
          match group1 m with
          | Some g => if String.eqb g EmptyString then first_name more transcript
                      else Some (trim g)
          | None => first_name more transcript
          end
      | None => first_name more transcript
      end
  end.

Definition extractName (transcript : string) : option string :=
  first_name name_patterns transcript.

(** [/([a-zA-Z0-9._-]+@[a-zA-Z0-9._-]+\.[a-zA-Z0-9_-]+)/] *)
Definition emailPattern : re :=
  Cap (Cat (Plus mail_unit)
      (Cat (chr "@")
      (Cat (Plus mail_unit)
      (Cat (chr ".") (Plus tld_unit))))).

Definition extractEmail (transcript : string) : option string :=
  match match_ emailPattern transcript with
  | Some m => group1 m
  | None => None
  end.

(** *** The confidence as the specification words it *)

(** A text occurs in a transcript, ignoring case. *)
Definition occurs_ci (text t : string) : Prop :=
  exists pre u post,
    t = pre +:+ u +:+ post /\ toLowerCase u = toLowerCase text.

(** 0.5, plus 0.1 for each hit, minus 0.15 for each miss, clamped. *)
Definition spec_confidence (hits misses : nat) : number :=
  Math_max zero
    (Math_min one
       (Nat.iter misses (fun x => sub x (lit 15 100))
          (Nat.iter hits (fun x => add x (lit 1 10)) (lit 5 10)))).

(** The same quantity in exact arithmetic. *)
Definition ideal_confidence (hits misses : nat) : Q :=
  Qmax 0 (Qmin 1 ((1 # 2)
                  + inject_Z (Z.of_nat hits) * (1 # 10)
                  - inject_Z (Z.of_nat misses) * (15 # 100)))%Q.

(** Rounding tolerance of the accumulated sums. *)
Definition tolerance : Q := 1 # 1000000000000000.

(** The two transcripts of the classifier scenario. *)
Definition keen : string := "I'm interested, sign me up!".
Definition reluctant : string := "no, not interested".

(** The keywords found in a transcript. *)
Definition found (t : string) (kws : list string) : list string :=
  filter (fun kw => includes (toLowerCase t) kw = true) kws.

End Leads.

(** ** The rate limiter middleware

    Counts and millisecond clock readings are integers far below [2^53],
    where binary64 arithmetic is exact; they are modelled in [Z]. *)

Module RateLimit.
Import JsString.

Record entry := mkEntry {
  count : Z;
  resetTime : Z
}.

Record RateLimitOptions := mkOptions {
  windowMs : Z;          (* Time window in milliseconds *)
  maxRequests : Z;       (* Max requests per window *)
  message : option string
}.

(** What the limiter reads of a request. *)
Record Request := mkRequest {
  x_forwarded_for : option string;
  x_real_ip : option string;
  remoteAddress : option string
}.

(** [s.split(',')[0]] *)
Fixpoint first_field (s : string) : string :=
  match s with
  | EmptyString => EmptyString
  | String c s' => if Ascii.eqb c "," then EmptyString else String c (first_field s')
  end.

(** [a || b] on optional strings: the empty string is falsy. *)
Definition or_else (a : option string) (b : option string) : option string :=
  match a with
  | Some x => if String.eqb x EmptyString then b else a
  | None => b
  end.

Definition clientIpOf (req : Request) : string :=
  match or_else (option_map first_field (x_forwarded_for req))
          (or_else (x_real_ip req) (remoteAddress req)) with
  | Some ip => if String.eqb ip EmptyString then "unknown" else ip
  | None => "unknown"
  end.

(** What the middleware decides on the request.  [Next] stands for the
    three headers and the call of [next()]; the last header is the reset
    time as a date, and [Traffic.dated] tells when formatting it throws. *)
Inductive verdict :=
| Next (limit remaining : Z) (reset : Z)       (* headers set, [next()] called *)
| TooManyRequests (retryAfter : Z).            (* status 429 *)

(** [Math.ceil(x / d)] for integers [x] and [d > 0]. *)
Definition ceil_div (x d : Z) : Z := - ((- x) / d).

Definition rateLimiter (options : RateLimitOptions) (req : Request) (now : Z)
  (rateLimitStore : gmap string entry) : gmap string entry * verdict :=
  let clientIp := clientIpOf req in
  let key := "rate_limit:" +:+ clientIp in
  (* Initialize or get existing rate limit data *)
  let fresh := mkEntry 0 (now + windowMs options) in
  let data :=
    match rateLimitStore !! key with
    | Some e => if resetTime e <? now then fresh else e
    | None => fresh
    end in
  (* Increment request count *)
  let data := mkEntry (count data + 1) (resetTime data) in
  let rateLimitStore := <[key := data]> rateLimitStore in
  (* Check if limit exceeded *)
  if maxRequests options <? count data then
    let resetIn := ceil_div (resetTime data - now) 1000 in
    (rateLimitStore, TooManyRequests resetIn)
  else
    (rateLimitStore,
     Next (maxRequests options)
          (Z.max 0 (maxRequests options - count data))
          (resetTime data)).

(** The periodic clean-up of expired entries. *)
Definition sweep (now : Z) (rateLimitStore : gmap string entry) : gmap string entry :=
  filter (fun kv => ~ (resetTime (snd kv) < now)) rateLimitStore.

(** Requests handled one after the other, each at its clock reading. *)
Fixpoint serve (options : RateLimitOptions) (arrivals : list (Request * Z))
  (store : gmap string entry) : gmap string entry * list verdict :=
  match arrivals with
  | [] => (store, [])
  | (req, now) :: more =>
      let '(store1, v) := rateLimiter options req now store in
      let '(store2, vs) := serve options more store1 in
      (store2, v :: vs)
  end.

Definition admitted (v : verdict) : bool :=
  match v with Next _ _ _ => true | TooManyRequests _ => false end.

(** The two halves of the middleware, for the proofs: the entry a request
    finds (an expired or missing one is replaced), and the verdict on the
    entry after it was counted. *)
Definition current (options : RateLimitOptions) (now : Z) (found : option entry) : entry :=
  match found with
  | Some e => if resetTime e <? now then mkEntry 0 (now + windowMs options) else e
  | None => mkEntry 0 (now + windowMs options)
  end.

Definition verdict_on (options : RateLimitOptions) (now : Z) (data : entry) : verdict :=
  if maxRequests options <? count data
  then TooManyRequests (ceil_div (resetTime data - now) 1000)
  else Next (maxRequests options) (Z.max 0 (maxRequests options - count data))
            (resetTime data).

Definition key_of (req : Request) : string := "rate_limit:" +:+ clientIpOf req.

(** The limiter of the scenario, and a client behind a proxy. *)
Definition demo : RateLimitOptions := mkOptions 1000 3 None.
Definition visitor : Request :=
  mkRequest (Some "203.0.113.7, 10.0.0.1") None (Some "10.0.0.1").

(** No window is open for the key at the given time. *)
Definition no_window (store : gmap string entry) (key : string) (now : Z) : Prop :=
  match store !! key with
  | Some e => resetTime e < now
  | None => True
  end.

End RateLimit.

(** ** The world of the handlers

    The database tables, the notification bot and the payment gateway are
    outside the program.  The world records their state, a journal of the
    service methods that were invoked, and an environment that decides,
    request by request, whether an outside call succeeds. *)

Module World.
Import JsNum.

(** *** Provider payloads (Vapi types) *)

Record VapiCallResponse := mkCall {
  call_id : string;
  customer_number : option string;     (* [call.customer?.number] *)
  cost : option number;
  call_transcript : option string;
  recordingUrl : option string;
  metadata_userId : option string      (* [call.metadata?.userId] *)
}.

Record VapiWebhookEvent := mkEvent {
  type : string;
  call : option VapiCallResponse;
  message_transcript : option string;  (* [event.message?.transcript] *)
  timestamp : string
}.

(** *** Database rows *)

Inductive CallStatus := answered | missed | forwarded | in_progress.

Record Call := mkCallRow {
  user_id : string;
  caller_phone : option string;
  transcript : option string;
  status : option CallStatus;
  duration : option number;
  audio_url : option string
}.

Inductive PaymentStatus := pending | completed | failed.

Record Lead := mkLead {
  lead_user_id : string;
  lead_call_id : option string;
  lead_name : option string;
  lead_email : option string;
  lead_phone : option string;
  lead_intent : option string;
  is_qualified : option bool;
  confidence_score : option number;
  flutterwave_payment_link : option string;
  payment_status : option PaymentStatus;
  telegram_notified_at : option Z
}.

Record WebhookEvent := mkWebhookEvent {
  event_type : string;
  payload : VapiWebhookEvent;
  processed : bool;
  error_message : option string
}.

Record Db := mkDb {
  calls : gmap string Call;
  leads : gmap nat Lead;
  webhook_events : gmap nat WebhookEvent;
  next_lead_id : nat;
  next_event_id : nat
}.

(** *** Outside services *)

Inductive TelegramMessage :=
| LeadAlert (lead_id : nat) (lead : Lead) (transcript : option string)
| PaymentLinkNotice (lead_id : nat) (link : string)
| ErrorAlert (context : string) (error : string).

Record PaymentLinkParams := mkPaymentLinkParams {
  amount : Z;
  currency : string;
  customerName : string;
  customerEmail : string;
  customerPhone : option string;
  description : string
}.

(** The service methods a handler can invoke. *)
Inductive ServiceCall :=
| NotifyNewLead (lead_id : nat)
| NotifyPaymentLink (lead_id : nat)
| NotifyError (context : string)
| GenerateLeadPaymentLink (leadName leadEmail : string).

(** The part of the world the program cannot influence: which outside
    requests succeed (numbered in the order they are issued), what the
    gateway answers, the clock, and the configuration of the services. *)
Inductive DbReply :=
| Up                       (* the request is carried out *)
| Refused                  (* the reply carries an [error] *)
| Down.                    (* the request itself throws *)

Inductive GatewayReply :=
| Accepted (link : string) (* status ["success"] with this link *)
| Declined                 (* any other reply *)
| Unreachable.             (* the request throws *)

Record Env := mkEnv {
  db_up : nat -> DbReply;
  telegram_up : nat -> bool;
  gateway_reply : nat -> GatewayReply;
  telegram_enabled : bool;
  flutterwave_enabled : bool;
  clock : Z
}.

Record World := mkWorld {
  db : Db;
  outbox : list TelegramMessage;              (* messages the bot delivered *)
  payment_requests : list PaymentLinkParams;  (* requests the gateway received *)
  journal : list ServiceCall;                 (* latest first *)
  step : nat;                                 (* outside requests issued so far *)
  env : Env
}.

Definition with_db (f : Db -> Db) (w : World) : World :=
  mkWorld (f (db w)) (outbox w) (payment_requests w) (journal w) (step w) (env w).

Definition tick (w : World) : World :=
  mkWorld (db w) (outbox w) (payment_requests w) (journal w) (S (step w)) (env w).

Definition record_call (c : ServiceCall) (w : World) : World :=
  mkWorld (db w) (outbox w) (payment_requests w) (c :: journal w) (step w) (env w).

Definition deliver (m : TelegramMessage) (w : World) : World :=
  mkWorld (db w) (m :: outbox w) (payment_requests w) (journal w) (step w) (env w).

Definition receive_payment_request (p : PaymentLinkParams) (w : World) : World :=
  mkWorld (db w) (outbox w) (p :: payment_requests w) (journal w) (step w) (env w).

(** *** Computations that may throw

    A computation runs in a world and either returns a value or throws an
    [Error] (of which the message is kept); the world it leaves is kept in
    both cases, as effects are not undone by an exception. *)

Definition M (A : Type) : Type := World -> (string + A) * World.

Definition ret {A} (a : A) : M A := fun w => (inr a, w).

Definition throw {A} (message : string) : M A := fun w => (inl message, w).

Definition bind {A B} (m : M A) (k : A -> M B) : M B :=
  fun w =>
    match m w with
    | (inr a, w') => k a w'
    | (inl e, w') => (inl e, w')
    end.

(** [try { body } catch (e) { handler }] *)
Definition try_catch {A} (body : M A) (handler : string -> M A) : M A :=
  fun w =>
    match body w with
    | (inr a, w') => (inr a, w')
    | (inl e, w') => handler e w'
    end.

(** A state change that cannot fail. *)
Definition modify (f : World -> World) : M unit := fun w => (inr tt, f w).

(** A read of the world. *)
Definition gets {A} (f : World -> A) : M A := fun w => (inr (f w), w).

Definition when (b : bool) (m : M unit) : M unit := if b then m else ret tt.

(** [throws m w]: running [m] in [w] ends with an exception. *)
Definition throws {A} (m : M A) (w : World) : Prop :=
  exists e, fst (m w) = inl e.

End World.

Declare Scope js_scope.
Delimit Scope js_scope with js.
Notation "'let*' x ':=' m 'in' k" := (World.bind m (fun x => k))
  (at level 10, x name, m at level 100, k at level 200) : js_scope.
Notation "m ';;' k" := (World.bind m (fun _ => k))
  (at level 100, k at level 200) : js_scope.

(** ** The services *)

Module Services.
Import JsNum JsString World.
Local Open Scope js_scope.

(** ToBoolean on an optional string: [undefined] and [""] are falsy. *)
Definition truthy_str (o : option string) : bool :=
  match o with
  | Some x => negb (String.eqb x EmptyString)
  | None => false
  end.

(** The text of an optional string that was tested to be there. *)
Definition string_or_default (o : option string) : string :=
  match o with Some x => x | None => EmptyString end.

(** *** Database service *)

(** One request to the database.  It answers [true] when it was carried
    out and [false] when the reply carries an error; it throws when the
    database cannot be reached. *)
Definition db_request : M bool :=
  fun w =>
    match db_up (env w) (step w) with
    | Up => (inr true, tick w)
    | Refused => (inr false, tick w)
    | Down => (inl "fetch failed", tick w)
    end.

Definition insert_event (id : nat) (e : WebhookEvent) (d : Db) : Db :=
  mkDb (calls d) (leads d) (<[id := e]> (webhook_events d)) (next_lead_id d) (S id).

Definition insert_lead (id : nat) (l : Lead) (d : Db) : Db :=
  mkDb (calls d) (<[id := l]> (leads d)) (webhook_events d) (S id) (next_event_id d).

Definition alter_event (f : WebhookEvent -> WebhookEvent) (id : nat) (d : Db) : Db :=
  mkDb (calls d) (leads d) (alter f id (webhook_events d)) (next_lead_id d) (next_event_id d).

Definition alter_lead (f : Lead -> Lead) (id : nat) (d : Db) : Db :=
  mkDb (calls d) (alter f id (leads d)) (webhook_events d) (next_lead_id d) (next_event_id d).

Definition alter_call (f : Call -> Call) (id : string) (d : Db) : Db :=
  mkDb (alter f id (calls d)) (leads d) (webhook_events d) (next_lead_id d) (next_event_id d).

(** [saveLead]: the stored row and its identifier, or [null]. *)
Definition saveLead (lead : Lead) : M (option (nat * Lead)) :=
  try_catch
    (let* ok := db_request in
     if ok then
       let* id := gets (fun w => next_lead_id (db w)) in
       modify (with_db (insert_lead id lead)) ;;
       ret (Some (id, lead))
     else ret None)
    (fun _ => ret None).

Definition updateLeadPayment (leadId : nat) (paymentLink : string) (s : PaymentStatus) : M unit :=
  try_catch
    (let* ok := db_request in
     when ok
       (modify (with_db (alter_lead
          (fun l => mkLead (lead_user_id l) (lead_call_id l) (lead_name l) (lead_email l)
                      (lead_phone l) (lead_intent l) (is_qualified l) (confidence_score l)
                      (Some paymentLink) (Some s) (telegram_notified_at l))
          leadId))))
    (fun _ => ret tt).

Definition markLeadNotified (leadId : nat) : M unit :=
  try_catch
    (let* now := gets (fun w => clock (env w)) in
     let* ok := db_request in
     when ok
       (modify (with_db (alter_lead
          (fun l => mkLead (lead_user_id l) (lead_call_id l) (lead_name l) (lead_email l)
                      (lead_phone l) (lead_intent l) (is_qualified l) (confidence_score l)
                      (flutterwave_payment_link l) (payment_status l) (Some now))
          leadId))))
    (fun _ => ret tt).

(** [saveWebhookEvent]: the identifier of the stored row, or [null]. *)
Definition saveWebhookEvent (event : WebhookEvent) : M (option nat) :=
  try_catch
    (let* ok := db_request in
     if ok then
       let* id := gets (fun w => next_event_id (db w)) in
       modify (with_db (insert_event id event)) ;;
       ret (Some id)
     else ret None)
    (fun _ => ret None).

Definition markWebhookProcessed (eventId : nat) (errorMessage : option string) : M unit :=
  try_catch
    (let* ok := db_request in
     when ok
       (modify (with_db (alter_event
          (fun e => mkWebhookEvent (event_type e) (payload e) true
                      (if truthy_str errorMessage then errorMessage else None))
          eventId))))
    (fun _ => ret tt).

(** [Partial<Call>]: the columns an update writes. *)
Record CallUpdates := mkCallUpdates {
  set_transcript : option string;
  set_status : option CallStatus;
  set_duration : option number;
  set_audio_url : option string
}.

Definition overwrite {A} (new old : option A) : option A :=
  match new with Some _ => new | None => old end.

Definition apply_updates (u : CallUpdates) (c : Call) : Call :=
  mkCallRow (user_id c) (caller_phone c)
    (overwrite (set_transcript u) (transcript c))
    (overwrite (set_status u) (status c))
    (overwrite (set_duration u) (duration c))
    (overwrite (set_audio_url u) (audio_url c)).

Definition updateCall (callId : string) (updates : CallUpdates) : M unit :=
  try_catch
    (let* ok := db_request in
     when ok (modify (with_db (alter_call (apply_updates updates) callId))))
    (fun _ => ret tt).

(** *** Notification service *)

(** [bot.sendMessage]: delivers the message or throws. *)
Definition sendMessage (m : TelegramMessage) : M unit :=
  fun w =>
    if telegram_up (env w) (step w) then (inr tt, tick (deliver m w))
    else (inl "ETELEGRAM", tick w).

Definition notifyNewLead (lead_id : nat) (lead : Lead) (callTranscript : option string) : M bool :=
  modify (record_call (NotifyNewLead lead_id)) ;;
  let* enabled := gets (fun w => telegram_enabled (env w)) in
  if negb enabled then ret false
  else
    try_catch
      (sendMessage (LeadAlert lead_id lead callTranscript) ;; ret true)
      (fun _ => ret false).

Definition notifyPaymentLink (lead_id : nat) (paymentLink : string) : M bool :=
  modify (record_call (NotifyPaymentLink lead_id)) ;;
  let* enabled := gets (fun w => telegram_enabled (env w)) in
  if negb enabled then ret false
  else
    try_catch
      (sendMessage (PaymentLinkNotice lead_id paymentLink) ;; ret true)
      (fun _ => ret false).

Definition notifyError (context : string) (error : string) : M unit :=
  modify (record_call (NotifyError context)) ;;
  let* enabled := gets (fun w => telegram_enabled (env w)) in
  if negb enabled then ret tt
  else try_catch (sendMessage (ErrorAlert context error)) (fun _ => ret tt).

(** *** Payment service *)

(** [client.post('/payment-links', payload)]: the link of a successful
    reply, nothing for another reply, an exception when the request fails. *)
Definition post_payment_link (p : PaymentLinkParams) : M (option string) :=
  fun w =>
    match gateway_reply (env w) (step w) with
    | Accepted link => (inr (Some link), tick (receive_payment_request p w))
    | Declined => (inr None, tick (receive_payment_request p w))
    | Unreachable => (inl "ECONNREFUSED", tick w)
    end.

Definition generatePaymentLink (params : PaymentLinkParams) : M (option string) :=
  let* enabled := gets (fun w => flutterwave_enabled (env w)) in
  if negb enabled then ret None
  else
    try_catch
      (let* link := post_payment_link params in
       if truthy_str link then ret link else ret None)
      (fun _ => ret None).

Inductive Plan := starter | professional | enterprise.

Definition getSubscriptionPlans (plan : Plan) : Z * string * string :=
  match plan with
  | starter => (29, "USD", "Starter Plan - 100 calls/month")
  | professional => (79, "USD", "Professional Plan - 500 calls/month")
  | enterprise => (199, "USD", "Enterprise Plan - Unlimited calls")
  end.

Definition generateLeadPaymentLink (leadName leadEmail : string) (leadPhone : option string)
  (plan : Plan) : M (option string) :=
  modify (record_call (GenerateLeadPaymentLink leadName leadEmail)) ;;
  let '(amount, currency, description) := getSubscriptionPlans plan in
  generatePaymentLink
    (mkPaymentLinkParams amount currency leadName leadEmail leadPhone description).

(** *** The services as world transformers

    None of the service methods throws; each is determined by what the
    environment answers to the one outside request it issues. *)

(** A database write: carried out if the database accepts the request. *)
Definition db_effect (f : Db -> Db) (w : World) : World :=
  match db_up (env w) (step w) with
  | Up => with_db f (tick w)
  | Refused | Down => tick w
  end.

(** A notification: delivered if the bot is configured and reachable. *)
Definition telegram_effect (m : TelegramMessage) (w : World) : World :=
  if telegram_enabled (env w)
  then if telegram_up (env w) (step w) then tick (deliver m w) else tick w
  else w.

Definition telegram_sent (w : World) : bool :=
  telegram_enabled (env w) && telegram_up (env w) (step w).

(** A payment-link request: issued if the gateway is configured. *)
Definition gateway_effect (p : PaymentLinkParams) (w : World) : World :=
  if flutterwave_enabled (env w)
  then match gateway_reply (env w) (step w) with
       | Accepted _ | Declined => tick (receive_payment_request p w)
       | Unreachable => tick w
       end
  else w.

Definition gateway_link (w : World) : option string :=
  if flutterwave_enabled (env w)
  then match gateway_reply (env w) (step w) with
       | Accepted link => if truthy_str (Some link) then Some link else None
       | Declined | Unreachable => None
       end
  else None.

Definition set_payment (paymentLink : string) (s : PaymentStatus) (l : Lead) : Lead :=
  mkLead (lead_user_id l) (lead_call_id l) (lead_name l) (lead_email l)
         (lead_phone l) (lead_intent l) (is_qualified l) (confidence_score l)
         (Some paymentLink) (Some s) (telegram_notified_at l).

Definition set_notified (now : Z) (l : Lead) : Lead :=
  mkLead (lead_user_id l) (lead_call_id l) (lead_name l) (lead_email l)
         (lead_phone l) (lead_intent l) (is_qualified l) (confidence_score l)
         (flutterwave_payment_link l) (payment_status l) (Some now).

Definition set_processed (errorMessage : option string) (e : WebhookEvent) : WebhookEvent :=
  mkWebhookEvent (event_type e) (payload e) true
                 (if truthy_str errorMessage then errorMessage else None).

End Services.

(** ** The webhook routes *)

Module Webhook.
Import JsNum JsString Leads World Services.
Local Open Scope js_scope.

(** The lead pipeline run on the transcript of an ended call. *)
Definition extractAndSaveLead (userId callId transcript : string) (phoneNumber : option string)
  : M unit :=
  try_catch
    (let intent := extractIntent transcript in
     let isQualified := checkQualification transcript in
     let confidence := calculateConfidence transcript in
     let name := extractName transcript in
     let email := extractEmail transcript in
     (* Save lead to database *)
     let* lead :=
       saveLead (mkLead userId (Some callId) name email phoneNumber (Some intent)
                        (Some isQualified) (Some confidence) None None None) in
     match lead with
     | None => ret tt
     | Some (lead_id, lead) =>
         (* Send Telegram notification *)
         notifyNewLead lead_id lead (Some transcript) ;;
         (* Mark as notified *)
         markLeadNotified lead_id ;;
         (* Generate payment link for qualified leads *)
         if isQualified && truthy_str name && truthy_str email then
           let* paymentLink :=
             generateLeadPaymentLink (string_or_default name) (string_or_default email)
                                     phoneNumber starter in
           if truthy_str paymentLink then
             updateLeadPayment lead_id (string_or_default paymentLink) pending ;;
             notifyPaymentLink lead_id (string_or_default paymentLink) ;;
             ret tt
           else ret tt
         else ret tt
     end)
    (fun _ => ret tt).

Definition handleCallStarted (event : VapiWebhookEvent) : M unit :=
  match call event with
  | None => ret tt
  | Some call =>
      let userId := metadata_userId call in
      if negb (truthy_str userId) then ret tt
      else
        updateCall (call_id call) (mkCallUpdates None (Some in_progress) None None)
  end.

(** [Math.round((call.cost / 0.01) * 60)] *)
Definition estimateDuration (cost : number) : number :=
  Math_round (mul (div cost (lit 1 100)) (ofZ 60)).

Definition handleCallEnded (event : VapiWebhookEvent) : M unit :=
  match call event with
  | None => ret tt
  | Some call =>
      let userId := metadata_userId call in
      if negb (truthy_str userId) then ret tt
      else
        (* Update call record in database *)
        updateCall (call_id call)
          (mkCallUpdates
             (call_transcript call)
             (Some answered)
             (match cost call with
              | Some c => if truthy c then Some (estimateDuration c) else None
              | None => None
              end)
             (recordingUrl call)) ;;
        (* Extract lead information from transcript *)
        if truthy_str (call_transcript call) then
          extractAndSaveLead (string_or_default userId) (call_id call)
                             (string_or_default (call_transcript call)) (customer_number call)
        else ret tt
  end.

Definition handleCallFailed (event : VapiWebhookEvent) : M unit :=
  match call event with
  | None => ret tt
  | Some call =>
      let userId := metadata_userId call in
      if negb (truthy_str userId) then ret tt
      else
        updateCall (call_id call) (mkCallUpdates None (Some missed) None None) ;;
        (* Notify admin of failed call *)
        notifyError ("Call " +:+ call_id call +:+ " failed")
                    ("Call to " +:+ match customer_number call with
                                    | Some n => n
                                    | None => "undefined"
                                    end +:+ " failed")
  end.

(** The transcript event is only logged. *)
Definition handleTranscript (event : VapiWebhookEvent) : M unit := ret tt.

(** The [switch] on the event type. *)
Definition dispatch (event : VapiWebhookEvent) : M unit :=
  if String.eqb (type event) "call.ended" then handleCallEnded event
  else if String.eqb (type event) "call.started" then handleCallStarted event
  else if String.eqb (type event) "call.failed" then handleCallFailed event
  else if String.eqb (type event) "transcript" then handleTranscript event
  else ret tt.

Record Response := mkResponse {
  status_code : Z;
  success : option bool;
  received : option bool;
  error : option string;
  message : option string
}.

(** [POST /webhook/vapi], with the processing of the stored event as a
    parameter: the route itself is [webhook_route dispatch], and the
    parameter lets the properties speak of a processing step that throws. *)
Definition webhook_route (process : VapiWebhookEvent -> M unit) (event : VapiWebhookEvent)
  : M Response :=
  try_catch
    ((* Save webhook event to database *)
     let* savedEvent := saveWebhookEvent (mkWebhookEvent (type event) event false None) in
     try_catch
       (process event ;;
        (* Mark event as processed *)
        match savedEvent with
        | Some id => markWebhookProcessed id None
        | None => ret tt
        end ;;
        ret (mkResponse 200 (Some true) (Some true) None None))
       (fun processingError =>
          (* Mark event as processed with error *)
          match savedEvent with
          | Some id => markWebhookProcessed id (Some processingError)
          | None => ret tt
          end ;;
          (* Still return 200 to Vapi to avoid retries *)
          ret (mkResponse 200 (Some true) (Some true) (Some processingError) None)))
    (fun error =>
       ret (mkResponse 500 None None (Some "Webhook Processing Failed") (Some error))).

Definition vapi_webhook : VapiWebhookEvent -> M Response := webhook_route dispatch.

(** *** The lead pipeline as a world transformer *)

(** The lead the pipeline builds from a transcript. *)
Definition lead_of (userId callId transcript : string) (phoneNumber : option string) : Lead :=
  mkLead userId (Some callId) (extractName transcript) (extractEmail transcript) phoneNumber
         (Some (extractIntent transcript)) (Some (checkQualification transcript))
         (Some (calculateConfidence transcript)) None None None.

(** The guard of the payment-link step. *)
Definition wants_payment_link (transcript : string) : bool :=
  checkQualification transcript
  && truthy_str (extractName transcript) && truthy_str (extractEmail transcript).

Definition payment_params (transcript : string) (phoneNumber : option string)
  : PaymentLinkParams :=
  mkPaymentLinkParams 29 "USD"
    (string_or_default (extractName transcript)) (string_or_default (extractEmail transcript))
    phoneNumber "Starter Plan - 100 calls/month".

(** The steps after the lead was stored under [lead_id]. *)
Definition after_save (lead_id : nat) (lead : Lead) (transcript : string)
  (phoneNumber : option string) (w1 : World) : World :=
  let w2 := telegram_effect (LeadAlert lead_id lead (Some transcript))
                            (record_call (NotifyNewLead lead_id) w1) in
  let w3 := db_effect (alter_lead (set_notified (clock (env w2))) lead_id) w2 in
  if wants_payment_link transcript then
    let w4 := record_call (GenerateLeadPaymentLink
                             (string_or_default (extractName transcript))
                             (string_or_default (extractEmail transcript))) w3 in
    let w5 := gateway_effect (payment_params transcript phoneNumber) w4 in
    match gateway_link w4 with
    | Some link =>
        telegram_effect (PaymentLinkNotice lead_id link)
          (record_call (NotifyPaymentLink lead_id)
             (db_effect (alter_lead (set_payment link pending) lead_id) w5))
    | None => w5
    end
  else w3.

Definition lead_pipeline (userId callId transcript : string) (phoneNumber : option string)
  (w : World) : World :=
  match db_up (env w) (step w) with
  | Up =>
      let lead_id := next_lead_id (db w) in
      let lead := lead_of userId callId transcript phoneNumber in
      after_save lead_id lead transcript phoneNumber
                 (with_db (insert_lead lead_id lead) (tick w))
  | Refused | Down => tick w
  end.

(** The columns an ended call writes. *)
Definition ended_updates (c : VapiCallResponse) : CallUpdates :=
  mkCallUpdates
    (call_transcript c)
    (Some answered)
    (match cost c with
     | Some x => if truthy x then Some (estimateDuration x) else None
     | None => None
     end)
    (recordingUrl c).

(** The identity of a lead: what the pipeline stored, whatever the later
    notification and payment updates wrote. *)
Definition same_lead (a b : Lead) : Prop :=
  lead_user_id a = lead_user_id b /\ lead_call_id a = lead_call_id b /\
  lead_name a = lead_name b /\ lead_email a = lead_email b /\
  lead_phone a = lead_phone b /\ lead_intent a = lead_intent b /\
  is_qualified a = is_qualified b /\ confidence_score a = confidence_score b.

(** Identifiers not yet handed out name no row. *)
Definition fresh_ids (w : World) : Prop :=
  (forall id, (next_event_id (db w) <= id)%nat -> webhook_events (db w) !! id = None) /\
  (forall id, (next_lead_id (db w) <= id)%nat -> leads (db w) !! id = None).

(** An environment in which every outside request succeeds, and a world
    with one call on record. *)
Definition fair_weather : Env :=
  mkEnv (fun _ => Up) (fun _ => true) (fun _ => Accepted "https://pay.example/abc")
        true true 1700000000000.

Definition ringing : World :=
  mkWorld
    (mkDb {[ "call-1" := mkCallRow "user-1" (Some "+14155551234") None (Some in_progress) None None ]}
          ∅ ∅ 0 0)
    [] [] [] 0 fair_weather.

Definition ended_call : VapiCallResponse :=
  mkCall "call-1" (Some "+14155551234") (Some (lit 5 100))
         (Some "Hi, my name is John Smith, yes I am interested, reach me at john@example.com")
         (Some "https://rec.example/call-1.wav") (Some "user-1").

Definition ended_event : VapiWebhookEvent :=
  mkEvent "call.ended" (Some ended_call) None "2024-01-01T00:00:00Z".

Definition anonymous_event : VapiWebhookEvent :=
  mkEvent "call.ended"
          (Some (mkCall "call-1" None None (Some "yes, interested") None None))
          None "2024-01-01T00:00:00Z".

(** What [handleCallEnded] does when it goes past its guards. *)
Definition call_ended_effect (c : VapiCallResponse) (w : World) : World :=
  let w1 := db_effect (alter_call (apply_updates (ended_updates c)) (call_id c)) w in
  if truthy_str (call_transcript c)
  then lead_pipeline (string_or_default (metadata_userId c)) (call_id c)
                     (string_or_default (call_transcript c)) (customer_number c) w1
  else w1.

(** What [handleCallFailed] does when it goes past its guards. *)
Definition call_failed_effect (c : VapiCallResponse) (w : World) : World :=
  telegram_effect
    (ErrorAlert ("Call " +:+ call_id c +:+ " failed")
                ("Call to " +:+ match customer_number c with
                                | Some n => n
                                | None => "undefined"
                                end +:+ " failed"))
    (record_call (NotifyError ("Call " +:+ call_id c +:+ " failed"))
       (db_effect (alter_call (apply_updates (mkCallUpdates None (Some missed) None None))
                              (call_id c)) w)).

(** The stored form of an incoming event. *)
Definition incoming (event : VapiWebhookEvent) : WebhookEvent :=
  mkWebhookEvent (type event) event false None.

(** The world after the event row was written (or not). *)
Definition saved_world (event : VapiWebhookEvent) (w : World) : World :=
  snd (saveWebhookEvent (incoming event) w).

(** The identifier the save hands back. *)
Definition saved_id (event : VapiWebhookEvent) (w : World) : option nat :=
  match db_up (env w) (step w) with
  | Up => Some (next_event_id (db w))
  | Refused | Down => None
  end.

(** The world after the mark step. *)
Definition marked (saved : option nat) (errorMessage : option string) (w : World) : World :=
  match saved with
  | Some id => db_effect (alter_event (set_processed errorMessage) id) w
  | None => w
  end.

(** The two answers with status 200. *)
Definition ok_response : Response := mkResponse 200 (Some true) (Some true) None None.

Definition error_response (msg : string) : Response :=
  mkResponse 200 (Some true) (Some true) (Some msg) None.

(** A world in which only the first database request succeeds. *)
Definition storm : World :=
  mkWorld (db ringing) [] [] [] 0
          (mkEnv (fun n => match n with O => Up | _ => Down end)
                 (fun _ => false) (fun _ => Unreachable) true true 1700000000000).

End Webhook.

(** ** The chat turn

    The conversation store, the completion clients and the knowledge-base
    text are outside this development: the handler and the AI service are
    written over them as parameters. *)

Module Chat.
Import JsNum JsString Scorer World Services.
Local Open Scope js_scope.

Inductive Role := user | assistant | system.

Record ChatMessage := mkChatMessage {
  role : Role;
  content : string;
  sent_at : string
}.

Record ChatRequest := mkChatRequest {
  message : option string;
  conversationId : option string;
  sessionId : option string;
  userMetadata_email : option string     (* [userMetadata?.email] *)
}.

(** A value that [JSON.parse] put where the prompt asks for a number.  The
    validation applies [|| 0.5] and then [Math.max(_, 0)] to it, whatever
    it is, so that a value that is no number is given by what [ToBoolean]
    and [ToNumber] make of it: [null] is falsy; the text ["high"] is truthy
    and [NaN]; the text ["0.7"] is truthy and 0.7; an object is truthy and
    [NaN]. *)
Inductive JsonValue :=
| JNumber (n : number)
| JOther (toBoolean : bool) (toNumber : number).

(** The object decoded from the reply of the analysis prompt: the score
    as it comes, a text where there is one (a value of another type is
    none of the listed texts), and the keywords when they are an array. *)
Record RawAnalysis := mkRawAnalysis {
  raw_score : option JsonValue;
  raw_intent : option string;
  raw_urgency : option string;
  raw_keywords : option (list string)
}.

(** What the handler writes back to the store. *)
Record ConversationData := mkConversationData {
  conversation_id : string;
  session_id : string;
  messages : list ChatMessage;
  last_message_at : string;
  message_count : nat;
  sentiment_score : number;
  stored_intent : string;
  stored_urgency : string;
  stored_keywords : list string
}.

Record ChatBody := mkChatBody {
  response : string;
  reply_conversationId : string;
  reply_sessionId : string;
  messageCount : nat;
  reply_sentiment : number * string * string;   (* score, intent, urgency *)
  qualificationScore : number;
  shouldCaptureLeadNow : bool
}.

Inductive ChatReply :=
| BadRequest                       (* 400, "Message is required" *)
| Reply (body : ChatBody)          (* 200 *)
| Failure (message : string).      (* 500 *)

Section Handler.

(** The store: the stored messages of a conversation, if there is one, and
    the upsert, which reports an error or none. *)
Variable getChatConversation : string -> M (option (list ChatMessage)).
Variable upsertChatConversation : ConversationData -> M (option string).

(** Whether a completion client is configured, and the completion request
    of the chat with the text it returns, if any. *)
Variable provider_configured : bool.
Variable complete_chat : string -> list (Role * string) -> M (option string).

(** The knowledge-base answer. *)
Variable getFallbackResponse : string -> string.

(** The completion request of the analysis prompt, the extraction of the
    JSON object from its reply and its decoding; any of them may throw. *)
Variable complete_analysis : string -> M RawAnalysis.

(** [new Date().toISOString()], and the two generated identifiers. *)
Variable isoNow : World -> string.
Variable newConversationId : World -> string.
Variable newSessionId : World -> string.

Definition getChatResponse (userMessage : string) (conversationHistory : list (Role * string))
  : M string :=
  try_catch
    (if provider_configured then
       let* completion := complete_chat userMessage conversationHistory in
       ret (if truthy_str completion then string_or_default completion
            else "I apologize, but I had trouble processing that. Could you rephrase your question?")
     else ret (getFallbackResponse userMessage))
    (fun _ => ret (getFallbackResponse userMessage)).

Definition known_intents : list string :=
  ["information"; "demo"; "pricing"; "support"; "purchase"; "general"].

Definition known_urgencies : list string := ["low"; "medium"; "high"].

(** [list.includes(x)] for an optional text. *)
Definition listed (l : list string) (x : option string) : bool :=
  match x with
  | Some v => existsb (String.eqb v) l
  | None => false
  end.

(** [analysis.score || 0.5], as the number [Math.max] makes of it. *)
Definition score_or_default (o : option JsonValue) : number :=
  match o with
  | Some (JNumber n) => if truthy n then n else lit 5 10
  | Some (JOther toBoolean toNumber) => if toBoolean then toNumber else lit 5 10
  | None => lit 5 10
  end.

(** Validate and set defaults *)
Definition validate (analysis : RawAnalysis) : SentimentAnalysis :=
  mkSentiment
    (Math_min (Math_max (score_or_default (raw_score analysis)) zero) one)
    (if listed known_intents (raw_intent analysis)
     then string_or_default (raw_intent analysis) else "general")
    (if listed known_urgencies (raw_urgency analysis)
     then string_or_default (raw_urgency analysis) else "medium")
    (match raw_keywords analysis with Some k => k | None => [] end).

Definition analyzeSentiment (message : string) : M SentimentAnalysis :=
  try_catch
    (let* analysis := complete_analysis message in
     ret (validate analysis))
    (fun _ => ret (mkSentiment (lit 5 10) "general" "medium" [])).

(** Retrieve conversation history from database: the stored messages when
    the request names a conversation that has some, no message otherwise. *)
Definition loadHistory (req : ChatRequest) : M (list ChatMessage) :=
  if truthy_str (conversationId req) then
    let* historyData := getChatConversation (string_or_default (conversationId req)) in
    ret (match historyData with Some msgs => msgs | None => [] end)
  else ret [].

(** Format history for OpenAI *)
Definition formatHistory (conversationHistory : list ChatMessage) : list (Role * string) :=
  map (fun msg => (role msg, content msg)) conversationHistory.

(** [POST /], the chat turn. *)
Definition chat_turn (req : ChatRequest) : M ChatReply :=
  try_catch
    (if negb (truthy_str (message req)) then ret BadRequest
     else
       let message := string_or_default (message req) in
       (* Generate conversation ID if not provided *)
       let* convId := gets (fun w => if truthy_str (conversationId req)
                                     then string_or_default (conversationId req)
                                     else newConversationId w) in
       let* sessId := gets (fun w => if truthy_str (sessionId req)
                                     then string_or_default (sessionId req)
                                     else newSessionId w) in
       let* conversationHistory := loadHistory req in
       let formattedHistory := formatHistory conversationHistory in
       (* Get AI response *)
       let* aiResponse := getChatResponse message formattedHistory in
       (* Analyze sentiment for lead qualification *)
       let* sentiment := analyzeSentiment message in
       (* Update conversation history *)
       let* t1 := gets isoNow in
       let* t2 := gets isoNow in
       let conversationHistory :=
         conversationHistory ++ [mkChatMessage user message t1;
                                 mkChatMessage assistant aiResponse t2] in
       (* Store/update conversation in database *)
       let* t3 := gets isoNow in
       upsertChatConversation
         (mkConversationData convId sessId conversationHistory t3
            (length conversationHistory)
            (score sentiment) (intent sentiment) (urgency sentiment) (keywords sentiment)) ;;
       (* Calculate qualification score *)
       let qualificationScore := calculateQualificationScore [sentiment] in
       (* Trigger lead capture if qualified (score > 0.7 and 3+ messages) *)
       let shouldCaptureLeadNow :=
         gtb qualificationScore (lit 7 10)
         && Nat.leb 6 (length conversationHistory)
         && negb (truthy_str (userMetadata_email req)) in
       ret (Reply (mkChatBody aiResponse convId sessId (length conversationHistory)
                              (score sentiment, intent sentiment, urgency sentiment)
                              qualificationScore shouldCaptureLeadNow)))
    (fun error => ret (Failure error)).

End Handler.

(** The request of the analysis prompt as the service makes it.  It goes
    through [this.client]; the class declares [openaiClient] and
    [groqClient], and neither its constructor nor any method assigns a
    [client]: the read gives [undefined], and reading [chat] of it throws
    a TypeError before anything is sent. *)
Definition no_client : string -> M RawAnalysis :=
  fun _ => throw "Cannot read properties of undefined (reading 'chat')".

(** The analysis returned when the request or the decoding throws. *)
Definition neutral : SentimentAnalysis :=
  mkSentiment (lit 5 10) "general" "medium" [].

(** A store that holds three earlier exchanges. *)
Definition earlier : list ChatMessage :=
  [ mkChatMessage user "hello" "t0"; mkChatMessage assistant "Hello!" "t0";
    mkChatMessage user "what is it?" "t1"; mkChatMessage assistant "A receptionist." "t1";
    mkChatMessage user "hm, not sure" "t2"; mkChatMessage assistant "Take your time." "t2" ].

Definition sample_turn : ChatRequest -> M ChatReply :=
  chat_turn (fun _ => ret (Some earlier)) (fun _ => ret None)
            true (fun _ _ => ret (Some "Great, let us get you started."))
            (fun _ => "Thanks for your question!")
            no_client
            (fun _ => "2024-01-01T00:00:00.000Z") (fun _ => "conv_1") (fun _ => "sess_1").

End Chat.

(** ** Streams of requests through the rate limiter *)

Module Traffic.
Import JsString RateLimit.

(** The limiter of the public demo-call route: 3 calls per hour per IP. *)
Definition demoCallRateLimiter : RateLimitOptions :=
  mkOptions (60 * 60 * 1000) 3
    (Some "Demo call limit reached. You can request up to 3 demo calls per hour. Please try again later or contact us directly.").

(** The requests of one client key among the arrivals, and the verdicts
    they received. *)
Definition arrivals_of (key : string) (arrivals : list (Request * Z)) : list (Request * Z) :=
  filter (fun a => key_of (fst a) = key) arrivals.

Definition verdicts_of (key : string) (arrivals : list (Request * Z)) (vs : list verdict)
  : list verdict :=
  map snd (filter (fun av => key_of (fst (fst av)) = key) (zip arrivals vs)).

(** The first [n] of a run of requests pass, the others do not. *)
Definition first_pass (n : Z) (len : nat) : list bool :=
  map (fun i => Z.of_nat i <=? n) (seq 1 len).

(** The number of requests the limiter let pass. *)
Definition passes (vs : list verdict) : nat :=
  length (filter (fun v => admitted v = true) vs).

(** Every arrival is a request of the key that comes no later than the
    given time. *)
Definition within (key : string) (deadline : Z) (arrivals : list (Request * Z)) : Prop :=
  Forall (fun a => key_of (fst a) = key /\ snd a <= deadline) arrivals.

(** *** The reset header

    A request that is not rejected gets three headers before [next()] is
    called; the last one is the reset time as an ISO date,
    [new Date(resetTime).toISOString()].  That call throws a RangeError
    unless the reset time is a time value, at most 8.64e15 milliseconds
    from the epoch.  The counter of the key was written by then; the
    exception leaves the middleware, and [next()] is not called. *)
Definition max_time : Z := 8640000000000000.

Definition time_value (t : Z) : bool := (- max_time <=? t) && (t <=? max_time).

Inductive outcome :=
| Passed (limit remaining : Z) (reset : Z)     (* headers set, [next()] called *)
| Limited (retryAfter : Z)                     (* status 429 *)
| RangeError.                                  (* thrown: Invalid time value *)

Definition dated (v : verdict) : outcome :=
  match v with
  | Next limit remaining reset =>
      if time_value reset then Passed limit remaining reset else RangeError
  | TooManyRequests retryAfter => Limited retryAfter
  end.

(** The middleware that [rateLimiter(options)] returns. *)
Definition middleware (options : RateLimitOptions) (req : Request) (now : Z)
  (rateLimitStore : gmap string entry) : gmap string entry * outcome :=
  let '(rateLimitStore, v) := rateLimiter options req now rateLimitStore in
  (rateLimitStore, dated v).

(** Requests handled one after the other, each at its clock reading. *)
Fixpoint run (options : RateLimitOptions) (arrivals : list (Request * Z))
  (store : gmap string entry) : gmap string entry * list outcome :=
  match arrivals with
  | [] => (store, [])
  | (req, now) :: more =>
      let '(store1, o) := middleware options req now store in
      let '(store2, os) := run options more store1 in
      (store2, o :: os)
  end.

Definition passed (o : outcome) : bool :=
  match o with Passed _ _ _ => true | _ => false end.

Definition thrown (o : outcome) : bool :=
  match o with RangeError => true | _ => false end.

(** The number of requests that reached [next()]. *)
Definition passed_on (os : list outcome) : nat :=
  length (filter (fun o => passed o = true) os).

(** The verdict does not name another reset time than [reset]. *)
Definition resets_at (reset : Z) (v : verdict) : Prop :=
  match v with
  | Next _ _ reset' => reset' = reset
  | TooManyRequests _ => True
  end.

(** A limiter whose window does not fit into the range of dates. *)
Definition endless : RateLimitOptions := mkOptions 8640000000000001 2 None.

(** Two stores that differ only by entries that expired before [at]. *)
Definition agree_live (at_ : Z) (s1 s2 : gmap string entry) : Prop :=
  forall k, s1 !! k = s2 !! k \/
            (s1 !! k = None /\ exists e, s2 !! k = Some e /\ resetTime e < at_).

End Traffic.

(** ** What the transcript heuristics see *)

Module Heuristics.
Import JsString Regex Leads.

(** One of the keywords occurs in the transcript, ignoring case. *)
Definition says (t : string) (kws : list string) : Prop :=
  exists kw, kw ∈ kws /\ occurs_ci kw t.

(** The keyword groups of the intent [if]-chain, in its order. *)
Definition booking_words : list string := ["book"; "reservation"].
Definition pricing_words : list string := ["price"; "cost"; "how much"].
Definition interest_words : list string := ["interested"; "sign up"].
Definition support_words : list string := ["support"; "help"].
Definition cancellation_words : list string := ["cancel"; "refund"].

(** Every code unit of the text is in the class. *)
Fixpoint every (p : ascii -> bool) (s : string) : bool :=
  match s with
  | EmptyString => true
  | String c s' => p c && every p s'
  end.

(** The text is a part of the transcript. *)
Definition part_of (x t : string) : Prop := exists pre post, t = pre +:+ x +:+ post.

(** The text the name group captures: one word, or two words with one
    white-space character between them. *)
Definition one_or_two_words (n : string) : Prop :=
  exists first,
    every letter_i first = true /\ first <> EmptyString /\
    (n = first \/
     exists sp second,
       is_space sp = true /\ every letter_i second = true /\ second <> EmptyString /\
       n = first +:+ String sp second).

(** The cues of the three name patterns. *)
Definition name_cues : list string := ["my name is "; "i'm "; "this is "].

End Heuristics.

(** ** The sanitizer of the request logger

    Request and response bodies are decoded JSON.  An object is kept as
    the list of its properties in enumeration order; an array has its
    indices for keys, and no index (a text of digits) contains one of the
    sensitive words, so that the loop over an array only descends. *)

Module Logger.
Import JsNum JsString Leads.

#[local] Set Warnings "-register-all".

Inductive json :=
| JNull
| JBool (b : bool)
| JNum (n : number)
| JStr (s : string)
| JArr (items : list json)
| JObj (fields : list (string * json)).

Definition sensitiveKeys : list string :=
  [ "password"; "token"; "apiKey"; "api_key"; "secret"; "authorization"; "auth";
    "credit_card"; "creditCard"; "ssn"; "privateKey"; "private_key" ].

(** [sensitiveKeys.some(sensitive => key.toLowerCase().includes(sensitive.toLowerCase()))] *)
Definition is_sensitive (key : string) : bool :=
  existsb (fun sensitive => includes (toLowerCase key) (toLowerCase sensitive)) sensitiveKeys.

Definition REDACTED : json := JStr "[REDACTED]".

(** A value that is not an object is returned as it is.  In the copy of
    an array or an object, a property with a sensitive key is overwritten;
    any other property whose value is an object ([null] included, which
    comes back as it is) is sanitized in turn. *)
Fixpoint sanitizeData (data : json) : json :=
  match data with
  | JArr items => JArr (map sanitizeData items)
  | JObj fields =>
      JObj (map (fun kv => (fst kv,
                            if is_sensitive (fst kv) then REDACTED
                            else sanitizeData (snd kv)))
                fields)
  | _ => data
  end.

(** *** Paths into a body *)

Inductive step := Field (key : string) | Index (i : nat).

(** [reach d path v]: following [path] from [d] leads to [v]. *)
Inductive reach : json -> list step -> json -> Prop :=
| reach_here d : reach d [] d
| reach_field fields key v path x :
    In (key, v) fields -> reach v path x -> reach (JObj fields) (Field key :: path) x
| reach_index items i v path x :
    nth_error items i = Some v -> reach v path x -> reach (JArr items) (Index i :: path) x.

(** The key names a secret: one of the sensitive words occurs in it,
    ignoring case. *)
Definition names_secret (key : string) : Prop :=
  exists word, word ∈ sensitiveKeys /\ occurs_ci word key.

(** No property on the path names a secret. *)
Definition open_path (path : list step) : Prop :=
  forall key, In (Field key) path -> ~ names_secret key.

(** A body with a nested secret, and with a key that only contains a
    sensitive word. *)
Definition profile : json :=
  JObj [("user", JObj [("Author", JStr "Ada"); ("password", JStr "secret123")])].

End Logger.

(** ** Anchored patterns *)

Module Anchored.
Import JsString Regex.

(** [r.test(s)] for a pattern written [^...$]: some way of matching at the
    start of the input uses all of it. *)
Definition test (r : re) (s : string) : bool :=
  existsb (fun m => String.eqb (rest m) EmptyString) (exec r s).

(** [r{n}] *)
Fixpoint times (n : nat) (r : re) : re :=
  match n with
  | O => Eps
  | S n' => Cat r (times n' r)
  end.

(** [r{0,n}], greedy *)
Fixpoint upto (n : nat) (r : re) : re :=
  match n with
  | O => Eps
  | S n' => Opt (Cat r (upto n' r))
  end.

(** [text.replace(/[class]/g, '')] *)
Fixpoint remove_all (p : ascii -> bool) (s : string) : string :=
  match s with
  | EmptyString => EmptyString
  | String c s' => if p c then remove_all p s' else String c (remove_all p s')
  end.

(** A way of matching [x] at the head of [s] that leaves [rest_],
    whatever the group holds. *)
Definition matches (r : re) (s x rest_ : string) : Prop :=
  exists m, In m (exec r s) /\ matched m = x /\ rest m = rest_.

End Anchored.

(** ** The public demo-call route *)

Module DemoCall.
Import JsString Regex Heuristics Anchored RateLimit Traffic.

(** [[\s\-\(\)]] *)
Definition separator (c : ascii) : bool :=
  is_space c || Ascii.eqb c "-" || Ascii.eqb c "(" || Ascii.eqb c ")".

Definition cleanPhone (phoneNumber : string) : string := remove_all separator phoneNumber.

(** [[1-9]] *)
Definition nonzero_digit : ascii -> bool := between 49 57.

(** [/^\+?[1-9]\d{6,14}$/] *)
Definition phoneRegex : re :=
  Cat (Opt (chr "+"))
      (Cat (Chr nonzero_digit)
           (Cat (times 6 (Chr is_digit)) (upto 8 (Chr is_digit)))).

(** [cleanedPhone.startsWith('+') ? cleanedPhone : `+${cleanedPhone}`] *)
Definition customer_number (cleanedPhone : string) : string :=
  if startsWith cleanedPhone "+" then cleanedPhone else "+" +:+ cleanedPhone.

(** A subscriber number in international format without the sign: 7 to 15
    digits, the first of which is not zero. *)
Definition international (digits : string) : Prop :=
  exists d more,
    digits = String d more /\ nonzero_digit d = true /\ every is_digit more = true /\
    (6 <= String.length more <= 14)%nat.

(** *** The handler

    The voice provider and the call-log table are outside the program:
    the surroundings tell, request by request, what they answer, and the
    site keeps what reached them. *)

(** A property of the decoded body: missing, a text, or another value, of
    which only the truthiness matters. *)
Inductive field := Absent | Text (s : string) | Other (truthy : bool).

Definition truthy_field (f : field) : bool :=
  match f with
  | Absent => false
  | Text s => negb (String.eqb s EmptyString)
  | Other b => b
  end.

Record DemoCallRequest := mkDemoCallRequest {
  phoneNumber : field;
  name : option string;
  source : option string;
  honeypot : field          (* Anti-spam field (should be empty) *)
}.

(** [o || default] for an optional text. *)
Definition text_or (o : option string) (default : string) : string :=
  match o with
  | Some x => if String.eqb x EmptyString then default else x
  | None => default
  end.

Record VapiCallRequest := mkVapiCallRequest {
  assistantId : string;
  number : string;                    (* [customer.number] *)
  customer_name : string;             (* [customer.name] *)
  phoneNumberId : option string;
  metadata_source : string;
  metadata_clientIp : string;
  metadata_requestedAt : string
}.

(** What [vapiService.initiateCall] ends with. *)
Inductive ProviderReply :=
| Started (id : string)                             (* the created call *)
| HttpError (status : Z) (message : option string)  (* thrown, with [error.response] *)
| NoResponse.                                       (* thrown, without [error.response] *)

Record CallLog := mkCallLog {
  log_call_id : string;
  log_caller_phone : string;
  log_caller_name : string;
  log_source : string;
  log_client_ip : string;
  log_created_at : string
}.

(** The fields interpolated into the notification text. *)
Record DemoNotice := mkDemoNotice {
  notice_phone : string;
  notice_name : string;
  notice_ip : string;
  notice_source : string;
  notice_call_id : string
}.

Record Surroundings := mkSurroundings {
  provider_reply : nat -> ProviderReply;
  log_reply : nat -> World.DbReply;
  VAPI_ASSISTANT_ID : option string;
  VAPI_PHONE_ID : option string;
  isoNow : nat -> string              (* [new Date().toISOString()] *)
}.

Record Site := mkSite {
  rateLimitStore : gmap string entry;
  provider_requests : list VapiCallRequest;   (* latest first *)
  call_logs : list CallLog;
  issued : nat                                (* outside requests issued so far *)
}.

Record Reply := mkReply {
  status : Z;
  success : bool;
  error : option string;
  callId : option string;
  phone : option string;              (* [phoneNumber] of the success body *)
  retryAfter : option Z
}.

Definition bad_request (error : string) : Reply :=
  mkReply 400 false (Some error) None None None.

Definition place (callRequest : VapiCallRequest) (site : Site) : Site :=
  mkSite (rateLimitStore site) (callRequest :: provider_requests site)
         (call_logs site) (S (issued site)).

(** The insert into [call_logs]; a failure is logged and dropped. *)
Definition save_log (sur : Surroundings) (row : CallLog) (site : Site) : Site :=
  match log_reply sur (issued site) with
  | World.Up =>
      mkSite (rateLimitStore site) (provider_requests site) (row :: call_logs site)
             (S (issued site))
  | World.Refused | World.Down =>
      mkSite (rateLimitStore site) (provider_requests site) (call_logs site)
             (S (issued site))
  end.

(** The notification.  The text is composed and handed to
    [telegram.sendMessage]; the notification service has the methods
    [notifyNewLead], [notifyPaymentLink], [notifyError] and
    [testConnection] and no [sendMessage], so that the call throws a
    TypeError, which the handler logs and drops: no request leaves the
    server and the site is as it was. *)
Definition notify (sur : Surroundings) (notice : DemoNotice) (site : Site) : Site :=
  site.

(** [POST /api/voice/v1/demo-call], after the limiter. *)
Definition post_demo_call (sur : Surroundings) (headers : Request) (body : DemoCallRequest)
  (site : Site) : Reply * Site :=
  (* Anti-spam: Honeypot check *)
  if truthy_field (honeypot body) then (bad_request "Invalid request", site)
  else
    (* Validate phone number *)
    match phoneNumber body with
    | Text phoneNumber =>
        if String.eqb phoneNumber EmptyString
        then (bad_request "Phone number is required", site)
        else
          (* Basic phone validation (remove spaces, dashes, parentheses) *)
          let cleanedPhone := cleanPhone phoneNumber in
          if negb (test phoneRegex cleanedPhone)
          then (bad_request
                  "Invalid phone number format. Please include country code (e.g., +44 for UK)",
                site)
          else
            (* Get client IP for logging *)
            let clientIp := clientIpOf headers in
            (* Initiate call via Vapi *)
            let callRequest :=
              mkVapiCallRequest
                (text_or (VAPI_ASSISTANT_ID sur) "15c07867-d296-4ece-ba91-f8fa068f894e")
                (customer_number cleanedPhone)
                (text_or (name body) "Demo User")
                (VAPI_PHONE_ID sur)
                (text_or (source body) "landing_page_demo")
                clientIp
                (isoNow sur (issued site)) in
            let site1 := place callRequest site in
            match provider_reply sur (issued site) with
            | Started id =>
                (* Save demo call to database *)
                let site2 :=
                  save_log sur
                    (mkCallLog id cleanedPhone (text_or (name body) "Demo User")
                               (text_or (source body) "landing_page_demo") clientIp
                               (isoNow sur (issued site1)))
                    site1 in
                (* Send Telegram notification *)
                let site3 :=
                  notify sur
                    (mkDemoNotice cleanedPhone (text_or (name body) "Not provided") clientIp
                                  (text_or (source body) "landing_page_demo") id)
                    site2 in
                (* Success response *)
                (mkReply 200 true None (Some id) (Some cleanedPhone) None, site3)
            | HttpError code message =>
                (* Check if it's a Vapi error *)
                if code =? 400 then
                  (* Check if it's an international calling restriction *)
                  if includes (text_or message EmptyString) "international calls"
                  then (mkReply 400 false (Some "International calls not supported")
                                None None None, site1)
                  else (mkReply 400 false (Some "Invalid phone number") None None None, site1)
                else if code =? 429 then
                  (mkReply 429 false (Some "Rate limit exceeded") None None None, site1)
                else
                  (* Generic error *)
                  (mkReply 500 false (Some "Demo call failed") None None None, site1)
            | NoResponse =>
                (mkReply 500 false (Some "Demo call failed") None None None, site1)
            end
    | Absent | Other _ => (bad_request "Phone number is required", site)
    end.

Definition with_store (store : gmap string entry) (site : Site) : Site :=
  mkSite store (provider_requests site) (call_logs site) (issued site).

(** The route with its middleware, [demoCallRateLimiter]. *)
Definition demo_call_route (sur : Surroundings) (headers : Request) (body : DemoCallRequest)
  (now : Z) (site : Site) : Reply * Site :=
  let '(store, v) := rateLimiter demoCallRateLimiter headers now (rateLimitStore site) in
  match v with
  | TooManyRequests resetIn =>
      (mkReply 429 false (Some "Too Many Requests") None None (Some resetIn),
       with_store store site)
  | Next _ _ _ => post_demo_call sur headers body (with_store store site)
  end.

(** Requests handled one after the other. *)
Fixpoint visits (sur : Surroundings) (arrivals : list (Request * DemoCallRequest * Z))
  (site : Site) : list Reply * Site :=
  match arrivals with
  | [] => ([], site)
  | (headers, body, now) :: more =>
      let '(reply, site1) := demo_call_route sur headers body now site in
      let '(replies, site2) := visits sur more site1 in
      (reply :: replies, site2)
  end.

(** What the limiter sees of the arrivals. *)
Definition knocks (arrivals : list (Request * DemoCallRequest * Z)) : list (Request * Z) :=
  map (fun a => (fst (fst a), snd a)) arrivals.

(** A number the provider can dial: the sign and an international
    subscriber number. *)
Definition dialable (callRequest : VapiCallRequest) : Prop :=
  exists digits, number callRequest = String "+" digits /\ international digits.

(** The body passes the checks of the handler. *)
Definition acceptable (body : DemoCallRequest) : Prop :=
  truthy_field (honeypot body) = false /\
  exists phoneNumber digits,
    DemoCall.phoneNumber body = Text phoneNumber /\ international digits /\
    (cleanPhone phoneNumber = digits \/ cleanPhone phoneNumber = String "+" digits).

(** Surroundings in which every outside request succeeds, a site that
    has seen no request, and a visitor who types a number with separators. *)
Definition calm : Surroundings :=
  mkSurroundings (fun _ => Started "call-1") (fun _ => World.Up)
                 None None (fun _ => "2024-01-01T00:00:00.000Z").

Definition opening : Site := mkSite ∅ [] [] 0.

Definition caller : DemoCallRequest :=
  mkDemoCallRequest (Text "+1 (415) 555-1234") (Some "Ada") None Absent.

End DemoCall.

(** ** One delivery of a webhook event, as a change of the world *)

Module Delivery.
Import JsNum JsString Leads World Services Webhook.

(** The columns a started call writes. *)
Definition started_updates : CallUpdates := mkCallUpdates None (Some in_progress) None None.

(** The columns a failed call writes. *)
Definition failed_updates : CallUpdates := mkCallUpdates None (Some missed) None None.

(** What the [switch] on the event type does to the world. *)
Definition dispatch_effect (event : VapiWebhookEvent) (w : World) : World :=
  match call event with
  | Some c =>
      if truthy_str (metadata_userId c) then
        if String.eqb (type event) "call.ended" then call_ended_effect c w
        else if String.eqb (type event) "call.started"
             then db_effect (alter_call (apply_updates started_updates) (call_id c)) w
        else if String.eqb (type event) "call.failed" then call_failed_effect c w
        else w
      else w
  | None => w
  end.

(** The world after [POST /webhook/vapi]: the event row is written, the
    event is processed, the row is marked. *)
Definition delivery (event : VapiWebhookEvent) (w : World) : World :=
  marked (saved_id event w) None (dispatch_effect event (saved_world event w)).

(** The event is one of a call that names its user. *)
Definition of_user (event : VapiWebhookEvent) (c : VapiCallResponse) : Prop :=
  call event = Some c /\ truthy_str (metadata_userId c) = true.

(** A row with another status. *)
Definition with_status (s : CallStatus) (row : Call) : Call :=
  mkCallRow (user_id row) (caller_phone row) (transcript row) (Some s)
            (duration row) (audio_url row).

(** Two tables that differ at most in the row [id], which is in both or
    in neither. *)
Definition patched {A} (id : nat) (before after : gmap nat A) : Prop :=
  (forall id', id' <> id -> after !! id' = before !! id') /\
  (after !! id = None <-> before !! id = None).

(** The call of the scenario fails, and a world whose database cannot be
    reached and whose bot is not configured. *)
Definition failed_event : VapiWebhookEvent :=
  mkEvent "call.failed" (Some ended_call) None "2024-01-01T00:00:00Z".

Definition outage : World :=
  mkWorld (db ringing) [] [] [] 0
          (mkEnv (fun _ => Down) (fun _ => true) (fun _ => Unreachable) true true
                 1700000000000).

Definition silent : World :=
  mkWorld (db ringing) [] [] [] 0
          (mkEnv (fun _ => Up) (fun _ => true) (fun _ => Accepted "https://pay.example/abc")
                 false true 1700000000000).

End Delivery.

(** ** Authentication and the outbound-call route

    The identity provider, the voice provider and the database are outside
    the program: the conditions tell what they answer, the office keeps the
    tables and the requests that reached the voice provider. *)

Module Calls.
Import JsString World Services Logger.

Record User := mkUser {
  id : string;
  email : option string
}.

(** What [client.auth.getUser(token)] ends with. *)
Inductive IdentityReply :=
| Known (user : User)     (* a user, and no error *)
| Unknown                 (* an error, or no user *)
| Unavailable.            (* the request throws *)

(** [try { body } catch (e) { handler }] for a computation that returns a
    value or throws. *)
Definition attempt {A} (body : string + A) (handler : string -> string + A) : string + A :=
  match body with
  | inl e => handler e
  | inr a => inr a
  end.

(** [s.substring(n)] *)
Fixpoint skip (n : nat) (s : string) : string :=
  match n, s with
  | O, _ => s
  | S n', String _ s' => skip n' s'
  | S _, EmptyString => EmptyString
  end.

(** [s.replace(pattern, replacement)] for a text pattern: the first
    occurrence is replaced. *)
Fixpoint replace (s pattern replacement : string) : string :=
  if startsWith s pattern then replacement +:+ skip (String.length pattern) s
  else
    match s with
    | EmptyString => EmptyString
    | String c s' => String c (replace s' pattern replacement)
    end.

Definition verifyUserToken (getUser : string -> IdentityReply) (token : string)
  : string + option User :=
  attempt
    (match getUser token with
     | Known user => inr (Some (mkUser (id user) (email user)))
     | Unknown => inr None
     | Unavailable => inl "fetch failed"
     end)
    (fun _ => inr None).

Inductive AuthOutcome :=
| Proceed (user : User)             (* [req.user = user], then [next()] *)
| Unauthorized (message : string)   (* 401 *)
| AuthenticationFailed.             (* 500 *)

Definition authenticate (getUser : string -> IdentityReply) (authorization : option string)
  : string + AuthOutcome :=
  attempt
    ((* Extract token from Authorization header *)
     if negb (truthy_str authorization)
        || negb (startsWith (string_or_default authorization) "Bearer ")
     then inr (Unauthorized "Missing or invalid Authorization header")
     else
       let token := replace (string_or_default authorization) "Bearer " EmptyString in
       (* Verify token with Supabase *)
       match verifyUserToken getUser token with
       | inl e => inl e
       | inr None => inr (Unauthorized "Invalid or expired token")
       | inr (Some user) => inr (Proceed user)
       end)
    (fun _ => inr AuthenticationFailed).

(** [optionalAuth]: the user attached to the request when [next()] is
    called. *)
Definition optionalAuth (getUser : string -> IdentityReply) (authorization : option string)
  : string + option User :=
  attempt
    (if truthy_str authorization && startsWith (string_or_default authorization) "Bearer "
     then verifyUserToken getUser
            (replace (string_or_default authorization) "Bearer " EmptyString)
     else inr None)
    (fun _ => inr None).

(** *** The route *)

(** What the handler reads of the body; of [customer] only the number,
    the rest of it being handed on as it is. *)
Record CallBody := mkCallBody {
  assistantId : option string;
  customer_number : option string;       (* [customer?.number] *)
  phoneNumberId : option string;
  metadata : gmap string json
}.

Record VapiCallRequest := mkVapiCallRequest {
  request_assistantId : string;
  request_number : string;
  request_phoneNumberId : option string;
  request_metadata : gmap string json
}.

(** What [vapiService.initiateCall] ends with. *)
Inductive ProviderReply :=
| Created (call_id : string)
| Failed (status : option Z) (message : string).   (* thrown; [error.response?.status] *)

Record Conditions := mkConditions {
  getUser : string -> IdentityReply;
  db_reply : nat -> DbReply;
  provider_reply : nat -> ProviderReply;
  decrement_calls_remaining : Z -> Z;     (* the stored procedure of that name *)
  VAPI_PHONE_ID : option string
}.

Record Office := mkOffice {
  calls_remaining : gmap string Z;        (* the column of [profiles] *)
  calls : gmap string Call;
  provider_requests : list VapiCallRequest;   (* latest first *)
  issued : nat                            (* outside requests issued so far *)
}.

Record CallReply := mkCallReply {
  status : Z;
  error : option string;
  call : option string;                   (* the identifier of [call] in the body *)
  callsRemaining : option Z
}.

Definition tick (office : Office) : Office :=
  mkOffice (calls_remaining office) (calls office) (provider_requests office)
           (S (issued office)).

Definition getUserCallsRemaining (cond : Conditions) (userId : string) (office : Office)
  : option Z * Office :=
  (match db_reply cond (issued office) with
   | Up => calls_remaining office !! userId
   | Refused | Down => None
   end,
   tick office).

(** [saveCall]: the insert fails on an identifier that is taken.  The row
    is kept with the columns of [Call]. *)
Definition saveCall (cond : Conditions) (call_id : string) (row : Call) (office : Office)
  : Office :=
  match db_reply cond (issued office), calls office !! call_id with
  | Up, None =>
      mkOffice (calls_remaining office) (<[call_id := row]> (calls office))
               (provider_requests office) (S (issued office))
  | _, _ => tick office
  end.

Definition decrementUserCalls (cond : Conditions) (userId : string) (office : Office)
  : Office :=
  match db_reply cond (issued office) with
  | Up =>
      mkOffice (alter (decrement_calls_remaining cond) userId (calls_remaining office))
               (calls office) (provider_requests office) (S (issued office))
  | Refused | Down => tick office
  end.

Definition place (callRequest : VapiCallRequest) (office : Office) : Office :=
  mkOffice (calls_remaining office) (calls office) (callRequest :: provider_requests office)
           (S (issued office)).

(** [POST /api/voice/v1/call], after [authenticate]. *)
Definition post_call (cond : Conditions) (user : User) (body : CallBody) (office : Office)
  : CallReply * Office :=
  let userId := id user in
  (* Validate required fields *)
  if negb (truthy_str (assistantId body)) || negb (truthy_str (customer_number body))
  then (mkCallReply 400 (Some "Bad Request") None None, office)
  else
    (* Check user's remaining calls *)
    let '(callsRemaining, office1) := getUserCallsRemaining cond userId office in
    match callsRemaining with
    | None => (mkCallReply 500 (Some "Internal Server Error") None None, office1)
    | Some callsRemaining =>
        if callsRemaining <=? 0
        then (mkCallReply 403 (Some "Quota Exceeded") None (Some 0), office1)
        else
          (* Initiate call via Vapi *)
          let callRequest :=
            mkVapiCallRequest
              (string_or_default (assistantId body))
              (string_or_default (customer_number body))
              (if truthy_str (phoneNumberId body) then phoneNumberId body
               else VAPI_PHONE_ID cond)
              (<["source" := JStr "callwaitingai"]>
                 (<["userId" := JStr userId]> (metadata body))) in
          let office2 := place callRequest office1 in
          match provider_reply cond (issued office1) with
          | Created call_id =>
              (* Save call record to Supabase *)
              let office3 :=
                saveCall cond call_id
                  (mkCallRow userId (customer_number body) None (Some in_progress) None None)
                  office2 in
              (* Decrement user's call count *)
              let office4 := decrementUserCalls cond userId office3 in
              (mkCallReply 200 None (Some call_id) (Some (callsRemaining - 1)), office4)
          | Failed code _ =>
              (mkCallReply (match code with
                            | Some c => if c =? 0 then 500 else c
                            | None => 500
                            end)
                           (Some "Call Initiation Failed") None None,
               office2)
          end
    end.

(** The route with its middleware. *)
Definition call_route (cond : Conditions) (authorization : option string) (body : CallBody)
  (office : Office) : CallReply * Office :=
  match authenticate (getUser cond) authorization with
  | inr (Proceed user) => post_call cond user body office
  | inr (Unauthorized _) => (mkCallReply 401 (Some "Unauthorized") None None, office)
  | inr AuthenticationFailed | inl _ =>
      (mkCallReply 500 (Some "Internal Server Error") None None, office)
  end.

End Calls.

(* ===================================================================== *)
(** * Part II: properties                                                  *)
(* ===================================================================== *)

Module JsNumFacts.
Import JsNum.

Lemma one_eq : one = S754_finite false 4503599627370496 (-52).
Proof. vm_compute. reflexivity. Qed.

Lemma zero_eq : zero = S754_zero false.
Proof. reflexivity. Qed.

Lemma mul_comm x y : mul x y = mul y x.
Proof.
  unfold mul. destruct x as [sx|sx| |sx mx ex], y as [sy|sy| |sy my ey]; simpl;
    rewrite ?(xorb_comm sx sy); try reflexivity.
  now rewrite (Pos.mul_comm mx my), (Z.add_comm ex ey).
Qed.

(** *** Signs survive rounding

    None of the arithmetic below can produce [NaN] or a negative value out
    of non-negative operands; the lemmas follow the rounding pipeline of
    the specification ([shr], [round_nearest_even], [binary_round_aux]). *)

Lemma signed_nonneg r : signed false r -> nonneg r.
Proof. destruct r; simpl; auto. Qed.

Lemma nonneg_not_nan r : nonneg r -> isNaN r = false.
Proof. destruct r; simpl; tauto. Qed.

Lemma leb_zero_nonneg r : leb zero r = true -> nonneg r.
Proof.
  rewrite zero_eq. unfold leb, SFleb.
  destruct r as [s|[|]| |[|] m e]; simpl; auto; discriminate.
Qed.

Lemma iter_pos_inv {A} (P : A -> Prop) (f : A -> A) :
  (forall x, P x -> P (f x)) ->
  forall n x, P x -> P (SpecFloat.iter_pos f n x).
Proof.
  intros Hf n. induction n as [n IH|n IH|]; intros x Hx; simpl; auto.
Qed.

Lemma shr_1_nonneg mrs : 0 <= shr_m mrs -> 0 <= shr_m (shr_1 mrs).
Proof.
  destruct mrs as [m r s]. simpl. destruct m as [|[p|p|]|[p|p|]]; simpl; lia.
Qed.

Lemma shr_nonneg mrs e n : 0 <= shr_m mrs -> 0 <= shr_m (fst (shr mrs e n)).
Proof.
  intros H. destruct n; simpl; auto.
  apply (iter_pos_inv (fun r => 0 <= shr_m r)); auto using shr_1_nonneg.
Qed.

Lemma shr_fexp_nonneg m e l :
  0 <= m -> 0 <= shr_m (fst (shr_fexp prec emax m e l)).
Proof.
  intros H. unfold shr_fexp. apply shr_nonneg.
  destruct l as [|[| |]]; simpl; exact H.
Qed.

Lemma round_nearest_even_nonneg m l : 0 <= m -> 0 <= round_nearest_even m l.
Proof.
  intros H. destruct l as [|[| |]]; simpl; try lia. destruct (Z.even m); lia.
Qed.

Lemma binary_round_aux_signed s m e l :
  0 <= m -> signed s (binary_round_aux prec emax s m e l).
Proof.
  intros H. unfold binary_round_aux.
  pose proof (shr_fexp_nonneg m e l H) as H1.
  destruct (shr_fexp prec emax m e l) as [mrs' e'] eqn:E1. simpl in H1.
  pose proof (shr_fexp_nonneg _ e' loc_Exact
                (round_nearest_even_nonneg _ (loc_of_shr_record mrs') H1)) as H2.
  destruct (shr_fexp prec emax _ e' loc_Exact) as [mrs'' e''] eqn:E2. simpl in H2.
  destruct (shr_m mrs'') as [|p|p]; simpl; try reflexivity.
  - destruct (e'' <=? _); reflexivity.
  - lia.
Qed.

Lemma binary_round_signed s m e : signed s (binary_round prec emax s m e).
Proof.
  unfold binary_round. destruct (shl_align _ _ _) as [mz ez].
  apply binary_round_aux_signed. lia.
Qed.

Lemma add_nonneg x y : nonneg x -> nonneg y -> nonneg (add x y).
Proof.
  unfold add.
  destruct x as [sx|sx| |sx mx ex], y as [sy|sy| |sy my ey]; simpl;
    intros Hx Hy; subst; try exact I; try reflexivity; try contradiction.
  - destruct sx, sy; exact I.
  - unfold binary_normalize.
    destruct (shl_align mx ex _) as [a ?], (shl_align my ey _) as [b ?]. simpl.
    apply signed_nonneg, binary_round_signed.
Qed.

Lemma mul_nonneg x y : nonneg x -> pos_finite y -> nonneg (mul x y).
Proof.
  unfold mul. destruct y as [| | |[|] my ey]; try contradiction. intros Hx _.
  destruct x as [sx|sx| |sx mx ex]; simpl in *; subst;
    try exact I; try reflexivity; try contradiction.
  apply signed_nonneg, binary_round_aux_signed. lia.
Qed.

Lemma div_core_nonneg m1 e1 m2 e2 :
  0 <= fst (fst (SFdiv_core_binary prec emax (Zpos m1) e1 (Zpos m2) e2)).
Proof.
  unfold SFdiv_core_binary.
  set (s := _ - _ - _).
  set (m' := match s with Z0 => _ | Zpos _ => _ | Zneg _ => _ end).
  assert (Hm : 0 <= m').
  { subst m'. destruct s; try lia. apply Z.shiftl_nonneg. lia. }
  pose proof (Z.div_pos m' (Zpos m2) Hm ltac:(lia)) as Hq.
  unfold Z.div in Hq. destruct (Z.div_eucl m' (Zpos m2)) as [q r]. exact Hq.
Qed.

Lemma div_nonneg x y : nonneg x -> pos_finite y -> nonneg (div x y).
Proof.
  unfold div. destruct y as [| | |[|] my ey]; try contradiction. intros Hx _.
  destruct x as [sx|sx| |sx mx ex]; simpl in *; subst;
    try exact I; try reflexivity; try contradiction.
  pose proof (div_core_nonneg mx ex my ey) as H.
  destruct (SFdiv_core_binary _ _ _ _ _ _) as [[mz ez] lz]. simpl in H.
  apply signed_nonneg, binary_round_aux_signed. exact H.
Qed.

(** *** Small integers convert exactly *)

Lemma digits2_pos_iter_xO p k :
  digits2_pos (Pos.iter xO p k) = (digits2_pos p + k)%positive.
Proof.
  induction k as [|k IH] using Pos.peano_ind.
  - simpl. lia.
  - rewrite Pos.iter_succ. simpl. rewrite IH. lia.
Qed.

Lemma digits2_pos_bound p n :
  0 <= n -> Zpos p < 2 ^ n -> Zpos (digits2_pos p) <= n.
Proof.
  revert n. induction p as [p IH|p IH|]; intros n Hn Hp; simpl.
  - assert (n <> 0) by (intros ->; simpl in Hp; lia).
    replace n with (Z.succ (n - 1)) in Hp by lia. rewrite Z.pow_succ_r in Hp by lia.
    specialize (IH (n - 1) ltac:(lia) ltac:(lia)). lia.
  - assert (n <> 0) by (intros ->; simpl in Hp; lia).
    replace n with (Z.succ (n - 1)) in Hp by lia. rewrite Z.pow_succ_r in Hp by lia.
    specialize (IH (n - 1) ltac:(lia) ltac:(lia)). lia.
  - assert (n <> 0) by (intros ->; simpl in Hp; lia). lia.
Qed.

Lemma round_exact mz ez :
  Zpos (digits2_pos mz) = 53 -> -1074 <= ez <= 971 ->
  binary_round_aux prec emax false (Zpos mz) ez loc_Exact = S754_finite false mz ez.
Proof.
  intros Hmz Hez.
  assert (Hf2 : fexp prec emax (Zpos (digits2_pos mz) + ez) - ez = 0).
  { rewrite Hmz. unfold fexp, emin, prec, emax. lia. }
  unfold binary_round_aux, shr_fexp, Zdigits2.
  rewrite Hf2. cbn [shr shr_record_of_loc shr_m loc_of_shr_record round_nearest_even fst snd].
  rewrite Hf2. cbn [shr shr_m].
  replace (ez <=? emax - prec) with true; [reflexivity|].
  symmetry. apply Z.leb_le. unfold emax, prec. lia.
Qed.

Lemma ofZ_pos_finite n : 0 < n < 2 ^ 53 -> pos_finite (ofZ n).
Proof.
  intros [Hn Hlt]. destruct n as [|p|p]; try lia.
  pose proof (digits2_pos_bound p 53 ltac:(lia) Hlt) as Hd.
  unfold ofZ, binary_normalize, binary_round.
  assert (Hf : fexp prec emax (Zpos (digits2_pos p) + 0) = Zpos (digits2_pos p) - 53).
  { unfold fexp, emin, prec, emax. lia. }
  rewrite Hf. unfold shl_align.
  destruct (Zpos (digits2_pos p) - 53 - 0) as [|k|k] eqn:Ek; try lia.
  - rewrite round_exact by lia. exact I.
  - rewrite round_exact; [exact I| |lia].
    rewrite digits2_pos_iter_xO. lia.
Qed.

(** *** Clamping *)

Lemma clamp_in_unit x :
  isNaN x = false -> in_unit (Math_min (Math_max x zero) one).
Proof.
  intros Hx. unfold in_unit, leb, SFleb. rewrite one_eq, zero_eq.
  destruct x as [s|s| |s m e]; try discriminate.
  - destruct s; split; reflexivity.
  - destruct s; split; reflexivity.
  - destruct s; [split; reflexivity|].
    unfold Math_max. cbn [SFcompare].
    unfold Math_min. cbn [SFcompare].
    destruct (e ?= -52) eqn:Ee.
    + destruct (Pos.compare_cont Eq m 4503599627370496) eqn:Em;
        cbn [SFcompare]; rewrite ?Ee, ?Em; split; reflexivity.
    + cbn [SFcompare]; rewrite ?Ee; split; reflexivity.
    + split; reflexivity.
Qed.

End JsNumFacts.

(** ** The qualification scorer *)

Module ScorerFacts.
Import JsNum JsNumFacts Scorer.

Lemma intent_lookup i :
  inherited i = false -> or_half (get intentScores i) = Weight (intent_weight i).
Proof.
  intros Hi. unfold intent_weight.
  destruct (String.eqb_spec i "purchase") as [->|N1]; [vm_compute; reflexivity|].
  destruct (String.eqb_spec i "demo") as [->|N2]; [vm_compute; reflexivity|].
  destruct (String.eqb_spec i "pricing") as [->|N3]; [vm_compute; reflexivity|].
  destruct (String.eqb_spec i "information") as [->|N4]; [vm_compute; reflexivity|].
  destruct (String.eqb_spec i "support") as [->|N5]; [vm_compute; reflexivity|].
  destruct (String.eqb_spec i "general") as [->|N6]; [vm_compute; reflexivity|].
  unfold get, intentScores, literal, list_to_map. cbn [own prototype foldr fst snd uncurry].
  rewrite !lookup_insert_ne by congruence. rewrite lookup_empty.
  fold (inherited i). rewrite Hi. reflexivity.
Qed.

Lemma urgency_lookup u :
  inherited u = false -> or_half (get urgencyScores u) = Weight (urgency_weight u).
Proof.
  intros Hu. unfold urgency_weight.
  destruct (String.eqb_spec u "high") as [->|N1]; [vm_compute; reflexivity|].
  destruct (String.eqb_spec u "medium") as [->|N2]; [vm_compute; reflexivity|].
  destruct (String.eqb_spec u "low") as [->|N3]; [vm_compute; reflexivity|].
  unfold get, urgencyScores, literal, list_to_map. cbn [own prototype foldr fst snd uncurry].
  rewrite !lookup_insert_ne by congruence. rewrite lookup_empty.
  fold (inherited u). rewrite Hu. reflexivity.
Qed.

(** A key that names a member of the prototype is none of the own keys of
    the two tables: the read yields the member. *)
Lemma inherited_cases key :
  inherited key = true -> In key Object_prototype.
Proof.
  unfold inherited. intros H. apply existsb_exists in H as (x & Hin & Hx).
  apply String.eqb_eq in Hx. subst x. exact Hin.
Qed.

Lemma intent_inherited i :
  inherited i = true -> or_half (get intentScores i) = Member.
Proof.
  intros H. apply inherited_cases in H. cbn [In Object_prototype] in H.
  repeat (destruct H as [<-|H]; [vm_compute; reflexivity|]). destruct H.
Qed.

Lemma urgency_inherited u :
  inherited u = true -> or_half (get urgencyScores u) = Member.
Proof.
  intros H. apply inherited_cases in H. cbn [In Object_prototype] in H.
  repeat (destruct H as [<-|H]; [vm_compute; reflexivity|]). destruct H.
Qed.

(** [reduce] with a projecting callback sums the projected values. *)
Lemma reduce_map {A} (f g : A -> number) (h : list A) (acc : number) :
  (forall a, f a = g a) ->
  fold_left (fun sum s => add sum (f s)) h acc = fold_left add (map g h) acc.
Proof.
  intros Hfg. revert acc. induction h as [|a h IH]; intros acc; simpl.
  - reflexivity.
  - rewrite Hfg. apply IH.
Qed.

(** As long as every operand is a number, so is the sum. *)
Lemma reduce_weights {A} (f : A -> operand) (g : A -> number) (h : list A) (acc : number) :
  Forall (fun a => f a = Weight (g a)) h ->
  fold_left (fun sum s => plus sum (f s)) h (Sum acc) = Sum (fold_left add (map g h) acc).
Proof.
  intros Hfg. revert acc. induction Hfg as [|a h Ha _ IH]; intros acc; cbn [fold_left map].
  - reflexivity.
  - rewrite Ha. cbn [plus]. apply IH.
Qed.

(** Once a text, always a text; and a member of the prototype makes one. *)
Lemma reduce_joined {A} (f : A -> operand) (h : list A) :
  fold_left (fun sum s => plus sum (f s)) h Joined = Joined.
Proof. induction h as [|a h IH]; [reflexivity|]. cbn [fold_left plus]. exact IH. Qed.

Lemma reduce_member {A} (f : A -> operand) (h : list A) (acc : accumulator) :
  Exists (fun a => f a = Member) h ->
  fold_left (fun sum s => plus sum (f s)) h acc = Joined.
Proof.
  intros Hex. revert acc. induction Hex as [a h Ha|a h _ IH]; intros acc; cbn [fold_left].
  - rewrite Ha. replace (plus acc Member) with Joined by (destruct acc; reflexivity).
    apply reduce_joined.
  - apply IH.
Qed.

Lemma score_refines_spec h :
  Forall plain h -> calculateQualificationScore h = spec_score h.
Proof.
  intros Hplain.
  destruct h as [|s h]; [reflexivity|].
  unfold calculateQualificationScore, spec_score, clamp01, mean, length_of.
  cbn [length Nat.eqb].
  rewrite !length_map.
  rewrite (reduce_map score score) by reflexivity.
  rewrite (reduce_weights _ (fun s => intent_weight (intent s)))
    by (eapply Forall_impl; [exact Hplain | intros a [Ha _]; apply intent_lookup, Ha]).
  rewrite (reduce_weights _ (fun s => urgency_weight (urgency s)))
    by (eapply Forall_impl; [exact Hplain | intros a [_ Ha]; apply urgency_lookup, Ha]).
  cbn [ToNumber].
  rewrite (mul_comm (lit 3 10)), (mul_comm (lit 5 10)), (mul_comm (lit 2 10)).
  reflexivity.
Qed.

(** A history in which an intent or an urgency names a member of the
    prototype is scored [NaN]. *)
Lemma add_nan_l y : add S754_nan y = S754_nan.
Proof. reflexivity. Qed.

Lemma add_nan_r x : add x S754_nan = S754_nan.
Proof. destruct x; reflexivity. Qed.

Lemma mul_nan_l y : mul S754_nan y = S754_nan.
Proof. reflexivity. Qed.

Lemma div_nan_l y : div S754_nan y = S754_nan.
Proof. reflexivity. Qed.

Lemma score_inherited h :
  Exists (fun s => inherited (intent s) = true \/ inherited (urgency s) = true) h ->
  calculateQualificationScore h = S754_nan.
Proof.
  intros Hex.
  assert (Hcases : Exists (fun s => or_half (get intentScores (intent s)) = Member) h \/
                   Exists (fun s => or_half (get urgencyScores (urgency s)) = Member) h).
  { induction Hex as [s h [Hs|Hs]|s h _ [IH|IH]].
    - left. constructor. apply intent_inherited, Hs.
    - right. constructor. apply urgency_inherited, Hs.
    - left. apply Exists_cons_tl, IH.
    - right. apply Exists_cons_tl, IH. }
  unfold calculateQualificationScore.
  destruct h as [|x h]; [inversion Hex|].
  cbn [length Nat.eqb]. cbv zeta.
  destruct Hcases as [Hm|Hm]; rewrite (reduce_member _ _ _ Hm); cbn [ToNumber];
    rewrite div_nan_l, mul_nan_l, ?add_nan_r, ?add_nan_l; reflexivity.
Qed.

Lemma intent_weight_pos i : pos_finite (intent_weight i).
Proof.
  unfold intent_weight.
  repeat match goal with |- context [String.eqb i ?k] => destruct (String.eqb i k) end;
    vm_compute; exact I.
Qed.

Lemma urgency_weight_pos u : pos_finite (urgency_weight u).
Proof.
  unfold urgency_weight.
  repeat match goal with |- context [String.eqb u ?k] => destruct (String.eqb u k) end;
    vm_compute; exact I.
Qed.

Lemma pos_finite_nonneg r : pos_finite r -> nonneg r.
Proof. destruct r as [| | |[|] ? ?]; simpl; auto; contradiction. Qed.

Lemma sum_nonneg xs acc :
  nonneg acc -> Forall nonneg xs -> nonneg (fold_left add xs acc).
Proof.
  intros Hacc Hxs. revert acc Hacc.
  induction Hxs as [|x xs Hx _ IH]; intros acc Hacc; simpl; auto using add_nonneg.
Qed.

Lemma mean_nonneg xs :
  xs <> [] -> Z.of_nat (length xs) < 2 ^ 32 -> Forall nonneg xs -> nonneg (mean xs).
Proof.
  intros Hne Hlen Hxs. unfold mean. apply div_nonneg.
  - apply sum_nonneg; [rewrite zero_eq; exact I | exact Hxs].
  - apply ofZ_pos_finite.
    assert (2 ^ 32 < 2 ^ 53) by reflexivity.
    destruct xs; [congruence|]. simpl length in *. lia.
Qed.

Lemma score_in_unit h :
  Forall plain h -> Forall well_formed h -> array_sized h ->
  in_unit (calculateQualificationScore h).
Proof.
  intros Hplain Hwf Hlen. rewrite score_refines_spec by exact Hplain.
  destruct h as [|s h]; [vm_compute; auto|].
  unfold spec_score. set (l := s :: h) in *.
  assert (Hne : forall {B} (f : SentimentAnalysis -> B), map f l <> []) by (intros; discriminate).
  assert (Hsz : forall {B} (f : SentimentAnalysis -> B), Z.of_nat (length (map f l)) < 2 ^ 32).
  { intros. rewrite length_map. exact Hlen. }
  assert (Hlit : forall n d, pos_finite (lit n d) ->
            forall xs, xs <> [] -> Z.of_nat (length xs) < 2 ^ 32 ->
                       Forall nonneg xs -> nonneg (mul (lit n d) (mean xs))).
  { intros n d Hp xs H1 H2 H3. rewrite mul_comm.
    apply mul_nonneg; [apply mean_nonneg; assumption | exact Hp]. }
  apply clamp_in_unit, nonneg_not_nan.
  apply add_nonneg; [apply add_nonneg|].
  - apply Hlit; auto; [vm_compute; exact I|].
    apply Forall_map, Forall_forall; intros x Hx; simpl.
    apply leb_zero_nonneg. rewrite Forall_forall in Hwf. apply (Hwf x Hx).
  - apply Hlit; auto; [vm_compute; exact I|].
    apply Forall_map, Forall_forall; intros x Hx; simpl.
    apply pos_finite_nonneg, intent_weight_pos.
  - apply Hlit; auto; [vm_compute; exact I|].
    apply Forall_map, Forall_forall; intros x Hx; simpl.
    apply pos_finite_nonneg, urgency_weight_pos.
Qed.




End ScorerFacts.

(** ** Strings *)

Module JsStringFacts.
Import JsString.

Lemma append_cons c a b : String c a +:+ b = String c (a +:+ b).
Proof. reflexivity. Qed.

Lemma append_nil a : EmptyString +:+ a = a.
Proof. reflexivity. Qed.

Lemma startsWith_spec s p :
  startsWith s p = true <-> exists post, s = p +:+ post.
Proof.
  revert s. induction p as [|a p IH]; intros [|b s]; simpl.
  - split; [intros _; exists EmptyString; reflexivity | reflexivity].
  - split; [intros _; exists (String b s); reflexivity | reflexivity].
  - split; [discriminate | intros [post H]; discriminate].
  - destruct (Ascii.eqb_spec a b) as [->|Hne].
    + rewrite IH. split; intros [post H]; exists post;
        rewrite append_cons in *; congruence.
    + split; [discriminate|]. intros [post H]. rewrite append_cons in H. congruence.
Qed.

Lemma includes_nil p : includes EmptyString p = startsWith EmptyString p || false.
Proof. destruct p; reflexivity. Qed.

Lemma includes_cons c s p : includes (String c s) p = startsWith (String c s) p || includes s p.
Proof. destruct p; reflexivity. Qed.

Lemma includes_spec s p :
  includes s p = true <-> exists pre post, s = pre +:+ p +:+ post.
Proof.
  induction s as [|c s IH].
  - rewrite includes_nil, orb_false_r, startsWith_spec. split.
    + intros [post H]. exists EmptyString, post. exact H.
    + intros (pre & post & H). destruct pre; [exists post; exact H|discriminate].
  - rewrite includes_cons, orb_true_iff, startsWith_spec, IH. split.
    + intros [[post H]|(pre & post & ->)].
      * exists EmptyString, post. exact H.
      * exists (String c pre), post. reflexivity.
    + intros (pre & post & H). destruct pre as [|c' pre].
      * left. exists post. exact H.
      * right. exists pre, post. rewrite append_cons in H. congruence.
Qed.

Lemma toLowerCase_app a b :
  toLowerCase (a +:+ b) = toLowerCase a +:+ toLowerCase b.
Proof.
  induction a as [|c a IH]; [reflexivity|].
  rewrite append_cons. simpl. rewrite IH. reflexivity.
Qed.

Lemma toLowerCase_split t a b :
  toLowerCase t = a +:+ b ->
  exists t1 t2, t = t1 +:+ t2 /\ toLowerCase t1 = a /\ toLowerCase t2 = b.
Proof.
  revert t. induction a as [|c a IH]; intros t H.
  - exists EmptyString, t. auto.
  - rewrite append_cons in H.
    destruct t as [|d t]; [discriminate|]. simpl in H. injection H as Hc Ht.
    destruct (IH t Ht) as (t1 & t2 & -> & H1 & H2).
    exists (String d t1), t2. simpl. rewrite Hc, H1. auto.
Qed.

End JsStringFacts.

(** ** Transcript heuristics *)

Module LeadsFacts.
Import JsNum JsString JsStringFacts Regex Leads.

(** The substring test on the lower-cased transcript decides occurrence
    up to case, for a keyword written in lower case. *)
Lemma includes_occurs_ci kw t :
  toLowerCase kw = kw ->
  includes (toLowerCase t) kw = true <-> occurs_ci kw t.
Proof.
  intros Hkw. rewrite includes_spec. unfold occurs_ci. rewrite Hkw. split.
  - intros (pre & post & H).
    apply toLowerCase_split in H as (t1 & t2 & -> & H1 & H2).
    apply toLowerCase_split in H2 as (u & t3 & -> & H2 & H3).
    exists t1, u, t3. auto.
  - intros (pre & u & post & -> & Hu).
    exists (toLowerCase pre), (toLowerCase post).
    now rewrite !toLowerCase_app, Hu.
Qed.

(** [forEach] with a guarded update applies the update once per keyword
    that passes the guard. *)
Lemma forEach_count (f : number -> number) (lower : string) (kws : list string) acc :
  fold_left (fun score keyword => if includes lower keyword then f score else score) kws acc
  = Nat.iter (length (filter (fun kw => includes lower kw = true) kws)) f acc.
Proof.
  revert acc. induction kws as [|kw kws IH]; intros acc; simpl; [reflexivity|].
  rewrite filter_cons. destruct (includes lower kw) eqn:E.
  - rewrite decide_True by reflexivity. simpl length.
    rewrite IH. symmetry. apply Nat.iter_succ_r.
  - rewrite decide_False by discriminate. apply IH.
Qed.

Lemma confidence_counts t :
  calculateConfidence t =
  spec_confidence
    (length (filter (fun kw => includes (toLowerCase t) kw = true) positiveKeywords))
    (length (filter (fun kw => includes (toLowerCase t) kw = true) negativeKeywords)).
Proof.
  unfold calculateConfidence, spec_confidence.
  rewrite (forEach_count (fun x => add x (lit 1 10))).
  rewrite (forEach_count (fun x => sub x (lit 15 100))).
  reflexivity.
Qed.

Lemma confidence_rounding hits misses :
  (hits <= 5)%nat -> (misses <= 4)%nat ->
  (Qabs (toQ (spec_confidence hits misses) - ideal_confidence hits misses) <= tolerance)%Q.
Proof.
  intros Hh Hm.
  assert (Hc : forall h m, (h <= 5)%nat -> (m <= 4)%nat ->
             Qle_bool (Qabs (toQ (spec_confidence h m) - ideal_confidence h m)) tolerance = true).
  { intros h m H1 H2.
    do 6 (destruct h as [|h]; [do 5 (destruct m as [|m]; [vm_compute; reflexivity|]); lia|]).
    lia. }
  apply Qle_bool_iff, Hc; assumption.
Qed.

Lemma keywords_lower kw :
  kw ∈ positiveKeywords ++ negativeKeywords -> toLowerCase kw = kw.
Proof.
  unfold positiveKeywords, negativeKeywords. simpl. rewrite !elem_of_cons, elem_of_nil.
  intros H. repeat (destruct H as [->|H]; [reflexivity|]). contradiction.
Qed.

Lemma hits_spec t (kws : list string) kw :
  (forall k, k ∈ kws -> toLowerCase k = k) ->
  kw ∈ filter (fun kw => includes (toLowerCase t) kw = true) kws
  <-> kw ∈ kws /\ occurs_ci kw t.
Proof.
  intros Hl. rewrite list_elem_of_filter. split.
  - intros [H1 H2]. split; [exact H2|]. apply includes_occurs_ci; auto.
  - intros [H1 H2]. split; [|exact H1]. apply includes_occurs_ci; auto.
Qed.

(** C3.  For every transcript, the confidence is 0.5 plus 0.1 for each
    positive keyword that occurs in it ignoring case, minus 0.15 for each
    negative keyword that occurs in it ignoring case, each keyword counted
    once, clamped to [[0,1]]: exactly so as a chain of binary64 additions
    and subtractions, and within rounding tolerance of the exact value. *)
Theorem C3_confidence_formula :
  forall t : string,
  exists hits misses : list string,
    NoDup hits /\ NoDup misses /\
    (forall kw, kw ∈ hits <-> kw ∈ positiveKeywords /\ occurs_ci kw t) /\
    (forall kw, kw ∈ misses <-> kw ∈ negativeKeywords /\ occurs_ci kw t) /\
    calculateConfidence t = spec_confidence (length hits) (length misses) /\
    (Qabs (toQ (calculateConfidence t) - ideal_confidence (length hits) (length misses))
     <= tolerance)%Q.
Proof.
  intros t.
  exists (filter (fun kw => includes (toLowerCase t) kw = true) positiveKeywords),
         (filter (fun kw => includes (toLowerCase t) kw = true) negativeKeywords).
  assert (Np : NoDup positiveKeywords) by (apply (bool_decide_unpack _); vm_compute; exact I).
  assert (Nn : NoDup negativeKeywords) by (apply (bool_decide_unpack _); vm_compute; exact I).
  split; [apply NoDup_filter, Np|].
  split; [apply NoDup_filter, Nn|].
  split; [intros kw; apply hits_spec; intros; apply keywords_lower, elem_of_app; auto|].
  split; [intros kw; apply hits_spec; intros; apply keywords_lower, elem_of_app; auto|].
  split; [apply confidence_counts|].
  rewrite confidence_counts. apply confidence_rounding.
  - apply (length_filter _ positiveKeywords).
  - apply (length_filter _ negativeKeywords).
Qed.

(** C2, as stated, fails: the keen transcript does not score 0.7, and the
    reluctant one is not clamped to 0. *)
Lemma C2_classifier_examples_refuted :
  calculateConfidence keen <> lit 7 10 /\
  leb (calculateConfidence reluctant) zero = false.
Proof. split; [vm_compute; discriminate | vm_compute; reflexivity]. Qed.

(** C2, amended.  The keen transcript is qualified and scores exactly 0.6:
    its only positive keyword is "interested" ("sign me up" holds no
    keyword, "sign up" being a qualifying keyword only).  The reluctant
    transcript holds the positive keyword "interested" and the negative
    keywords "no" and "not interested"; it scores 0.5 + 0.1 - 0.15 - 0.15,
    which is within rounding of 0.3, above 0, and not clamped. *)
Theorem C2_classifier_examples :
  checkQualification keen = true /\
  found keen positiveKeywords = ["interested"] /\
  found keen negativeKeywords = [] /\
  calculateConfidence keen = lit 6 10 /\
  found reluctant positiveKeywords = ["interested"] /\
  found reluctant negativeKeywords = ["no"; "not interested"] /\
  calculateConfidence reluctant
    = sub (sub (add (lit 5 10) (lit 1 10)) (lit 15 100)) (lit 15 100) /\
  (Qabs (toQ (calculateConfidence reluctant) - (3 # 10)) <= tolerance)%Q /\
  ltb zero (calculateConfidence reluctant) = true.
Proof.
  repeat split; try (vm_compute; reflexivity).
  apply Qle_bool_iff. vm_compute. reflexivity.
Qed.

(** *** Name and email extraction *)

Lemma no_pattern_no_name t :
  (forall p, p ∈ name_patterns -> match_ p t = None) -> extractName t = None.
Proof.
  intros H. unfold extractName.
  induction name_patterns as [|p ps IH]; simpl; [reflexivity|].
  rewrite (H p) by apply list_elem_of_here.
  apply IH. intros q Hq. apply H, list_elem_of_further, Hq.
Qed.

(** C4.  The name is the group of the first pattern, in order, that
    matches; "John Smith" and "Sarah" are extracted from the two sample
    transcripts, nothing when no pattern matches, and the address
    a.b@example.co.uk from the sample sentence. *)
Theorem C4_lead_extraction :
  extractName "Hi, my name is John Smith" = Some "John Smith" /\
  extractName "this is Sarah" = Some "Sarah" /\
  (forall t, (forall p, p ∈ name_patterns -> match_ p t = None) -> extractName t = None) /\
  extractEmail "reach me at a.b@example.co.uk please" = Some "a.b@example.co.uk".
Proof.
  split; [vm_compute; reflexivity|].
  split; [vm_compute; reflexivity|].
  split; [exact no_pattern_no_name|].
  vm_compute; reflexivity.
Qed.

Lemma C4_lead_extraction_witness : extractName "call me back tomorrow" = None.
Proof.
  destruct C4_lead_extraction as (_ & _ & H & _).
  apply H. intros p Hp. unfold name_patterns in Hp.
  rewrite !elem_of_cons, elem_of_nil in Hp.
  destruct Hp as [->|[->|[->|[]]]]; vm_compute; reflexivity.
Defined.

End LeadsFacts.

(** ** The rate limiter *)

Module RateLimitFacts.
Import RateLimit.

Lemma rateLimiter_split options req now store :
  rateLimiter options req now store =
  let data := current options now (store !! key_of req) in
  let data := mkEntry (count data + 1) (resetTime data) in
  (<[key_of req := data]> store, verdict_on options now data).
Proof.
  unfold rateLimiter, verdict_on, current, key_of. cbv zeta.
  match goal with |- context [if ?b then _ else _] => destruct b end; reflexivity.
Qed.

(** One request against an open window: the counter goes up by one and
    the window is kept. *)
Lemma rateLimiter_open options req now store e :
  store !! key_of req = Some e -> (resetTime e <? now) = false ->
  rateLimiter options req now store =
  (<[key_of req := mkEntry (count e + 1) (resetTime e)]> store,
   verdict_on options now (mkEntry (count e + 1) (resetTime e))).
Proof.
  intros He Hlive. rewrite rateLimiter_split, He. unfold current. rewrite Hlive.
  reflexivity.
Qed.

(** One request with no open window: a window is opened at the request. *)
Lemma rateLimiter_fresh options req now store :
  no_window store (key_of req) now ->
  rateLimiter options req now store =
  (<[key_of req := mkEntry 1 (now + windowMs options)]> store,
   verdict_on options now (mkEntry 1 (now + windowMs options))).
Proof.
  unfold no_window. intros Hno. rewrite rateLimiter_split. unfold current.
  destruct (store !! _) as [e|] eqn:He; [|reflexivity].
  apply Z.ltb_lt in Hno. rewrite Hno. reflexivity.
Qed.

(** Sweeping expired entries never changes a later verdict. *)
Lemma sweep_transparent options req now swept_at store :
  swept_at <= now ->
  snd (rateLimiter options req now (sweep swept_at store))
  = snd (rateLimiter options req now store).
Proof.
  intros Hle. rewrite !rateLimiter_split. cbv zeta. cbn [snd].
  replace (current options now (sweep swept_at store !! key_of req))
    with (current options now (store !! key_of req)); [reflexivity|].
  unfold sweep. rewrite map_lookup_filter.
  destruct (store !! _) as [e|] eqn:He; [|reflexivity]. simpl.
  case_guard as Hg; simpl in *; [reflexivity|].
  assert (resetTime e < now) as Hlt by lia.
  apply Z.ltb_lt in Hlt. rewrite Hlt. reflexivity.
Qed.

(** C5.  With a window of 1000 ms and 3 requests per window, of four
    requests of one client within a window the first three are admitted
    and the fourth is rejected, its retry hint being the remaining window
    time in seconds rounded up (1, or 0 when it arrives on the very last
    millisecond); the rejected request is counted; and a fifth request
    after the reset time is admitted in a new window. *)
Theorem C5_rate_limit_window :
  forall (store : gmap string entry) (r1 r2 r3 r4 r5 : Request) (t1 t2 t3 t4 t5 : Z),
    key_of r2 = key_of r1 -> key_of r3 = key_of r1 ->
    key_of r4 = key_of r1 -> key_of r5 = key_of r1 ->
    no_window store (key_of r1) t1 ->
    t1 <= t2 <= t3 -> t3 <= t4 <= t1 + 1000 -> t1 + 1000 < t5 ->
    exists store4 v1 v2 v3 retryAfter,
      serve demo [(r1, t1); (r2, t2); (r3, t3); (r4, t4)] store
        = (store4, [v1; v2; v3; TooManyRequests retryAfter]) /\
      admitted v1 = true /\ admitted v2 = true /\ admitted v3 = true /\
      retryAfter = ceil_div (t1 + 1000 - t4) 1000 /\
      0 <= retryAfter <= 1 /\
      (t4 < t1 + 1000 -> retryAfter = 1) /\
      store4 !! key_of r1 = Some (mkEntry 4 (t1 + 1000)) /\
      exists store5 v5,
        rateLimiter demo r5 t5 store4 = (store5, v5) /\
        admitted v5 = true /\
        store5 !! key_of r1 = Some (mkEntry 1 (t5 + 1000)).
Proof.
  intros store r1 r2 r3 r4 r5 t1 t2 t3 t4 t5 K2 K3 K4 K5 Hno H12 H34 H5.
  assert (Hlive : forall t, t <= t1 + 1000 -> (t1 + 1000 <? t) = false)
    by (intros; apply Z.ltb_ge; lia).
  unfold serve.
  rewrite (rateLimiter_fresh demo r1 t1 store Hno).
  rewrite (rateLimiter_open demo r2 t2 _ (mkEntry 1 (t1 + 1000)))
    by (first [rewrite K2; apply lookup_insert_eq | apply Hlive; simpl; lia]).
  rewrite !K2, insert_insert_eq.
  rewrite (rateLimiter_open demo r3 t3 _ (mkEntry 2 (t1 + 1000)))
    by (first [rewrite K3; apply lookup_insert_eq | apply Hlive; simpl; lia]).
  rewrite !K3, insert_insert_eq.
  rewrite (rateLimiter_open demo r4 t4 _ (mkEntry 3 (t1 + 1000)))
    by (first [rewrite K4; apply lookup_insert_eq | apply Hlive; simpl; lia]).
  rewrite !K4, insert_insert_eq. simpl.
  do 5 eexists. split; [reflexivity|].
  repeat (split; [reflexivity|]).
  assert (Hceil : 0 <= ceil_div (t1 + 1000 - t4) 1000 <= 1 /\
                  (t4 < t1 + 1000 -> ceil_div (t1 + 1000 - t4) 1000 = 1)).
  { unfold ceil_div.
    pose proof (Z.div_mod (- (t1 + 1000 - t4)) 1000 ltac:(lia)).
    pose proof (Z.mod_pos_bound (- (t1 + 1000 - t4)) 1000 ltac:(lia)). lia. }
  split; [apply Hceil|]. split; [apply Hceil|].
  split; [apply lookup_insert_eq|].
  rewrite (rateLimiter_fresh demo r5 t5).
  - do 2 eexists. split; [reflexivity|]. split; [reflexivity|].
    rewrite K5. apply lookup_insert_eq.
  - unfold no_window. rewrite K5, lookup_insert_eq. simpl. lia.
Qed.

Lemma C5_rate_limit_window_witness :
  exists store4 v1 v2 v3,
    serve demo [(visitor, 0); (visitor, 10); (visitor, 20); (visitor, 30)] ∅
      = (store4, [v1; v2; v3; TooManyRequests 1]) /\
    admitted (snd (rateLimiter demo visitor 1001 store4)) = true.
Proof.
  destruct (C5_rate_limit_window ∅ visitor visitor visitor visitor visitor 0 10 20 30 1001)
    as (store4 & v1 & v2 & v3 & ra & Hrun & _ & _ & _ & _ & _ & Hra & _ & store5 & v5 & H5 & Hv5 & _);
    try reflexivity; try lia.
  exists store4, v1, v2, v3. split.
  - rewrite Hrun, Hra by lia. reflexivity.
  - rewrite H5. exact Hv5.
Defined.

End RateLimitFacts.

(** ** The services *)

Module ServicesFacts.
Import JsNum JsString World Services.
Local Open Scope js_scope.

Lemma updateCall_eq callId updates w :
  updateCall callId updates w
  = (inr tt, db_effect (alter_call (apply_updates updates) callId) w).
Proof.
  unfold updateCall, try_catch, bind, db_request, db_effect, when, modify.
  destruct (db_up (env w) (step w)); reflexivity.
Qed.

Lemma markWebhookProcessed_eq eventId errorMessage w :
  markWebhookProcessed eventId errorMessage w
  = (inr tt, db_effect (alter_event (set_processed errorMessage) eventId) w).
Proof.
  unfold markWebhookProcessed, try_catch, bind, db_request, db_effect, when, modify.
  destruct (db_up (env w) (step w)); reflexivity.
Qed.

Lemma markLeadNotified_eq leadId w :
  markLeadNotified leadId w
  = (inr tt, db_effect (alter_lead (set_notified (clock (env w))) leadId) w).
Proof.
  unfold markLeadNotified, try_catch, bind, gets, db_request, db_effect, when, modify.
  destruct (db_up (env w) (step w)); reflexivity.
Qed.

Lemma updateLeadPayment_eq leadId paymentLink s w :
  updateLeadPayment leadId paymentLink s w
  = (inr tt, db_effect (alter_lead (set_payment paymentLink s) leadId) w).
Proof.
  unfold updateLeadPayment, try_catch, bind, db_request, db_effect, when, modify.
  destruct (db_up (env w) (step w)); reflexivity.
Qed.

Lemma saveWebhookEvent_eq event w :
  saveWebhookEvent event w
  = match db_up (env w) (step w) with
    | Up => (inr (Some (next_event_id (db w))),
             with_db (insert_event (next_event_id (db w)) event) (tick w))
    | Refused | Down => (inr None, tick w)
    end.
Proof.
  unfold saveWebhookEvent, try_catch, bind, gets, db_request, modify.
  destruct (db_up (env w) (step w)); reflexivity.
Qed.

Lemma saveLead_eq lead w :
  saveLead lead w
  = match db_up (env w) (step w) with
    | Up => (inr (Some (next_lead_id (db w), lead)),
             with_db (insert_lead (next_lead_id (db w)) lead) (tick w))
    | Refused | Down => (inr None, tick w)
    end.
Proof.
  unfold saveLead, try_catch, bind, gets, db_request, modify.
  destruct (db_up (env w) (step w)); reflexivity.
Qed.

Lemma notifyNewLead_eq lead_id lead t w :
  notifyNewLead lead_id lead t w
  = (inr (telegram_sent w),
     telegram_effect (LeadAlert lead_id lead t) (record_call (NotifyNewLead lead_id) w)).
Proof.
  unfold notifyNewLead, try_catch, bind, gets, modify, sendMessage, telegram_effect,
    telegram_sent, record_call. simpl.
  destruct (telegram_enabled (env w)); [|reflexivity]. simpl.
  destruct (telegram_up (env w) (step w)); reflexivity.
Qed.

Lemma notifyPaymentLink_eq lead_id link w :
  notifyPaymentLink lead_id link w
  = (inr (telegram_sent w),
     telegram_effect (PaymentLinkNotice lead_id link) (record_call (NotifyPaymentLink lead_id) w)).
Proof.
  unfold notifyPaymentLink, try_catch, bind, gets, modify, sendMessage, telegram_effect,
    telegram_sent, record_call. simpl.
  destruct (telegram_enabled (env w)); [|reflexivity]. simpl.
  destruct (telegram_up (env w) (step w)); reflexivity.
Qed.

Lemma notifyError_eq context error w :
  notifyError context error w
  = (inr tt, telegram_effect (ErrorAlert context error) (record_call (NotifyError context) w)).
Proof.
  unfold notifyError, try_catch, bind, gets, modify, sendMessage, telegram_effect,
    record_call. simpl.
  destruct (telegram_enabled (env w)); [|reflexivity]. simpl.
  destruct (telegram_up (env w) (step w)); reflexivity.
Qed.

Lemma generateLeadPaymentLink_eq leadName leadEmail leadPhone w :
  generateLeadPaymentLink leadName leadEmail leadPhone starter w
  = (inr (gateway_link w),
     gateway_effect
       (mkPaymentLinkParams 29 "USD" leadName leadEmail leadPhone
                            "Starter Plan - 100 calls/month")
       (record_call (GenerateLeadPaymentLink leadName leadEmail) w)).
Proof.
  unfold generateLeadPaymentLink, generatePaymentLink, try_catch, bind, gets, modify,
    post_payment_link, gateway_effect, gateway_link, record_call. simpl.
  destruct (flutterwave_enabled (env w)); [|reflexivity]. simpl.
  destruct (gateway_reply (env w) (step w)) as [link| |]; try reflexivity.
  unfold truthy_str. destruct (negb (String.eqb link EmptyString)); reflexivity.
Qed.

End ServicesFacts.

(** ** The webhook routes *)

Module WebhookFacts.
Import JsNum JsString Regex Leads World Services ServicesFacts Webhook.
Local Open Scope js_scope.

(** Projections of the world transformers. *)

Lemma env_db_effect f w : env (db_effect f w) = env w.
Proof. unfold db_effect. destruct (db_up _ _); reflexivity. Qed.

Lemma journal_db_effect f w : journal (db_effect f w) = journal w.
Proof. unfold db_effect. destruct (db_up _ _); reflexivity. Qed.

Lemma outbox_db_effect f w : outbox (db_effect f w) = outbox w.
Proof. unfold db_effect. destruct (db_up _ _); reflexivity. Qed.

Lemma payments_db_effect f w : payment_requests (db_effect f w) = payment_requests w.
Proof. unfold db_effect. destruct (db_up _ _); reflexivity. Qed.

Lemma env_telegram_effect m w : env (telegram_effect m w) = env w.
Proof.
  unfold telegram_effect. destruct (telegram_enabled _); [|reflexivity].
  destruct (telegram_up _ _); reflexivity.
Qed.

Lemma db_telegram_effect m w : db (telegram_effect m w) = db w.
Proof.
  unfold telegram_effect. destruct (telegram_enabled _); [|reflexivity].
  destruct (telegram_up _ _); reflexivity.
Qed.

Lemma journal_telegram_effect m w : journal (telegram_effect m w) = journal w.
Proof.
  unfold telegram_effect. destruct (telegram_enabled _); [|reflexivity].
  destruct (telegram_up _ _); reflexivity.
Qed.

Lemma payments_telegram_effect m w :
  payment_requests (telegram_effect m w) = payment_requests w.
Proof.
  unfold telegram_effect. destruct (telegram_enabled _); [|reflexivity].
  destruct (telegram_up _ _); reflexivity.
Qed.

Lemma env_gateway_effect p w : env (gateway_effect p w) = env w.
Proof.
  unfold gateway_effect. destruct (flutterwave_enabled _); [|reflexivity].
  destruct (gateway_reply _ _); reflexivity.
Qed.

Lemma db_gateway_effect p w : db (gateway_effect p w) = db w.
Proof.
  unfold gateway_effect. destruct (flutterwave_enabled _); [|reflexivity].
  destruct (gateway_reply _ _); reflexivity.
Qed.

Lemma journal_gateway_effect p w : journal (gateway_effect p w) = journal w.
Proof.
  unfold gateway_effect. destruct (flutterwave_enabled _); [|reflexivity].
  destruct (gateway_reply _ _); reflexivity.
Qed.

Lemma outbox_gateway_effect p w : outbox (gateway_effect p w) = outbox w.
Proof.
  unfold gateway_effect. destruct (flutterwave_enabled _); [|reflexivity].
  destruct (gateway_reply _ _); reflexivity.
Qed.

(** A write to the leads leaves the other tables alone. *)
Lemma db_effect_lead_frame f id w :
  calls (db (db_effect (alter_lead f id) w)) = calls (db w) /\
  webhook_events (db (db_effect (alter_lead f id) w)) = webhook_events (db w) /\
  next_event_id (db (db_effect (alter_lead f id) w)) = next_event_id (db w) /\
  next_lead_id (db (db_effect (alter_lead f id) w)) = next_lead_id (db w).
Proof. unfold db_effect. destruct (db_up _ _); auto. Qed.

(** The pipeline never throws, and is the transformer [lead_pipeline]. *)
Lemma extractAndSaveLead_eq userId callId transcript phoneNumber w :
  extractAndSaveLead userId callId transcript phoneNumber w
  = (inr tt, lead_pipeline userId callId transcript phoneNumber w).
Proof.
  unfold extractAndSaveLead, lead_pipeline, try_catch, bind.
  rewrite saveLead_eq. fold (lead_of userId callId transcript phoneNumber).
  destruct (db_up (env w) (step w)); try reflexivity.
  rewrite notifyNewLead_eq, markLeadNotified_eq.
  unfold after_save. fold (wants_payment_link transcript).
  destruct (wants_payment_link transcript); [|reflexivity].
  rewrite generateLeadPaymentLink_eq. fold (payment_params transcript phoneNumber).
  destruct (gateway_link _) as [link|] eqn:Hlink.
  - assert (Ht : truthy_str (Some link) = true).
    { unfold gateway_link in Hlink.
      destruct (flutterwave_enabled _); [|discriminate].
      destruct (gateway_reply _ _) as [l| |]; try discriminate.
      destruct (truthy_str (Some l)) eqn:E; [congruence|discriminate]. }
    rewrite Ht. rewrite updateLeadPayment_eq, notifyPaymentLink_eq. reflexivity.
  - reflexivity.
Qed.


Lemma handleCallEnded_eq event w :
  handleCallEnded event w
  = (inr tt,
     match call event with
     | Some c => if truthy_str (metadata_userId c) then call_ended_effect c w else w
     | None => w
     end).
Proof.
  unfold handleCallEnded, call_ended_effect.
  destruct (call event) as [c|]; [|reflexivity].
  destruct (truthy_str (metadata_userId c)); [|reflexivity]. cbn [negb].
  unfold bind. cbv beta. fold (ended_updates c). rewrite updateCall_eq.
  destruct (truthy_str (call_transcript c)); [|reflexivity].
  apply extractAndSaveLead_eq.
Qed.

Lemma handleCallStarted_eq event w :
  handleCallStarted event w
  = (inr tt,
     match call event with
     | Some c =>
         if truthy_str (metadata_userId c)
         then db_effect (alter_call (apply_updates (mkCallUpdates None (Some in_progress) None None))
                                    (call_id c)) w
         else w
     | None => w
     end).
Proof.
  unfold handleCallStarted.
  destruct (call event) as [c|]; [|reflexivity].
  destruct (truthy_str (metadata_userId c)); [|reflexivity]. cbn [negb].
  apply updateCall_eq.
Qed.


Lemma handleCallFailed_eq event w :
  handleCallFailed event w
  = (inr tt,
     match call event with
     | Some c => if truthy_str (metadata_userId c) then call_failed_effect c w else w
     | None => w
     end).
Proof.
  unfold handleCallFailed, call_failed_effect.
  destruct (call event) as [c|]; [|reflexivity].
  destruct (truthy_str (metadata_userId c)); [|reflexivity]. cbn [negb].
  unfold bind. cbv beta. rewrite updateCall_eq. apply notifyError_eq.
Qed.

(** The processing of an event never throws. *)
Lemma dispatch_total event w : exists w', dispatch event w = (inr tt, w').
Proof.
  unfold dispatch.
  repeat match goal with |- context [String.eqb ?a ?b] => destruct (String.eqb a b) end.
  - rewrite handleCallEnded_eq. eauto.
  - rewrite handleCallStarted_eq. eauto.
  - rewrite handleCallFailed_eq. eauto.
  - eauto.
  - eauto.
Qed.




Lemma saveWebhookEvent_total event w :
  saveWebhookEvent (incoming event) w = (inr (saved_id event w), saved_world event w).
Proof.
  unfold saved_world, saved_id. rewrite saveWebhookEvent_eq.
  destruct (db_up (env w) (step w)); reflexivity.
Qed.




Lemma webhook_route_returns process event w w2 :
  process event (saved_world event w) = (inr tt, w2) ->
  webhook_route process event w = (inr ok_response, marked (saved_id event w) None w2).
Proof.
  intros Hp. unfold webhook_route, try_catch, bind. cbv beta.
  fold (incoming event). rewrite saveWebhookEvent_total. cbv beta iota. rewrite Hp.
  destruct (saved_id event w) as [id|]; cbn [marked]; [|reflexivity].
  rewrite markWebhookProcessed_eq. reflexivity.
Qed.

Lemma webhook_route_throws process event w msg w2 :
  process event (saved_world event w) = (inl msg, w2) ->
  webhook_route process event w
  = (inr (error_response msg), marked (saved_id event w) (Some msg) w2).
Proof.
  intros Hp. unfold webhook_route, try_catch, bind. cbv beta.
  fold (incoming event). rewrite saveWebhookEvent_total. cbv beta iota. rewrite Hp.
  destruct (saved_id event w) as [id|]; cbn [marked]; [|reflexivity].
  rewrite markWebhookProcessed_eq. reflexivity.
Qed.

Lemma webhook_route_200 process event w :
  exists response w',
    webhook_route process event w = (inr response, w') /\
    status_code response = 200 /\ success response = Some true.
Proof.
  destruct (process event (saved_world event w)) as [[msg|[]] w2] eqn:Hp.
  - rewrite (webhook_route_throws _ _ _ _ _ Hp). eauto.
  - rewrite (webhook_route_returns _ _ _ _ Hp). eauto.
Qed.

Ltac through :=
  repeat (rewrite ?env_telegram_effect, ?env_db_effect, ?env_gateway_effect,
                  ?db_telegram_effect, ?db_gateway_effect,
                  ?journal_telegram_effect, ?journal_db_effect, ?journal_gateway_effect,
                  ?outbox_db_effect, ?outbox_gateway_effect,
                  ?payments_db_effect, ?payments_telegram_effect;
          cbn [db env journal outbox payment_requests step
               calls leads webhook_events next_lead_id next_event_id
               record_call tick with_db deliver receive_payment_request
               insert_lead insert_event alter_lead alter_event alter_call]).

(** The steps after the save touch neither the calls nor the event rows. *)
Lemma after_save_frame lead_id lead transcript phoneNumber w :
  let w' := after_save lead_id lead transcript phoneNumber w in
  env w' = env w /\ calls (db w') = calls (db w) /\
  webhook_events (db w') = webhook_events (db w) /\
  next_event_id (db w') = next_event_id (db w).
Proof.
  unfold after_save.
  set (w2 := telegram_effect _ _).
  set (w3 := db_effect _ w2).
  assert (H3 : env w3 = env w /\ calls (db w3) = calls (db w) /\
               webhook_events (db w3) = webhook_events (db w) /\
               next_event_id (db w3) = next_event_id (db w)).
  { destruct (db_effect_lead_frame (set_notified (clock (env w2))) lead_id w2)
      as (Hc & He & Hn & _).
    fold w3 in Hc, He, Hn. rewrite Hc, He, Hn. subst w3 w2. through. auto. }
  destruct (wants_payment_link transcript); [|exact H3].
  set (w4 := record_call _ w3). set (w5 := gateway_effect _ w4).
  assert (H5 : env w5 = env w /\ calls (db w5) = calls (db w) /\
               webhook_events (db w5) = webhook_events (db w) /\
               next_event_id (db w5) = next_event_id (db w)).
  { subst w5 w4. through. exact H3. }
  destruct (gateway_link w4) as [link|]; [|exact H5].
  through.
  destruct (db_effect_lead_frame (set_payment link pending) lead_id w5)
    as (Hc & He & Hn & _).
  rewrite Hc, He, Hn. exact H5.
Qed.

Lemma lead_pipeline_frame userId callId transcript phoneNumber w :
  let w' := lead_pipeline userId callId transcript phoneNumber w in
  env w' = env w /\ calls (db w') = calls (db w) /\
  webhook_events (db w') = webhook_events (db w) /\
  next_event_id (db w') = next_event_id (db w).
Proof.
  unfold lead_pipeline. destruct (db_up (env w) (step w)); cbn zeta; auto.
  destruct (after_save_frame (next_lead_id (db w))
              (lead_of userId callId transcript phoneNumber) transcript phoneNumber
              (with_db (insert_lead (next_lead_id (db w))
                          (lead_of userId callId transcript phoneNumber)) (tick w)))
    as (He & Hc & Hw & Hn).
  rewrite He, Hc, Hw, Hn. auto.
Qed.

(** The route answers every event with the plain acknowledgement. *)
Lemma vapi_webhook_ok event w : exists w', vapi_webhook event w = (inr ok_response, w').
Proof.
  destruct (dispatch_total event (saved_world event w)) as [w2 Hd].
  eexists. apply (webhook_route_returns dispatch event w w2 Hd).
Qed.

(** C6.  Every webhook event is answered with status 200, whatever its
    processing does: when the processing throws, the answer still carries
    [success = true], together with the error message, and the message is
    written to the stored event row (when the row was stored and the
    database accepts the update); the route of the program itself always
    answers with the plain acknowledgement. *)
Theorem C6_webhook_always_200 :
  (forall process event w,
     exists response w',
       webhook_route process event w = (inr response, w') /\
       status_code response = 200 /\ success response = Some true) /\
  (forall event w, exists w', vapi_webhook event w = (inr ok_response, w')) /\
  (forall process event w saved w1 msg w2,
     saveWebhookEvent (incoming event) w = (inr saved, w1) ->
     process event w1 = (inl msg, w2) ->
     exists w',
       webhook_route process event w = (inr (error_response msg), w') /\
       (forall id row,
          saved = Some id -> db_up (env w2) (step w2) = Up -> msg <> EmptyString ->
          webhook_events (db w2) !! id = Some row ->
          webhook_events (db w') !! id
          = Some (mkWebhookEvent (event_type row) (payload row) true (Some msg)))).
Proof.
  split; [exact webhook_route_200|].
  split; [exact vapi_webhook_ok|].
  intros process event w saved w1 msg w2 Hsave Hp.
  rewrite saveWebhookEvent_total in Hsave. injection Hsave as <- <-.
  eexists. split; [apply (webhook_route_throws _ _ _ _ _ Hp)|].
  intros id row -> Hup Hmsg Hrow. unfold marked, db_effect. rewrite Hup.
  cbn [db with_db tick alter_event webhook_events].
  rewrite lookup_alter_eq, Hrow. unfold set_processed, truthy_str. simpl.
  destruct (String.eqb_spec msg EmptyString); [contradiction|reflexivity].
Qed.

Lemma C6_webhook_always_200_witness :
  exists w',
    webhook_route (fun _ => throw "boom") ended_event ringing
      = (inr (error_response "boom"), w') /\
    webhook_events (db w') !! 0%nat
      = Some (mkWebhookEvent "call.ended" ended_event true (Some "boom")).
Proof.
  destruct C6_webhook_always_200 as (_ & _ & H).
  edestruct (H (fun _ => throw "boom") ended_event ringing) as (w' & Hroute & Hrow).
  - rewrite saveWebhookEvent_total. reflexivity.
  - reflexivity.
  - exists w'. split; [exact Hroute|].
    apply (Hrow 0%nat (incoming ended_event)).
    + reflexivity.
    + reflexivity.
    + discriminate.
    + unfold saved_world. rewrite saveWebhookEvent_eq. apply lookup_insert_eq.
Defined.

(** Without a user the three call handlers return at once. *)
Lemma dispatch_no_user event c w :
  type event = "call.started" \/ type event = "call.ended" \/ type event = "call.failed" ->
  call event = Some c -> truthy_str (metadata_userId c) = false ->
  dispatch event w = (inr tt, w).
Proof.
  intros Ht Hc Hu. unfold dispatch.
  destruct Ht as [ -> | [ -> | -> ] ]; cbn [String.eqb Ascii.eqb Bool.eqb];
    rewrite ?handleCallEnded_eq, ?handleCallStarted_eq, ?handleCallFailed_eq, Hc, Hu;
    reflexivity.
Qed.

(** C10.  A call.started, call.ended or call.failed event whose call has no
    user in its metadata changes nothing: its handler returns the world as
    it found it, so that the route leaves the call records, the leads, the
    notifications and the payment requests untouched; the event is still
    answered with status 200 and, the database permitting, stored and
    marked as processed. *)
Theorem C10_no_user_no_effect :
  forall event c w,
    type event = "call.started" \/ type event = "call.ended" \/ type event = "call.failed" ->
    call event = Some c ->
    metadata_userId c = None ->
    (forall w0, dispatch event w0 = (inr tt, w0)) /\
    exists w',
      vapi_webhook event w = (inr ok_response, w') /\
      status_code ok_response = 200 /\
      calls (db w') = calls (db w) /\ leads (db w') = leads (db w) /\
      outbox w' = outbox w /\ payment_requests w' = payment_requests w /\
      journal w' = journal w /\
      (db_up (env w) (step w) = Up -> db_up (env w) (S (step w)) = Up ->
       webhook_events (db w')
       = <[next_event_id (db w) := mkWebhookEvent (type event) event true None]>
           (webhook_events (db w))).
Proof.
  intros event c w Ht Hc Hu.
  assert (Hd : forall w0, dispatch event w0 = (inr tt, w0)).
  { intros w0. apply (dispatch_no_user event c w0 Ht Hc). rewrite Hu. reflexivity. }
  split; [exact Hd|].
  eexists. split; [apply (webhook_route_returns dispatch event w _ (Hd _))|].
  unfold saved_id, saved_world. rewrite saveWebhookEvent_eq.
  destruct (db_up (env w) (step w)) eqn:H1; cbn [snd marked];
    try (repeat split; try reflexivity; discriminate).
  unfold db_effect. cbn [env step tick with_db].
  destruct (db_up (env w) (S (step w))) eqn:H2;
    repeat split; try reflexivity; try discriminate.
  intros _ _. cbn [db with_db tick alter_event insert_event webhook_events].
  rewrite alter_insert_eq. reflexivity.
Qed.

Lemma C10_no_user_no_effect_witness :
  exists w',
    vapi_webhook anonymous_event ringing = (inr ok_response, w') /\
    calls (db w') = calls (db ringing) /\ leads (db w') = ∅ /\
    webhook_events (db w') !! 0%nat
      = Some (mkWebhookEvent "call.ended" anonymous_event true None).
Proof.
  destruct (C10_no_user_no_effect anonymous_event
              (mkCall "call-1" None None (Some "yes, interested") None None) ringing)
    as (_ & w' & Hr & _ & Hc & Hl & _ & _ & _ & He).
  - right. left. reflexivity.
  - reflexivity.
  - reflexivity.
  - exists w'. split; [exact Hr|]. split; [exact Hc|]. split; [exact Hl|].
    rewrite He by reflexivity. apply lookup_insert_eq.
Defined.

Lemma overwrite_idem {A} (new old : option A) :
  overwrite new (overwrite new old) = overwrite new old.
Proof. destruct new; reflexivity. Qed.

Lemma apply_updates_idem u row :
  apply_updates u (apply_updates u row) = apply_updates u row.
Proof.
  unfold apply_updates. cbn [user_id caller_phone transcript status duration audio_url].
  rewrite !overwrite_idem. reflexivity.
Qed.

(** One delivery of a call.ended event for a known call, with the database
    up: the call row is patched, and the event has its processed row. *)
Lemma call_ended_once event c row w :
  type event = "call.ended" -> call event = Some c ->
  truthy_str (metadata_userId c) = true ->
  calls (db w) !! call_id c = Some row ->
  (forall n, db_up (env w) n = Up) ->
  exists w1,
    vapi_webhook event w = (inr ok_response, w1) /\
    env w1 = env w /\
    calls (db w1) !! call_id c = Some (apply_updates (ended_updates c) row) /\
    next_event_id (db w1) = S (next_event_id (db w)) /\
    webhook_events (db w1)
    = <[next_event_id (db w) := mkWebhookEvent "call.ended" event true None]>
        (webhook_events (db w)).
Proof.
  intros Ht Hc Hu Hrow Hup.
  assert (Hd : forall w0, dispatch event w0 = (inr tt, call_ended_effect c w0)).
  { intros w0. unfold dispatch. rewrite Ht. cbn [String.eqb Ascii.eqb Bool.eqb].
    rewrite handleCallEnded_eq, Hc, Hu. reflexivity. }
  eexists. split; [apply (webhook_route_returns dispatch event w _ (Hd _))|].
  unfold saved_id, saved_world. rewrite saveWebhookEvent_eq, (Hup (step w)).
  cbn [snd marked].
  set (w0 := with_db _ (tick w)).
  assert (E0 : env w0 = env w) by reflexivity.
  (* the patch of the call row *)
  set (wc := db_effect (alter_call (apply_updates (ended_updates c)) (call_id c)) w0).
  assert (Hwc : env wc = env w /\
                calls (db wc) !! call_id c = Some (apply_updates (ended_updates c) row) /\
                webhook_events (db wc) = webhook_events (db w0) /\
                next_event_id (db wc) = next_event_id (db w0)).
  { subst wc. unfold db_effect. rewrite E0, Hup.
    cbn [env db with_db tick alter_call calls webhook_events next_event_id].
    rewrite lookup_alter_eq. subst w0. cbn [db with_db tick insert_event calls].
    rewrite Hrow. auto. }
  destruct Hwc as (Ec & Hcall & Hev & Hnext).
  (* the lead pipeline *)
  assert (Hwe : env (call_ended_effect c w0) = env w /\
                calls (db (call_ended_effect c w0)) !! call_id c
                  = Some (apply_updates (ended_updates c) row) /\
                webhook_events (db (call_ended_effect c w0)) = webhook_events (db w0) /\
                next_event_id (db (call_ended_effect c w0)) = next_event_id (db w0)).
  { unfold call_ended_effect. fold wc.
    destruct (truthy_str (call_transcript c)); [|auto].
    destruct (lead_pipeline_frame (string_or_default (metadata_userId c)) (call_id c)
                (string_or_default (call_transcript c)) (customer_number c) wc)
      as (He & Hc' & Hw' & Hn').
    rewrite He, Hc', Hw', Hn'. auto. }
  destruct Hwe as (Ee & Hcall' & Hev' & Hnext').
  unfold db_effect. rewrite Ee, Hup.
  cbn [env db with_db tick alter_event calls webhook_events next_event_id].
  rewrite Hev', Hnext'. subst w0.
  cbn [db with_db tick insert_event webhook_events next_event_id].
  repeat split; try assumption.
  rewrite alter_insert_eq. unfold set_processed, incoming.
  cbn [event_type payload truthy_str]. rewrite Ht. reflexivity.
Qed.


Lemma ringing_fresh : fresh_ids ringing.
Proof. split; intros id _; apply lookup_empty. Qed.


(** *** Extracted names and addresses are never empty *)

Lemma runs_head p s mr :
  In mr (runs p s) -> exists c m, fst mr = String c m /\ p c = true.
Proof.
  revert mr. induction s as [|c s IH]; intros mr; simpl; [tauto|].
  destruct (p c) eqn:Hp; [|intros []].
  rewrite in_app_iff, in_map_iff. intros [(mr' & <- & _)|[<-|[]]]; simpl; eauto.
Qed.

Lemma match_in_exec r s m : match_ r s = Some m -> exists s', In m (exec r s').
Proof.
  induction s as [|c s IH]; simpl.
  - destruct (exec r EmptyString) as [|m' l] eqn:E; [discriminate|].
    intros [= <-]. exists EmptyString. rewrite E. left. reflexivity.
  - destruct (exec r (String c s)) as [|m' l] eqn:E; [exact IH|].
    intros [= <-]. exists (String c s). rewrite E. left. reflexivity.
Qed.

(** A group that begins with a class under [+] captures a text that
    begins with a member of the class. *)
Lemma cap_plus_head p b s m :
  In m (exec (Cap (Cat (Plus p) b)) s) ->
  exists c g, group1 m = Some (String c g) /\ p c = true.
Proof.
  cbn [exec]. rewrite in_map_iff. intros (ra & <- & Hra). cbn [group1].
  apply in_flat_map in Hra as (r1 & H1 & H2).
  apply in_map_iff in H2 as (r2 & <- & _). cbn [matched].
  apply in_map_iff in H1 as (mr & <- & Hmr). cbn [matched].
  destruct (runs_head p s mr Hmr) as (c & g & -> & Hc). eauto.
Qed.

Lemma cat_group a b s m :
  In m (exec (Cat a b) s) ->
  (forall s' rb, In rb (exec b s') -> exists g, group1 rb = Some g) ->
  exists s' rb, In rb (exec b s') /\ group1 m = group1 rb.
Proof.
  cbn [exec]. intros Hm Hb.
  apply in_flat_map in Hm as (ra & _ & H2).
  apply in_map_iff in H2 as (rb & <- & Hrb). cbn [group1].
  destruct (Hb _ _ Hrb) as [g Hg]. rewrite Hg. eauto.
Qed.

Lemma letter_not_space c : letter_i c = true -> is_space c = false.
Proof.
  destruct c as [[] [] [] [] [] [] [] []]; vm_compute; congruence.
Qed.

Lemma trim_head c g : is_space c = false -> trim (String c g) <> EmptyString.
Proof.
  intros Hc. unfold trim. cbn [trimStart]. rewrite Hc. cbn [trimEnd].
  destruct (trimEnd g); [rewrite Hc|]; discriminate.
Qed.

Lemma extractName_nonempty t n : extractName t = Some n -> n <> EmptyString.
Proof.
  unfold extractName.
  assert (Hp : Forall (fun p => exists a, p = Cat a name_group) name_patterns).
  { repeat constructor; eexists; reflexivity. }
  induction Hp as [|p ps [a ->] _ IH]; simpl; [discriminate|].
  destruct (match_ (Cat a name_group) t) as [m|] eqn:Hm; [|exact IH].
  destruct (group1 m) as [g|] eqn:Hg; [|exact IH].
  destruct (String.eqb g EmptyString); [exact IH|].
  intros [= <-].
  apply match_in_exec in Hm as [s' Hm].
  apply cat_group in Hm as (s'' & rb & Hrb & Heq).
  - apply cap_plus_head in Hrb as (c & g' & Hc & Hl).
    rewrite Hg, Hc in Heq. injection Heq as ->.
    apply trim_head, letter_not_space, Hl.
  - intros s0 rb Hrb. apply cap_plus_head in Hrb as (c & g' & Hc & _). eauto.
Qed.

Lemma extractEmail_nonempty t e : extractEmail t = Some e -> e <> EmptyString.
Proof.
  unfold extractEmail. destruct (match_ emailPattern t) as [m|] eqn:Hm; [|discriminate].
  intros Hg. apply match_in_exec in Hm as [s' Hm].
  apply cap_plus_head in Hm as (c & g & Hc & _).
  rewrite Hg in Hc. injection Hc as ->. discriminate.
Qed.

Lemma truthy_extracted_name t : truthy_str (extractName t) = true <-> extractName t <> None.
Proof.
  destruct (extractName t) as [n|] eqn:E; simpl.
  - split; [discriminate|]. intros _.
    destruct (String.eqb_spec n EmptyString) as [->|]; [|reflexivity].
    exfalso. exact (extractName_nonempty t _ E eq_refl).
  - split; [discriminate|congruence].
Qed.

Lemma truthy_extracted_email t : truthy_str (extractEmail t) = true <-> extractEmail t <> None.
Proof.
  destruct (extractEmail t) as [e|] eqn:E; simpl.
  - split; [discriminate|]. intros _.
    destruct (String.eqb_spec e EmptyString) as [->|]; [|reflexivity].
    exfalso. exact (extractEmail_nonempty t _ E eq_refl).
  - split; [discriminate|congruence].
Qed.

Lemma wants_payment_link_spec t :
  wants_payment_link t = true <->
  checkQualification t = true /\ extractName t <> None /\ extractEmail t <> None.
Proof.
  unfold wants_payment_link.
  rewrite !andb_true_iff, truthy_extracted_name, truthy_extracted_email. tauto.
Qed.

Ltac elem := first [apply list_elem_of_here | apply list_elem_of_further; elem].

Lemma same_lead_notified now l : same_lead l (set_notified now l).
Proof. repeat split. Qed.

Lemma same_lead_payment link s l : same_lead l (set_payment link s l).
Proof. repeat split. Qed.

Lemma same_lead_trans a b c : same_lead a b -> same_lead b c -> same_lead a c.
Proof. unfold same_lead. intuition congruence. Qed.

(** An update of a lead keeps the row and its identity. *)
Lemma lead_kept f id w l :
  (forall x, same_lead x (f x)) ->
  (exists stored, leads (db w) !! id = Some stored /\ same_lead l stored) ->
  exists stored, leads (db (db_effect (alter_lead f id) w)) !! id = Some stored /\
                 same_lead l stored.
Proof.
  intros Hf (stored & Hs & Hsame). unfold db_effect.
  destruct (db_up (env w) (step w)); cbn [db with_db tick alter_lead leads]; eauto.
  rewrite lookup_alter_eq, Hs. simpl. eauto using same_lead_trans.
Qed.

Lemma outbox_telegram_effect m w x :
  x ∈ outbox w -> x ∈ outbox (telegram_effect m w).
Proof.
  intros Hx. unfold telegram_effect. destruct (telegram_enabled _); [|exact Hx].
  destruct (telegram_up _ _); cbn [outbox tick deliver]; [|exact Hx].
  apply list_elem_of_further, Hx.
Qed.

(** The journal, the stored lead and the delivered alert after the steps
    that follow the save. *)
Lemma after_save_spec lead_id lead transcript phoneNumber w1 :
  leads (db w1) !! lead_id = Some lead ->
  let w' := after_save lead_id lead transcript phoneNumber w1 in
  (exists new,
     journal w' = new ++ journal w1 /\
     NotifyNewLead lead_id ∈ new /\
     ((exists n e, GenerateLeadPaymentLink n e ∈ new) <-> wants_payment_link transcript = true)) /\
  (exists stored, leads (db w') !! lead_id = Some stored /\ same_lead lead stored) /\
  (telegram_enabled (env w1) = true -> telegram_up (env w1) (step w1) = true ->
   LeadAlert lead_id lead (Some transcript) ∈ outbox w').
Proof.
  intros Hlead. unfold after_save.
  set (w2 := telegram_effect _ _).
  set (w3 := db_effect _ w2).
  assert (J3 : journal w3 = NotifyNewLead lead_id :: journal w1).
  { subst w3 w2. through. reflexivity. }
  assert (L3 : exists stored, leads (db w3) !! lead_id = Some stored /\ same_lead lead stored).
  { subst w3. apply lead_kept; [apply same_lead_notified|].
    subst w2. through. exists lead. split; [exact Hlead|repeat split]. }
  assert (O3 : telegram_enabled (env w1) = true -> telegram_up (env w1) (step w1) = true ->
               LeadAlert lead_id lead (Some transcript) ∈ outbox w3).
  { intros He Hu. subst w3. rewrite outbox_db_effect. subst w2.
    unfold telegram_effect. cbn [env step record_call]. rewrite He, Hu.
    cbn [outbox tick deliver]. apply list_elem_of_here. }
  destruct (wants_payment_link transcript) eqn:Hwants.
  - set (w4 := record_call _ w3). set (w5 := gateway_effect _ w4).
    assert (J5 : journal w5 = GenerateLeadPaymentLink
                                (string_or_default (extractName transcript))
                                (string_or_default (extractEmail transcript))
                              :: NotifyNewLead lead_id :: journal w1).
    { subst w5 w4. through. rewrite J3. reflexivity. }
    assert (L5 : exists stored, leads (db w5) !! lead_id = Some stored /\ same_lead lead stored).
    { subst w5 w4. through. exact L3. }
    assert (O5 : telegram_enabled (env w1) = true -> telegram_up (env w1) (step w1) = true ->
                 LeadAlert lead_id lead (Some transcript) ∈ outbox w5).
    { intros He Hu. subst w5 w4. through. auto. }
    destruct (gateway_link w4) as [link|].
    + split; [|split].
      * eexists [_; _; _]. through. rewrite J5. split; [reflexivity|].
        split; [elem|]. split; [reflexivity|]. intros _. do 2 eexists. elem.
      * through. apply lead_kept; [apply same_lead_payment|exact L5].
      * intros He Hu. apply outbox_telegram_effect. cbn [outbox record_call].
        rewrite outbox_db_effect. auto.
    + split; [|split; [exact L5|exact O5]].
      eexists [_; _]. rewrite J5. split; [reflexivity|].
      split; [elem|]. split; [reflexivity|]. intros _. do 2 eexists. elem.
  - split; [|split; [exact L3|exact O3]].
    eexists [_]. rewrite J3. split; [reflexivity|].
    split; [elem|]. split; [|discriminate].
    intros (n & e & H). apply list_elem_of_singleton in H. discriminate.
Qed.

(** C8.  Once the lead is saved, the notification is attempted; a payment
    link is attempted exactly when the lead is qualified and a name and an
    email were extracted; this holds whatever the notification bot, the
    gateway and the later database requests answer.  The saved lead stays
    in the table with the data it was saved with, a delivered alert stays
    delivered, the pipeline never throws, and the route answers the plain
    acknowledgement in every world. *)
Theorem C8_lead_side_effects :
  (forall userId callId transcript phoneNumber w,
     db_up (env w) (step w) = Up ->
     let lead_id := next_lead_id (db w) in
     let lead := lead_of userId callId transcript phoneNumber in
     exists w' new,
       extractAndSaveLead userId callId transcript phoneNumber w = (inr tt, w') /\
       journal w' = new ++ journal w /\
       NotifyNewLead lead_id ∈ new /\
       ((exists n e, GenerateLeadPaymentLink n e ∈ new) <->
        checkQualification transcript = true /\
        extractName transcript <> None /\ extractEmail transcript <> None) /\
       (exists stored, leads (db w') !! lead_id = Some stored /\ same_lead lead stored) /\
       (telegram_enabled (env w) = true -> telegram_up (env w) (S (step w)) = true ->
        LeadAlert lead_id lead (Some transcript) ∈ outbox w')) /\
  (forall event w, exists w', vapi_webhook event w = (inr ok_response, w')).
Proof.
  split; [|exact vapi_webhook_ok].
  intros userId callId transcript phoneNumber w Hup lead_id lead.
  rewrite extractAndSaveLead_eq. unfold lead_pipeline. rewrite Hup. fold lead_id lead.
  set (w1 := with_db (insert_lead lead_id lead) (tick w)).
  destruct (after_save_spec lead_id lead transcript phoneNumber w1)
    as ((new & Hj & Hn & Hg) & Hl & Ho).
  { subst w1. cbn [db with_db tick insert_lead leads]. apply lookup_insert_eq. }
  exists (after_save lead_id lead transcript phoneNumber w1), new.
  split; [reflexivity|]. split; [exact Hj|]. split; [exact Hn|].
  split; [rewrite Hg; apply wants_payment_link_spec|].
  split; [exact Hl|exact Ho].
Qed.


Lemma C8_lead_side_effects_witness :
  exists w' new,
    extractAndSaveLead "user-1" "call-1"
      "my name is John Smith, yes I am interested, john@example.com" None storm
      = (inr tt, w') /\
    journal w' = new /\
    NotifyNewLead 0 ∈ new /\
    (exists n e, GenerateLeadPaymentLink n e ∈ new) /\
    is_Some (leads (db w') !! 0%nat).
Proof.
  destruct C8_lead_side_effects as [H _].
  destruct (H "user-1" "call-1"
              "my name is John Smith, yes I am interested, john@example.com" None storm)
    as (w' & new & Hrun & Hj & Hn & Hg & (stored & Hs & _) & _).
  - reflexivity.
  - exists w', new. split; [exact Hrun|]. split; [rewrite Hj; apply app_nil_r|].
    split; [exact Hn|]. split.
    + apply Hg. repeat split; vm_compute; congruence.
    + exists stored. exact Hs.
Defined.

End WebhookFacts.

(** ** The chat turn *)

Module ChatFacts.
Import JsNum JsString Scorer World Services Webhook Chat.
Local Open Scope js_scope.

Section ChatTurn.

Variable getChatConversation : string -> M (option (list ChatMessage)).
Variable upsertChatConversation : ConversationData -> M (option string).
Variable provider_configured : bool.
Variable complete_chat : string -> list (Role * string) -> M (option string).
Variable getFallbackResponse : string -> string.
Variable complete_analysis : string -> M RawAnalysis.
Variable isoNow : World -> string.
Variable newConversationId : World -> string.
Variable newSessionId : World -> string.

Let turn : ChatRequest -> M ChatReply :=
  chat_turn getChatConversation upsertChatConversation provider_configured complete_chat
            getFallbackResponse complete_analysis isoNow newConversationId newSessionId.

(** The analysis never throws: a failure gives the neutral analysis. *)
Lemma analyzeSentiment_total msg w :
  exists s w', analyzeSentiment complete_analysis msg w = (inr s, w').
Proof.
  unfold analyzeSentiment, try_catch, bind, ret.
  destruct (complete_analysis msg w) as [[e|a] w']; eauto.
Qed.

(** Every chat turn is answered. *)
Lemma chat_turn_total req w : exists reply w', turn req w = (inr reply, w').
Proof.
  unfold turn, chat_turn, try_catch.
  match goal with |- context [let (_, _) := ?body w in _] =>
    destruct (body w) as [[e|r] w'] end; unfold ret; eauto.
Qed.

(** The validated score is the clamp of the number the reply's score
    stands for; it lies in [[0,1]] unless that number is [NaN]. *)
Lemma validate_score analysis :
  isNaN (score_or_default (raw_score analysis)) = false ->
  well_formed (validate analysis).
Proof.
  intros H. unfold well_formed, validate. cbn [score].
  apply JsNumFacts.clamp_in_unit, H.
Qed.

(** Without a client the analysis is the neutral one, and nothing is
    sent. *)
Lemma analyzeSentiment_no_client msg w :
  analyzeSentiment no_client msg w = (inr neutral, w).
Proof. reflexivity. Qed.

Lemma chat_turn_score req w body w' :
  turn req w = (inr (Reply body), w') ->
  exists msg history wa aiResponse wb sentiment wc,
    message req = Some msg /\
    loadHistory getChatConversation req w = (inr history, wa) /\
    getChatResponse provider_configured complete_chat getFallbackResponse
                    msg (formatHistory history) wa = (inr aiResponse, wb) /\
    analyzeSentiment complete_analysis msg wb = (inr sentiment, wc) /\
    response body = aiResponse /\
    messageCount body = (length history + 2)%nat /\
    reply_sentiment body = (score sentiment, intent sentiment, urgency sentiment) /\
    qualificationScore body = calculateQualificationScore [sentiment].
Proof.
  unfold turn, chat_turn, try_catch.
  destruct (message req) as [msg|] eqn:Hmsg; [|simpl; unfold ret; intros [=]].
  destruct (truthy_str (Some msg)); cbn [negb]; [|unfold ret; intros [=]].
  unfold bind at 1 2 3, gets. cbn [string_or_default].
  destruct (loadHistory getChatConversation req w) as [[e|history] wa] eqn:Hh;
    [unfold ret; intros [=]|].
  unfold bind at 1.
  destruct (getChatResponse provider_configured complete_chat getFallbackResponse msg _ wa)
    as [[e|aiResponse] wb] eqn:Hr; [unfold ret; intros [=]|].
  unfold bind at 1.
  destruct (analyzeSentiment complete_analysis msg wb) as [[e|sentiment] wc] eqn:Hs;
    [unfold ret; intros [=]|].
  unfold bind.
  destruct (upsertChatConversation _ wc) as [[e|err] wd]; unfold ret; intros [= <- _].
  exists msg, history, wa, aiResponse, wb, sentiment, wc.
  cbn [response messageCount reply_sentiment qualificationScore].
  rewrite length_app. cbn [length]. auto 10.
Qed.

End ChatTurn.

(** C9.  In every answered chat turn the qualification score of the reply
    is the scorer applied to the one-element history made of the analysis
    of the current message (run after the stored history was loaded and
    the reply generated, and reported in the reply as well); the stored
    history, whatever its length, only enters the message count.  Every
    turn is answered. *)
Theorem C9_score_of_current_turn :
  forall getChatConversation upsertChatConversation provider_configured complete_chat
         getFallbackResponse complete_analysis isoNow newConversationId newSessionId,
  let turn :=
    chat_turn getChatConversation upsertChatConversation provider_configured complete_chat
              getFallbackResponse complete_analysis isoNow newConversationId newSessionId in
  (forall req w, exists reply w', turn req w = (inr reply, w')) /\
  (forall req w body w',
     turn req w = (inr (Reply body), w') ->
     exists msg history wa aiResponse wb sentiment wc,
       message req = Some msg /\
       loadHistory getChatConversation req w = (inr history, wa) /\
       getChatResponse provider_configured complete_chat getFallbackResponse
                       msg (formatHistory history) wa = (inr aiResponse, wb) /\
       analyzeSentiment complete_analysis msg wb = (inr sentiment, wc) /\
       response body = aiResponse /\
       messageCount body = (length history + 2)%nat /\
       reply_sentiment body = (score sentiment, intent sentiment, urgency sentiment) /\
       qualificationScore body = calculateQualificationScore [sentiment]).
Proof.
  intros. split.
  - apply chat_turn_total.
  - apply chat_turn_score.
Qed.

Lemma C9_score_of_current_turn_witness :
  exists body w',
    sample_turn (mkChatRequest (Some "I want to buy today") (Some "conv_0") None None)
                ringing
      = (inr (Reply body), w') /\
    messageCount body = 8%nat /\
    qualificationScore body = calculateQualificationScore [neutral].
Proof.
  pose proof (C9_score_of_current_turn
                (fun _ => ret (Some earlier)) (fun _ => ret None)
                true (fun _ _ => ret (Some "Great, let us get you started."))
                (fun _ => "Thanks for your question!")
                no_client
                (fun _ => "2024-01-01T00:00:00.000Z") (fun _ => "conv_1") (fun _ => "sess_1"))
    as [_ H].
  assert (Hrun : exists body w',
             sample_turn (mkChatRequest (Some "I want to buy today") (Some "conv_0") None None)
                         ringing
               = (inr (Reply body), w') /\ messageCount body = 8%nat)
    by (eexists _, _; split; reflexivity).
  destruct Hrun as (body & w' & Hrun & Hcount).
  pose proof Hrun as Hturn. unfold sample_turn in Hturn.
  destruct (H _ _ _ _ Hturn)
    as (msg & history & wa & aiResponse & wb & sentiment & wc & _ & _ & _ & Hs & _ & _ & _ & Hq).
  exists body, w'. split; [exact Hrun|]. split; [exact Hcount|].
  rewrite Hq. cbv [analyzeSentiment try_catch bind ret] in Hs.
  injection Hs as <- _. reflexivity.
Defined.

End ChatFacts.

Module TrafficFacts.
Import JsString RateLimit RateLimitFacts Traffic.

Lemma first_pass_cons n len :
  first_pass n (S len) = (1 <=? n) :: first_pass (n - 1) len.
Proof.
  unfold first_pass. cbn [seq map]. f_equal.
  rewrite <- seq_shift, map_map. apply map_ext. intros i.
  destruct (Z.leb_spec (Z.of_nat (S i)) n), (Z.leb_spec (Z.of_nat i) (n - 1)); auto; lia.
Qed.

(** Requests of one key that arrive while its window is open are counted
    one by one. *)
Lemma serve_open options key e arrivals store :
  store !! key = Some e ->
  within key (resetTime e) arrivals ->
  map admitted (snd (serve options arrivals store))
  = first_pass (maxRequests options - count e) (length arrivals) /\
  fst (serve options arrivals store) !! key
  = Some (mkEntry (count e + Z.of_nat (length arrivals)) (resetTime e)).
Proof.
  revert e store. induction arrivals as [|[r t] more IH]; intros e store He Hw.
  - cbn. split; [reflexivity|]. rewrite He. destruct e; cbn. do 2 f_equal. lia.
  - apply Forall_cons in Hw as [[Hk Ht] Hmore]. cbn [fst snd] in Hk, Ht.
    cbn [serve].
    rewrite (rateLimiter_open options r t store e) by
      (first [rewrite Hk; exact He | apply Z.ltb_ge; lia]).
    set (e1 := mkEntry (count e + 1) (resetTime e)).
    destruct (IH e1 (<[key_of r := e1]> store)) as [IH1 IH2].
    { rewrite Hk. apply lookup_insert_eq. }
    { exact Hmore. }
    destruct (serve options more (<[key_of r:=e1]> store)) as [store2 vs] eqn:Hs.
    cbn [fst snd] in *. split.
    + cbn [map length]. rewrite first_pass_cons, IH1. f_equal.
      * unfold verdict_on. cbn [count e1].
        destruct (Z.ltb_spec (maxRequests options) (count e + 1)),
                 (Z.leb_spec 1 (maxRequests options - count e)); cbn; auto; lia.
      * f_equal. cbn. lia.
    + rewrite IH2. cbn. do 2 f_equal. lia.
Qed.

Lemma serve_window options store r1 t1 more :
  no_window store (key_of r1) t1 ->
  within (key_of r1) (t1 + windowMs options) more ->
  map admitted (snd (serve options ((r1, t1) :: more) store))
  = first_pass (maxRequests options) (S (length more)) /\
  fst (serve options ((r1, t1) :: more) store) !! key_of r1
  = Some (mkEntry (1 + Z.of_nat (length more)) (t1 + windowMs options)).
Proof.
  intros Hfresh Hw.
  cbn [serve]. rewrite (rateLimiter_fresh _ _ _ _ Hfresh).
  set (e1 := mkEntry 1 (t1 + windowMs options)).
  destruct (serve_open options (key_of r1) e1 more (<[key_of r1 := e1]> store)) as [H1 H2].
  { apply lookup_insert_eq. }
  { exact Hw. }
  destruct (serve options more (<[key_of r1:=e1]> store)) as [store2 vs].
  cbn [fst snd] in *. split.
  - cbn [map]. rewrite first_pass_cons, H1. f_equal.
    + unfold verdict_on. cbn [count e1].
      destruct (Z.ltb_spec (maxRequests options) 1), (Z.leb_spec 1 (maxRequests options));
        cbn; auto; lia.
  - rewrite H2. reflexivity.
Qed.



(** The verdict and the new entry of a request depend on the entry of its
    own key only. *)
Lemma rateLimiter_local options r now s1 s2 :
  s1 !! key_of r = s2 !! key_of r ->
  snd (rateLimiter options r now s1) = snd (rateLimiter options r now s2) /\
  fst (rateLimiter options r now s1) !! key_of r
  = fst (rateLimiter options r now s2) !! key_of r.
Proof.
  intros H. rewrite !rateLimiter_split. cbn [fst snd]. rewrite H.
  split; [reflexivity|]. rewrite !lookup_insert_eq. reflexivity.
Qed.

Lemma rateLimiter_frame options r now store k :
  key_of r <> k -> fst (rateLimiter options r now store) !! k = store !! k.
Proof.
  intros H. rewrite rateLimiter_split. cbn [fst]. apply lookup_insert_ne. exact H.
Qed.

Lemma serve_cons options r t more store :
  serve options ((r, t) :: more) store
  = (fst (serve options more (fst (rateLimiter options r t store))),
     snd (rateLimiter options r t store)
       :: snd (serve options more (fst (rateLimiter options r t store)))).
Proof.
  cbn [serve]. destruct (rateLimiter options r t store) as [s1 v].
  cbn [fst snd]. destruct (serve options more s1). reflexivity.
Qed.

Lemma serve_length options arrivals store :
  length (snd (serve options arrivals store)) = length arrivals.
Proof.
  revert store. induction arrivals as [|[r t] more IH]; intros store; [reflexivity|].
  rewrite serve_cons. cbn. f_equal. apply IH.
Qed.

Lemma passes_cons v vs :
  passes (v :: vs) = ((if admitted v then 1 else 0) + passes vs)%nat.
Proof.
  unfold passes. rewrite filter_cons. destruct (decide (admitted v = true)) as [->|H].
  - reflexivity.
  - destruct (admitted v); [congruence|reflexivity].
Qed.

Lemma passes_first_pass vs n :
  map admitted vs = first_pass n (length vs) ->
  Z.of_nat (passes vs) = Z.min (Z.of_nat (length vs)) (Z.max 0 n).
Proof.
  revert n. induction vs as [|v vs IH]; intros n H.
  - cbn. lia.
  - cbn [length] in H. rewrite first_pass_cons in H. cbn [map] in H.
    injection H as Hv Hvs. rewrite passes_cons. specialize (IH _ Hvs).
    rewrite Hv. cbn [length]. destruct (Z.leb_spec 1 n); lia.
Qed.

(** The run of the middleware is the run of the limiter, with the reset
    header formatted for each request that was not rejected. *)
Lemma run_serve options arrivals store :
  run options arrivals store
  = (fst (serve options arrivals store), map dated (snd (serve options arrivals store))).
Proof.
  revert store. induction arrivals as [|[r t] more IH]; intros store; [reflexivity|].
  cbn [run serve]. unfold middleware.
  destruct (rateLimiter options r t store) as [store1 v].
  rewrite IH. destruct (serve options more store1) as [store2 vs]. reflexivity.
Qed.

Lemma verdict_on_resets options now data :
  resets_at (resetTime data) (verdict_on options now data).
Proof. unfold verdict_on. destruct (_ <? _); cbn; auto. Qed.

(** While the window of a key is open, every verdict on the key names the
    reset time of that window. *)
Lemma serve_open_resets options key e arrivals store :
  store !! key = Some e ->
  within key (resetTime e) arrivals ->
  Forall (resets_at (resetTime e)) (snd (serve options arrivals store)).
Proof.
  revert e store. induction arrivals as [|[r t] more IH]; intros e store He Hw.
  - constructor.
  - apply Forall_cons in Hw as [[Hk Ht] Hmore]. cbn [fst snd] in Hk, Ht.
    rewrite serve_cons. cbn [snd].
    rewrite (rateLimiter_open options r t store e) by
      (first [rewrite Hk; exact He | apply Z.ltb_ge; lia]).
    cbn [fst snd]. constructor.
    + apply (verdict_on_resets options t (mkEntry (count e + 1) (resetTime e))).
    + apply (IH (mkEntry (count e + 1) (resetTime e))); [|exact Hmore].
      rewrite Hk. apply lookup_insert_eq.
Qed.

Lemma serve_window_resets options store r1 t1 more :
  no_window store (key_of r1) t1 ->
  within (key_of r1) (t1 + windowMs options) more ->
  Forall (resets_at (t1 + windowMs options)) (snd (serve options ((r1, t1) :: more) store)).
Proof.
  intros Hfresh Hw. rewrite serve_cons. cbn [snd].
  rewrite (rateLimiter_fresh _ _ _ _ Hfresh). cbn [fst snd]. constructor.
  - apply (verdict_on_resets options t1 (mkEntry 1 (t1 + windowMs options))).
  - apply (serve_open_resets options (key_of r1) (mkEntry 1 (t1 + windowMs options)));
      [apply lookup_insert_eq | exact Hw].
Qed.

(** With one reset time for all of them, the admitted requests are passed
    on when it is a time value and thrown out otherwise. *)
Lemma dated_passed reset vs :
  Forall (resets_at reset) vs ->
  map passed (map dated vs)
  = (if time_value reset then map admitted vs else repeat false (length vs)) /\
  map thrown (map dated vs)
  = (if time_value reset then repeat false (length vs) else map admitted vs).
Proof.
  induction 1 as [|v vs Hv _ [IH1 IH2]]; [destruct (time_value reset); auto|].
  cbn [map length repeat]. rewrite IH1, IH2.
  destruct v as [limit remaining reset'|hint]; cbn in Hv |- *.
  - subst reset'. destruct (time_value reset); auto.
  - destruct (time_value reset); auto.
Qed.

Lemma passed_on_cons o os :
  passed_on (o :: os) = ((if passed o then 1 else 0) + passed_on os)%nat.
Proof.
  unfold passed_on. rewrite filter_cons. destruct (decide (passed o = true)) as [->|H].
  - reflexivity.
  - destruct (passed o); [congruence|reflexivity].
Qed.

Lemma passed_on_passes os vs :
  map passed os = map admitted vs -> passed_on os = passes vs.
Proof.
  revert vs. induction os as [|o os IH]; intros [|v vs] H; try discriminate; [reflexivity|].
  injection H as Ho Hos. rewrite passed_on_cons, passes_cons, Ho, (IH _ Hos). reflexivity.
Qed.

Lemma passed_on_none os :
  map passed os = repeat false (length os) -> passed_on os = 0%nat.
Proof.
  induction os as [|o os IH]; [reflexivity|]. cbn [map length repeat]. intros H.
  injection H as Ho Hos. rewrite passed_on_cons, Ho, (IH Hos). reflexivity.
Qed.


(** X2.  Clients do not interfere: in any interleaving of requests, a
    client key receives the verdicts, and ends with the counter, it would
    have had if the requests of all other keys had never arrived and the
    store had held no entry but its own. *)
Theorem serve_isolated :
  forall options key arrivals s1 s2,
    s1 !! key = s2 !! key ->
    verdicts_of key arrivals (snd (serve options arrivals s1))
    = snd (serve options (arrivals_of key arrivals) s2) /\
    fst (serve options arrivals s1) !! key
    = fst (serve options (arrivals_of key arrivals) s2) !! key.
Proof.
  intros options key arrivals.
  induction arrivals as [|[r t] more IH]; intros s1 s2 H.
  - cbn. auto.
  - rewrite serve_cons. cbn [fst snd]. unfold verdicts_of, arrivals_of in *.
    cbn [zip zip_with]. rewrite !filter_cons. cbn [fst snd].
    destruct (decide (key_of r = key)) as [Hk|Hk].
    + rewrite serve_cons. cbn [fst snd map]. subst key.
      destruct (rateLimiter_local options r t s1 s2 H) as [Hv Hs].
      destruct (IH _ _ Hs) as [IH1 IH2].
      split; [f_equal; assumption | assumption].
    + apply IH. rewrite rateLimiter_frame by exact Hk. exact H.
Qed.

(** *** The periodic clean-up *)

Lemma sweep_lookup now store k e :
  sweep now store !! k = Some e <-> store !! k = Some e /\ now <= resetTime e.
Proof.
  unfold sweep. rewrite map_lookup_filter_Some. cbn [snd]. split; intros [H1 H2]; split; auto; lia.
Qed.

Lemma sweep_agree now store : agree_live now (sweep now store) store.
Proof.
  intros k. destruct (store !! k) as [e|] eqn:He.
  - destruct (Z.lt_ge_cases (resetTime e) now).
    + right. split; [|eauto].
      destruct (sweep now store !! k) as [e'|] eqn:Hs; [|reflexivity].
      apply sweep_lookup in Hs as [Hs Hle]. rewrite He in Hs. inversion Hs; subst. lia.
    + left. apply sweep_lookup. auto.
  - left. destruct (sweep now store !! k) as [e'|] eqn:Hs; [|reflexivity].
    apply sweep_lookup in Hs as [Hs _]. congruence.
Qed.

Lemma agree_live_current options at_ now s1 s2 k :
  agree_live at_ s1 s2 -> at_ <= now ->
  current options now (s1 !! k) = current options now (s2 !! k).
Proof.
  intros H Hle. destruct (H k) as [->|[-> [e [-> He]]]]; [reflexivity|].
  cbn. destruct (Z.ltb_spec (resetTime e) now); [reflexivity|lia].
Qed.

Lemma agree_live_step options at_ r now s1 s2 :
  agree_live at_ s1 s2 -> at_ <= now ->
  snd (rateLimiter options r now s1) = snd (rateLimiter options r now s2) /\
  agree_live at_ (fst (rateLimiter options r now s1)) (fst (rateLimiter options r now s2)).
Proof.
  intros H Hle. rewrite !rateLimiter_split. cbn [fst snd].
  rewrite (agree_live_current options at_ now s1 s2 (key_of r) H Hle).
  split; [reflexivity|]. intros k.
  destruct (decide (key_of r = k)) as [<-|Hk].
  - left. rewrite !lookup_insert_eq. reflexivity.
  - rewrite !lookup_insert_ne by exact Hk. apply H.
Qed.

Lemma agree_live_serve options at_ arrivals s1 s2 :
  agree_live at_ s1 s2 ->
  Forall (fun a => at_ <= snd a) arrivals ->
  snd (serve options arrivals s1) = snd (serve options arrivals s2).
Proof.
  revert s1 s2. induction arrivals as [|[r t] more IH]; intros s1 s2 H Hall; [reflexivity|].
  apply Forall_cons in Hall as [Ht Hall]. cbn [snd] in Ht.
  rewrite !serve_cons. cbn [snd].
  destruct (agree_live_step options at_ r t s1 s2 H Ht) as [Hv Hs].
  rewrite Hv. f_equal. apply IH; assumption.
Qed.

(** X3.  The periodic clean-up keeps exactly the entries whose window has
    not ended, and no later request can tell that it ran: the verdicts on
    any requests arriving at or after the sweep are the same with and
    without it. *)
Theorem sweep_unobservable :
  forall options swept_at arrivals store,
    (forall k e, sweep swept_at store !! k = Some e
                 <-> store !! k = Some e /\ swept_at <= resetTime e) /\
    (Forall (fun a => swept_at <= snd a) arrivals ->
     snd (serve options arrivals (sweep swept_at store))
     = snd (serve options arrivals store)).
Proof.
  intros options swept_at arrivals store. split.
  - intros k e. apply sweep_lookup.
  - intros Hall. apply (agree_live_serve options swept_at); [apply sweep_agree | exact Hall].
Qed.


(** *** What the headers promise *)

Lemma ceil_div_bounds x : 1000 * (ceil_div x 1000 - 1) < x <= 1000 * ceil_div x 1000.
Proof.
  unfold ceil_div.
  pose proof (Z.div_mod (- x) 1000 ltac:(lia)) as Hd.
  pose proof (Z.mod_pos_bound (- x) 1000 ltac:(lia)) as Hm.
  lia.
Qed.


(** X4.  The [X-RateLimit-Remaining] header of a passed request is exact:
    it is not negative, and of the requests of the same key that follow up
    to the reset time, exactly that many pass. *)
Theorem remaining_header_exact :
  forall options store r now store1 limit remaining reset more,
    rateLimiter options r now store = (store1, Next limit remaining reset) ->
    within (key_of r) reset more ->
    limit = maxRequests options /\ 0 <= remaining /\
    map admitted (snd (serve options more store1)) = first_pass remaining (length more).
Proof.
  intros options store r now store1 limit remaining reset more Hrun Hmore.
  rewrite rateLimiter_split in Hrun. cbv zeta in Hrun.
  set (data := current options now (store !! key_of r)) in *.
  unfold verdict_on in Hrun. cbn [count resetTime] in Hrun.
  destruct (Z.ltb_spec (maxRequests options) (count data + 1)) as [Hgt|Hle];
    [discriminate|].
  injection Hrun as <- <- <- <-.
  split; [reflexivity|]. split; [lia|].
  destruct (serve_open options (key_of r) (mkEntry (count data + 1) (resetTime data)) more
              (<[key_of r := mkEntry (count data + 1) (resetTime data)]> store)) as [H _].
  { apply lookup_insert_eq. }
  { exact Hmore. }
  rewrite H. cbn [count]. f_equal. lia.
Qed.


Lemma empty_no_window key now : no_window ∅ key now.
Proof. unfold no_window. rewrite lookup_empty. exact I. Qed.


Lemma serve_isolated_witness :
  verdicts_of (key_of visitor)
              [(visitor, 0); (mkRequest None None (Some "10.9.9.9"), 1); (visitor, 2)]
              (snd (serve demo
                      [(visitor, 0); (mkRequest None None (Some "10.9.9.9"), 1); (visitor, 2)]
                      {[ "rate_limit:10.9.9.9" := mkEntry 3 1000 ]}))
  = snd (serve demo
           (arrivals_of (key_of visitor)
              [(visitor, 0); (mkRequest None None (Some "10.9.9.9"), 1); (visitor, 2)])
           ∅).
Proof.
  apply (serve_isolated demo (key_of visitor)).
  rewrite lookup_empty. apply lookup_singleton_ne. discriminate.
Defined.

Lemma sweep_unobservable_witness :
  snd (serve demo [(visitor, 2000); (visitor, 2001)]
             (sweep 1500 {[ key_of visitor := mkEntry 4 1000 ]}))
  = snd (serve demo [(visitor, 2000); (visitor, 2001)] {[ key_of visitor := mkEntry 4 1000 ]}).
Proof.
  apply (sweep_unobservable demo 1500). repeat constructor; cbn; lia.
Defined.

Lemma remaining_header_exact_witness :
  map admitted
      (snd (serve demo [(visitor, 1); (visitor, 2); (visitor, 3)]
                  (<[key_of visitor := mkEntry 1 (0 + windowMs demo)]> ∅)))
  = [true; true; false].
Proof.
  destruct (remaining_header_exact demo ∅ visitor 0
              (<[key_of visitor := mkEntry 1 (0 + windowMs demo)]> ∅) 3 2 1000
              [(visitor, 1); (visitor, 2); (visitor, 3)]) as (_ & _ & H).
  - rewrite rateLimiter_fresh by apply empty_no_window. reflexivity.
  - repeat constructor; cbn; lia.
  - exact H.
Defined.


End TrafficFacts.

Module HeuristicsFacts.
Import JsNum JsString Regex Leads Heuristics JsNumFacts JsStringFacts LeadsFacts.
Import WebhookFacts.

Lemma says_existsb t (kws : list string) :
  (forall k, k ∈ kws -> toLowerCase k = k) ->
  says t kws <-> existsb (fun kw => includes (toLowerCase t) kw) kws = true.
Proof.
  intros Hlow. rewrite existsb_exists. unfold says. split.
  - intros (kw & Hin & Hocc). exists kw. split; [apply list_elem_of_In, Hin|].
    apply includes_occurs_ci; auto.
  - intros (kw & Hin & Hinc). apply list_elem_of_In in Hin. exists kw. split; [exact Hin|].
    apply includes_occurs_ci; auto.
Qed.

Ltac lower_words :=
  let k := fresh in let H := fresh in
  intros k H; repeat (apply elem_of_cons in H as [ -> | H ]; [reflexivity|]);
  apply not_elem_of_nil in H; destruct H.

Lemma extractIntent_groups t :
  extractIntent t =
  let lower := toLowerCase t in
  let heard kws := existsb (fun kw => includes lower kw) kws in
  if heard booking_words then "booking"
  else if heard pricing_words then "pricing_inquiry"
  else if heard interest_words then "service_interest"
  else if heard support_words then "support"
  else if heard cancellation_words then "cancellation"
  else "general_inquiry".
Proof.
  unfold extractIntent. cbv zeta. cbn [existsb booking_words pricing_words interest_words
    support_words cancellation_words].
  rewrite !orb_false_r, <- !orb_assoc. reflexivity.
Qed.

(** X6.  The intent of a transcript is decided by the first keyword group,
    in the order booking, pricing, interest, support, cancellation, of
    which a keyword occurs in the transcript (ignoring case); it is
    [general_inquiry] exactly when no keyword occurs. *)
Theorem extractIntent_priority :
  forall t,
    let booking := says t booking_words in
    let pricing := says t pricing_words in
    let interest := says t interest_words in
    let support := says t support_words in
    let cancellation := says t cancellation_words in
    (extractIntent t = "booking" <-> booking) /\
    (extractIntent t = "pricing_inquiry" <-> pricing /\ ~ booking) /\
    (extractIntent t = "service_interest" <-> interest /\ ~ pricing /\ ~ booking) /\
    (extractIntent t = "support" <-> support /\ ~ interest /\ ~ pricing /\ ~ booking) /\
    (extractIntent t = "cancellation"
     <-> cancellation /\ ~ support /\ ~ interest /\ ~ pricing /\ ~ booking) /\
    (extractIntent t = "general_inquiry"
     <-> ~ cancellation /\ ~ support /\ ~ interest /\ ~ pricing /\ ~ booking).
Proof.
  intros t. cbv zeta.
  rewrite (says_existsb t booking_words) by lower_words.
  rewrite (says_existsb t pricing_words) by lower_words.
  rewrite (says_existsb t interest_words) by lower_words.
  rewrite (says_existsb t support_words) by lower_words.
  rewrite (says_existsb t cancellation_words) by lower_words.
  rewrite extractIntent_groups. cbv zeta.
  set (heard := existsb (fun kw => includes (toLowerCase t) kw)).
  destruct (heard booking_words), (heard pricing_words), (heard interest_words),
           (heard support_words), (heard cancellation_words);
    intuition congruence.
Qed.


(** *** Parts of a text *)

Lemma append_assoc a b c : (a +:+ b) +:+ c = a +:+ b +:+ c.
Proof.
  induction a as [|x a IH]; [rewrite !append_nil; reflexivity|].
  rewrite !append_cons, IH. reflexivity.
Qed.

Lemma append_nil_r a : a +:+ EmptyString = a.
Proof.
  induction a as [|x a IH]; [apply append_nil|]. rewrite append_cons, IH. reflexivity.
Qed.

Lemma part_of_trans x y z : part_of x y -> part_of y z -> part_of x z.
Proof.
  intros (p1 & q1 & ->) (p2 & q2 & ->). exists (p2 +:+ p1), (q1 +:+ q2).
  rewrite !append_assoc. reflexivity.
Qed.

Lemma includes_part s x : includes s x = true <-> part_of x s.
Proof. apply includes_spec. Qed.

Lemma part_of_lower x t : part_of x t -> part_of (toLowerCase x) (toLowerCase t).
Proof.
  intros (pre & post & ->). exists (toLowerCase pre), (toLowerCase post).
  rewrite !toLowerCase_app. reflexivity.
Qed.

Lemma heard_part (t t' kw : string) :
  part_of t t' ->
  includes (toLowerCase t) kw = true -> includes (toLowerCase t') kw = true.
Proof.
  intros Hp H. apply includes_part. apply includes_part in H.
  eapply part_of_trans; [exact H | apply part_of_lower, Hp].
Qed.

Lemma heard_inside (lower kw kw' : string) :
  part_of kw' kw -> includes lower kw = true -> includes lower kw' = true.
Proof.
  intros Hp H. apply includes_part. apply includes_part in H.
  eapply part_of_trans; eassumption.
Qed.

(** *** Qualification *)

(** X7.  A transcript is qualified exactly when one of the qualifying
    keywords occurs in it, ignoring case; hence text around a qualified
    transcript never disqualifies it. *)
Theorem qualification_spec :
  forall t,
    (checkQualification t = true <-> says t qualifyingKeywords) /\
    (forall t', part_of t t' -> checkQualification t = true -> checkQualification t' = true).
Proof.
  intros t. split.
  - symmetry. apply says_existsb. lower_words.
  - intros t' Hp. unfold checkQualification. cbv zeta. rewrite !existsb_exists.
    intros (kw & Hin & H). exists kw. split; [exact Hin|]. eapply heard_part; eassumption.
Qed.

Lemma qualification_spec_witness :
  checkQualification "well, yes" = true /\
  checkQualification ("I said: " +:+ "well, yes" +:+ " but I was joking") = true.
Proof.
  destruct (qualification_spec "well, yes") as [_ H].
  split; [reflexivity|]. apply H; [|reflexivity].
  exists "I said: ", " but I was joking". reflexivity.
Defined.

(** X8.  A transcript that says "not interested" is still classified as
    qualified: the phrase contains the qualifying keyword "interested",
    which is also counted as a positive hit, next to the two negative hits
    "no" and "not interested"; the intent is never below
    [service_interest] in the priority order. *)
Theorem not_interested_counts_as_interest :
  forall t,
    occurs_ci "not interested" t ->
    checkQualification t = true /\
    "interested" ∈ found t positiveKeywords /\
    "no" ∈ found t negativeKeywords /\
    "not interested" ∈ found t negativeKeywords /\
    extractIntent t ∈ ["booking"; "pricing_inquiry"; "service_interest"].
Proof.
  intros t Hocc.
  apply (includes_occurs_ci "not interested" t eq_refl) in Hocc.
  assert (Hint : includes (toLowerCase t) "interested" = true).
  { eapply heard_inside; [|exact Hocc]. exists "not ", EmptyString. reflexivity. }
  assert (Hno : includes (toLowerCase t) "no" = true).
  { eapply heard_inside; [|exact Hocc]. exists EmptyString, "t interested". reflexivity. }
  split; [|split; [|split; [|split]]].
  - unfold checkQualification. cbv zeta. cbn [existsb qualifyingKeywords]. rewrite Hint. reflexivity.
  - unfold found. apply list_elem_of_filter. split; [exact Hint | elem].
  - unfold found. apply list_elem_of_filter. split; [exact Hno | elem].
  - unfold found. apply list_elem_of_filter. split; [exact Hocc | elem].
  - rewrite extractIntent_groups. cbv zeta.
    replace (existsb _ interest_words) with true
      by (cbn [existsb interest_words]; rewrite Hint; reflexivity).
    destruct (existsb _ booking_words); [elem|].
    destruct (existsb _ pricing_words); elem.
Qed.

Lemma not_interested_counts_as_interest_witness :
  checkQualification "Sorry, I am NOT interested." = true /\
  extractIntent "Sorry, I am NOT interested."
    ∈ ["booking"; "pricing_inquiry"; "service_interest"].
Proof.
  destruct (not_interested_counts_as_interest "Sorry, I am NOT interested.")
    as (H1 & _ & _ & _ & H5).
  - exists "Sorry, I am ", "NOT interested", ".". split; reflexivity.
  - split; assumption.
Defined.

(** *** Confidence *)

(** X9.  For every transcript the confidence is a number of the unit
    interval, and strictly below 1: the upper clamp never takes effect. *)
Theorem confidence_below_one :
  forall t,
    in_unit (calculateConfidence t) /\ ltb (calculateConfidence t) one = true.
Proof.
  intros t. rewrite confidence_counts.
  set (h := length _). set (m := length _).
  assert (Hh : (h <= 5)%nat) by apply length_filter.
  assert (Hm : (m <= 4)%nat) by apply length_filter.
  clearbody h m.
  do 6 (destruct h as [|h];
        [do 5 (destruct m as [|m]; [vm_compute; repeat split; reflexivity|]); lia|]).
  lia.
Qed.


(** *** What the patterns can match *)

Lemma runs_sound p s m r :
  In (m, r) (runs p s) -> s = m +:+ r /\ every p m = true /\ m <> EmptyString.
Proof.
  revert m r. induction s as [|c s IH]; intros m r Hin; [destruct Hin|].
  cbn [runs] in Hin. destruct (p c) eqn:Hc; [|destruct Hin].
  apply in_app_or in Hin as [Hin|[Hin|[]]].
  - apply in_map_iff in Hin as ([m' r'] & Heq & Hin). cbn [fst snd] in Heq.
    injection Heq as <- <-. destruct (IH _ _ Hin) as (-> & Hall & _).
    rewrite append_cons. cbn [every]. rewrite Hc, Hall. repeat split; discriminate.
  - injection Hin as <- <-. rewrite append_cons, append_nil. cbn [every]. rewrite Hc.
    repeat split; discriminate.
Qed.

Lemma in_exec_plus p s m :
  In m (exec (Plus p) s) ->
  s = matched m +:+ rest m /\ every p (matched m) = true /\
  matched m <> EmptyString /\ group1 m = None.
Proof.
  cbn [exec]. intros Hin. apply in_map_iff in Hin as ([x r] & <- & Hin).
  cbn [matched rest group1 fst snd]. destruct (runs_sound _ _ _ _ Hin) as (H1 & H2 & H3). auto.
Qed.

Lemma in_exec_chr p s m :
  In m (exec (Chr p) s) ->
  exists c, p c = true /\ matched m = String c EmptyString /\ s = String c (rest m) /\
            group1 m = None.
Proof.
  cbn [exec]. destruct s as [|c s]; [intros []|]. destruct (p c) eqn:Hc; [|intros []].
  intros [<-|[]]. exists c. cbn. auto.
Qed.

Lemma in_exec_cat a b s m :
  In m (exec (Cat a b) s) ->
  exists ra rb, In ra (exec a s) /\ In rb (exec b (rest ra)) /\
                matched m = matched ra +:+ matched rb /\ rest m = rest rb /\
                group1 m = match group1 rb with Some g => Some g | None => group1 ra end.
Proof.
  cbn [exec]. intros Hin. apply in_flat_map in Hin as (ra & Ha & Hin).
  apply in_map_iff in Hin as (rb & <- & Hb). exists ra, rb. cbn. auto.
Qed.

Lemma in_exec_cap a s m :
  In m (exec (Cap a) s) ->
  exists ra, In ra (exec a s) /\ matched m = matched ra /\ rest m = rest ra /\
             group1 m = Some (matched ra).
Proof.
  cbn [exec]. intros Hin. apply in_map_iff in Hin as (ra & <- & Ha). exists ra. cbn. auto.
Qed.

Lemma in_exec_opt a s m :
  In m (exec (Opt a) s) ->
  In m (exec a s) \/ m = mkResult EmptyString None s.
Proof.
  cbn [exec]. intros Hin. apply in_app_or in Hin as [H|[H|[]]]; auto.
Qed.

Lemma exec_sound r s m : In m (exec r s) -> s = matched m +:+ rest m.
Proof.
  revert s m. induction r as [|p|p|a IHa b IHb|a IHa|a IHa]; intros s m Hin.
  - destruct Hin as [<-|[]]. cbn. rewrite append_nil. reflexivity.
  - apply in_exec_chr in Hin as (c & _ & -> & -> & _). reflexivity.
  - apply in_exec_plus in Hin as (H & _). exact H.
  - apply in_exec_cat in Hin as (ra & rb & Ha & Hb & -> & -> & _).
    rewrite append_assoc, <- (IHb _ _ Hb). apply IHa, Ha.
  - apply in_exec_opt in Hin as [H| ->]; [apply IHa, H|]. cbn. rewrite append_nil. reflexivity.
  - apply in_exec_cap in Hin as (ra & Ha & -> & -> & _). apply IHa, Ha.
Qed.

Lemma match_sound r t m :
  match_ r t = Some m -> exists pre s, t = pre +:+ s /\ In m (exec r s).
Proof.
  induction t as [|c t IH]; cbn [match_].
  - destruct (exec r EmptyString) as [|m' l] eqn:He; [discriminate|].
    intros [= ->]. exists EmptyString, EmptyString. rewrite He. split; [reflexivity|left; reflexivity].
  - destruct (exec r (String c t)) as [|m' l] eqn:He.
    + intros H. destruct (IH H) as (pre & s & -> & Hin).
      exists (String c pre), s. rewrite append_cons. auto.
    + intros [= ->]. exists EmptyString, (String c t). rewrite He, append_nil.
      split; [reflexivity|left; reflexivity].
Qed.

(** A match of a pattern is a part of the text. *)
Lemma match_part r t m : match_ r t = Some m -> part_of (matched m) t.
Proof.
  intros H. destruct (match_sound _ _ _ H) as (pre & s & -> & Hin).
  exists pre, (rest m). rewrite <- (exec_sound _ _ _ Hin). reflexivity.
Qed.

Lemma every_app p a b : every p (a +:+ b) = every p a && every p b.
Proof.
  induction a as [|c a IH]; [rewrite append_nil; reflexivity|].
  rewrite append_cons. cbn [every]. rewrite IH, andb_assoc. reflexivity.
Qed.

(** *** The extracted email *)

(** X10.  An extracted email is a part of the transcript of the shape
    [name@domain.tld] with three non-empty pieces made of the characters
    of the pattern's classes only; a transcript without an at sign gives
    no email. *)
Theorem extractEmail_sound :
  forall t,
    (forall e,
       extractEmail t = Some e ->
       part_of e t /\
       exists name domain tld,
         e = name +:+ "@" +:+ domain +:+ "." +:+ tld /\
         name <> EmptyString /\ domain <> EmptyString /\ tld <> EmptyString /\
         every mail_unit name = true /\ every mail_unit domain = true /\
         every tld_unit tld = true) /\
    (includes t "@" = false -> extractEmail t = None).
Proof.
  intros t.
  assert (Hsound : forall e,
            extractEmail t = Some e ->
            part_of e t /\
            exists name domain tld,
              e = name +:+ "@" +:+ domain +:+ "." +:+ tld /\
              name <> EmptyString /\ domain <> EmptyString /\ tld <> EmptyString /\
              every mail_unit name = true /\ every mail_unit domain = true /\
              every tld_unit tld = true).
  { intros e. unfold extractEmail.
    destruct (match_ emailPattern t) as [m|] eqn:Hm; [|discriminate].
    intros Hg. pose proof (match_part _ _ _ Hm) as Hpart.
    destruct (match_sound _ _ _ Hm) as (pre & s & _ & Hin).
    unfold emailPattern in Hin.
    apply in_exec_cap in Hin as (r0 & Hin & Hmm & _ & Hg1).
    rewrite Hg1 in Hg. injection Hg as <-. rewrite Hmm in Hpart. split; [exact Hpart|].
    apply in_exec_cat in Hin as (r1 & r2 & H1 & Hin & -> & _ & _).
    apply in_exec_cat in Hin as (r3 & r4 & H3 & Hin & -> & _ & _).
    apply in_exec_cat in Hin as (r5 & r6 & H5 & Hin & -> & _ & _).
    apply in_exec_cat in Hin as (r7 & r8 & H7 & H8 & -> & _ & _).
    apply in_exec_plus in H1 as (_ & A1 & B1 & _).
    apply in_exec_chr in H3 as (c3 & Hc3 & -> & _).
    apply in_exec_plus in H5 as (_ & A5 & B5 & _).
    apply in_exec_chr in H7 as (c7 & Hc7 & -> & _).
    apply in_exec_plus in H8 as (_ & A8 & B8 & _).
    apply Ascii.eqb_eq in Hc3, Hc7. subst c3 c7.
    exists (matched r1), (matched r5), (matched r8). auto 10. }
  split; [exact Hsound|].
  intros Hno. destruct (extractEmail t) as [e|] eqn:He; [|reflexivity].
  destruct (Hsound e eq_refl) as (Hpart & name & domain & tld & -> & _).
  assert (Hat : includes t "@" = true).
  { apply includes_part. eapply part_of_trans; [|exact Hpart].
    exists name, (domain +:+ "." +:+ tld). reflexivity. }
  congruence.
Qed.

Lemma extractEmail_sound_witness :
  part_of "a.b@example.co.uk" "reach me at a.b@example.co.uk please" /\
  extractEmail "my email is john at example dot com" = None.
Proof.
  split.
  - apply (proj1 (extractEmail_sound "reach me at a.b@example.co.uk please")
                 "a.b@example.co.uk").
    reflexivity.
  - apply (proj2 (extractEmail_sound "my email is john at example dot com")). reflexivity.
Defined.

(** *** The extracted name *)

Lemma in_exec_text_i cue s m :
  In m (exec (text_i cue) s) ->
  toLowerCase (matched m) = toLowerCase cue /\ group1 m = None.
Proof.
  revert s m. induction cue as [|c cue IH]; intros s m Hin.
  - destruct Hin as [<-|[]]. split; reflexivity.
  - cbn [text_i] in Hin.
    apply in_exec_cat in Hin as (ra & rb & Ha & Hb & -> & _ & Hg).
    apply in_exec_chr in Ha as (x & Hx & -> & _ & Hga).
    destruct (IH _ _ Hb) as [Hl Hgb]. rewrite Hgb, Hga in Hg.
    apply Ascii.eqb_eq in Hx.
    rewrite append_cons, append_nil. cbn [toLowerCase]. rewrite Hl, Hx. auto.
Qed.

Lemma in_exec_name_group s m :
  In m (exec name_group s) ->
  group1 m = Some (matched m) /\ one_or_two_words (matched m).
Proof.
  unfold name_group. intros Hin.
  apply in_exec_cap in Hin as (r0 & Hin & -> & _ & ->). split; [reflexivity|].
  apply in_exec_cat in Hin as (r1 & r2 & H1 & H2 & -> & _ & _).
  apply in_exec_plus in H1 as (_ & A1 & B1 & _).
  exists (matched r1). split; [exact A1|]. split; [exact B1|].
  apply in_exec_opt in H2 as [H2| ->].
  - right. apply in_exec_cat in H2 as (r3 & r4 & H3 & H4 & -> & _ & _).
    apply in_exec_chr in H3 as (sp & Hsp & -> & _).
    apply in_exec_plus in H4 as (_ & A4 & B4 & _).
    exists sp, (matched r4). rewrite append_cons, append_nil. auto.
  - left. cbn. rewrite append_nil_r. reflexivity.
Qed.


Lemma every_last p w :
  w <> EmptyString -> every p w = true ->
  exists w' c, w = w' +:+ String c EmptyString /\ p c = true.
Proof.
  induction w as [|x w IH]; [congruence|]. intros _ H. cbn [every] in H.
  apply andb_true_iff in H as [Hx Hw]. destruct w as [|y w].
  - exists EmptyString, x. rewrite append_nil. auto.
  - destruct (IH ltac:(discriminate) Hw) as (w' & c & -> & Hc).
    exists (String x w'), c. rewrite append_cons. auto.
Qed.

Lemma trimEnd_last s c :
  is_space c = false -> trimEnd (s +:+ String c EmptyString) = s +:+ String c EmptyString.
Proof.
  intros Hc. induction s as [|x s IH].
  - rewrite append_nil. cbn [trimEnd]. rewrite Hc. reflexivity.
  - rewrite append_cons. cbn [trimEnd]. rewrite IH.
    destruct s as [|y s]; [rewrite append_nil|rewrite append_cons]; reflexivity.
Qed.

Lemma trim_words n : one_or_two_words n -> trim n = n.
Proof.
  intros (first & Hf & Hne & Hn).
  assert (Hhead : exists c n', n = String c n' /\ is_space c = false).
  { destruct first as [|c f]; [congruence|]. cbn [every] in Hf.
    apply andb_true_iff in Hf as [Hc _]. apply letter_not_space in Hc.
    destruct Hn as [->|(sp & second & _ & _ & _ & ->)]; [eauto|].
    rewrite append_cons. eauto. }
  assert (Hlast : exists w c, n = w +:+ String c EmptyString /\ is_space c = false).
  { destruct Hn as [->|(sp & second & _ & Hs & Hsne & ->)].
    - destruct (every_last _ _ Hne Hf) as (w & c & -> & Hc).
      apply letter_not_space in Hc. eauto.
    - destruct (every_last _ _ Hsne Hs) as (w & c & -> & Hc).
      apply letter_not_space in Hc.
      exists (first +:+ String sp w), c. rewrite append_assoc, append_cons. auto. }
  destruct Hhead as (c & n' & E & Hc). destruct Hlast as (w & c' & E' & Hc').
  unfold trim. rewrite E. cbn [trimStart]. rewrite Hc, <- E, E'. apply trimEnd_last, Hc'.
Qed.

Lemma first_name_sound patterns t n :
  first_name patterns t = Some n ->
  exists pattern m g,
    In pattern patterns /\ match_ pattern t = Some m /\ group1 m = Some g /\ n = trim g.
Proof.
  induction patterns as [|p more IH]; [discriminate|]. cbn [first_name].
  destruct (match_ p t) as [m|] eqn:Hm.
  - destruct (group1 m) as [g|] eqn:Hg.
    + destruct (String.eqb g EmptyString).
      * intros H. destruct (IH H) as (q & m' & g' & ? & ?). exists q, m', g'. split; [right|]; tauto.
      * intros [= <-]. exists p, m, g. split; [left; reflexivity|]. auto.
    + intros H. destruct (IH H) as (q & m' & g' & ? & ?). exists q, m', g'. split; [right|]; tauto.
  - intros H. destruct (IH H) as (q & m' & g' & ? & ?). exists q, m', g'. split; [right|]; tauto.
Qed.

Lemma cue_match cue t m :
  match_ (Cat (text_i cue) name_group) t = Some m ->
  exists u g pre post,
    group1 m = Some g /\ one_or_two_words g /\
    toLowerCase u = toLowerCase cue /\ t = pre +:+ u +:+ g +:+ post.
Proof.
  intros Hm. destruct (match_sound _ _ _ Hm) as (pre & s & -> & Hin).
  pose proof (exec_sound _ _ _ Hin) as Hs.
  apply in_exec_cat in Hin as (ra & rb & Ha & Hb & Hmm & _ & Hg).
  apply in_exec_text_i in Ha as [Hl _].
  apply in_exec_name_group in Hb as [Hgb Hw]. rewrite Hgb in Hg.
  exists (matched ra), (matched rb), pre, (rest m).
  split; [exact Hg|]. split; [exact Hw|]. split; [exact Hl|].
  rewrite Hs, Hmm, append_assoc. reflexivity.
Qed.

(** X11.  An extracted name follows one of the three cues, written in any
    case, in the transcript, and consists of one word of letters or of two
    such words with one white-space character between them: the word that
    follows a one-word name is taken for a part of it. *)
Theorem extractName_sound :
  forall t n,
    extractName t = Some n ->
    one_or_two_words n /\
    exists cue u pre post,
      cue ∈ name_cues /\ toLowerCase u = cue /\ t = pre +:+ u +:+ n +:+ post.
Proof.
  intros t n H. unfold extractName in H.
  apply first_name_sound in H as (p & m & g & Hp & Hm & Hg & ->).
  assert (Hcue : exists cue, cue ∈ name_cues /\ toLowerCase cue = cue /\
                             p = Cat (text_i cue) name_group).
  { unfold name_patterns in Hp.
    destruct Hp as [<-|[<-|[<-|[]]]];
      [exists "my name is " | exists "i'm " | exists "this is "];
      (split; [elem | split; reflexivity]). }
  destruct Hcue as (cue & Hin & Hlow & ->).
  apply cue_match in Hm as (u & g' & pre & post & Hg' & Hw & Hl & ->).
  rewrite Hg in Hg'. injection Hg' as <-.
  rewrite (trim_words _ Hw). split; [exact Hw|].
  exists cue, u, pre, post. rewrite Hl, Hlow. auto.
Qed.

Lemma extractName_sound_witness :
  one_or_two_words "John and".
Proof.
  apply (extractName_sound "Hello, my name is John and I need help" "John and").
  reflexivity.
Defined.

End HeuristicsFacts.

Module LoggerFacts.
Import JsNum JsString Leads Logger JsStringFacts LeadsFacts.

(** Induction over bodies, with the hypothesis for every element of an
    array and every property of an object. *)
Lemma json_nested_ind (P : json -> Prop) :
  P JNull -> (forall b, P (JBool b)) -> (forall n, P (JNum n)) -> (forall s, P (JStr s)) ->
  (forall items, Forall P items -> P (JArr items)) ->
  (forall fields, Forall (fun kv => P (snd kv)) fields -> P (JObj fields)) ->
  forall d, P d.
Proof.
  intros Hnull Hbool Hnum Hstr Harr Hobj.
  fix IH 1. intros [| b | n | s | items | fields];
    [apply Hnull | apply Hbool | apply Hnum | apply Hstr | | ].
  - apply Harr. induction items as [|x items IHitems]; constructor; [apply IH | exact IHitems].
  - apply Hobj. induction fields as [|kv fields IHfields]; constructor;
      [apply IH | exact IHfields].
Qed.

(** X12.  Sanitizing a sanitized body changes nothing. *)
Theorem sanitize_idempotent :
  forall d, sanitizeData (sanitizeData d) = sanitizeData d.
Proof.
  induction d as [| | | |items IH|fields IH] using json_nested_ind; try reflexivity.
  - cbn [sanitizeData]. f_equal. rewrite map_map. apply map_ext_Forall. exact IH.
  - cbn [sanitizeData]. f_equal. rewrite map_map. apply map_ext_Forall.
    eapply Forall_impl; [exact IH|]. intros [k v] Hv. cbn [fst snd] in *.
    destruct (is_sensitive k); [reflexivity|]. f_equal. exact Hv.
Qed.


(** *** Which keys are redacted *)

Lemma lower_idem s : toLowerCase (toLowerCase s) = toLowerCase s.
Proof.
  induction s as [|c s IH]; [reflexivity|]. cbn [toLowerCase]. f_equal; [|exact IH].
  destruct c as [[] [] [] [] [] [] [] []]; reflexivity.
Qed.

Lemma occurs_ci_lower word key : occurs_ci (toLowerCase word) key <-> occurs_ci word key.
Proof.
  unfold occurs_ci. split; intros (pre & u & post & E & H); exists pre, u, post;
    (split; [exact E|]); rewrite H; [apply lower_idem | symmetry; apply lower_idem].
Qed.

Lemma is_sensitive_spec key : is_sensitive key = true <-> names_secret key.
Proof.
  unfold is_sensitive, names_secret. rewrite existsb_exists. split.
  - intros (word & Hin & H). exists word. split; [apply list_elem_of_In, Hin|].
    apply occurs_ci_lower. apply includes_occurs_ci; [apply lower_idem | exact H].
  - intros (word & Hin & H). exists word. split; [apply list_elem_of_In, Hin|].
    apply includes_occurs_ci; [apply lower_idem|]. apply occurs_ci_lower, H.
Qed.

(** *** Paths through a sanitized body *)

Lemma reach_redacted path x : reach REDACTED path x -> path = [] /\ x = REDACTED.
Proof. inversion 1; subst; auto. Qed.

Lemma reach_sanitized_field d key path x :
  reach (sanitizeData d) (Field key :: path) x ->
  exists fields v,
    d = JObj fields /\ In (key, v) fields /\
    reach (if is_sensitive key then REDACTED else sanitizeData v) path x.
Proof.
  destruct d as [| | | |items|fields]; cbn [sanitizeData]; inversion 1; subst.
  match goal with H : In _ (map _ _) |- _ => apply in_map_iff in H as ([k v0] & E & Hin) end.
  cbn [fst snd] in E. injection E as -> <-. eauto.
Qed.

Lemma reach_sanitized_index d i path x :
  reach (sanitizeData d) (Index i :: path) x ->
  exists items v, d = JArr items /\ nth_error items i = Some v /\ reach (sanitizeData v) path x.
Proof.
  destruct d as [| | | |items|fields]; cbn [sanitizeData]; inversion 1; subst.
  match goal with H : nth_error (map _ _) _ = _ |- _ =>
    rewrite nth_error_map in H; destruct (nth_error items i) as [v0|] eqn:E; [|discriminate];
    cbn in H; injection H as <- end.
  eauto.
Qed.

(** X13.  In a sanitized body, at any depth, the value under a key that
    contains one of the sensitive words (in any case, anywhere in the key)
    is the text [[REDACTED]]. *)
Theorem no_secret_survives :
  forall d path key v,
    reach (sanitizeData d) (path ++ [Field key]) v ->
    names_secret key ->
    v = REDACTED.
Proof.
  intros d path key v Hreach Hsecret. apply is_sensitive_spec in Hsecret.
  revert d Hreach. induction path as [|[k|i] path IH]; intros d Hreach; cbn [app] in Hreach.
  - apply reach_sanitized_field in Hreach as (fields & v0 & _ & _ & H).
    rewrite Hsecret in H. apply reach_redacted in H as [_ H]. exact H.
  - apply reach_sanitized_field in Hreach as (fields & v0 & _ & _ & H).
    destruct (is_sensitive k).
    + apply reach_redacted in H as [H _]. destruct path; discriminate.
    + apply (IH v0 H).
  - apply reach_sanitized_index in Hreach as (items & v0 & _ & _ & H). apply (IH v0 H).
Qed.

Lemma no_secret_survives_witness :
  reach (sanitizeData profile) ([Field "user"] ++ [Field "Author"]) REDACTED /\
  (forall v, reach (sanitizeData profile) ([Field "user"] ++ [Field "Author"]) v ->
             v = REDACTED).
Proof.
  split.
  - apply (reach_field _ "user" (JObj [("Author", REDACTED); ("password", REDACTED)]));
      [left; reflexivity|].
    apply (reach_field _ "Author" REDACTED); [left; reflexivity | constructor].
  - intros v H. apply (no_secret_survives profile [Field "user"] "Author" v H).
    exists "auth". split; [WebhookFacts.elem|].
    exists EmptyString, "Auth", "or". split; reflexivity.
Defined.

(** X14.  Sanitizing loses nothing else and invents nothing: a value
    reached by a path through keys that name no secret is found, sanitized,
    at the same path; and whatever is found in the sanitized body is the
    sanitized form of what the body has at that path, or the redaction
    text. *)
Theorem sanitize_keeps_the_rest :
  (forall d path v,
     reach d path v -> open_path path -> reach (sanitizeData d) path (sanitizeData v)) /\
  (forall d path v',
     reach (sanitizeData d) path v' ->
     exists v, reach d path v /\ (v' = sanitizeData v \/ v' = REDACTED)).
Proof.
  split.
  - intros d path v Hreach. induction Hreach as [d|fields key v path x Hin Hr IH|items i v path x Hn Hr IH];
      intros Hopen.
    + constructor.
    + cbn [sanitizeData].
      apply (reach_field _ key (sanitizeData v)).
      * apply in_map_iff. exists (key, v). split; [|exact Hin]. cbn [fst snd].
        destruct (is_sensitive key) eqn:Hs; [|reflexivity].
        apply is_sensitive_spec in Hs. destruct (Hopen key); [left; reflexivity | exact Hs].
      * apply IH. intros k Hk. apply Hopen. right. exact Hk.
    + cbn [sanitizeData]. apply (reach_index _ i (sanitizeData v)).
      * rewrite nth_error_map, Hn. reflexivity.
      * apply IH. intros k Hk. apply Hopen. right. exact Hk.
  - intros d path. revert d. induction path as [|[k|i] path IH]; intros d v' Hreach.
    + inversion Hreach; subst. exists d. split; [constructor|left; reflexivity].
    + apply reach_sanitized_field in Hreach as (fields & v0 & -> & Hin & H).
      destruct (is_sensitive k).
      * apply reach_redacted in H as [-> ->]. exists v0. split; [|right; reflexivity].
        apply (reach_field _ k v0); [exact Hin | constructor].
      * destruct (IH _ _ H) as (v & Hv & Hor). exists v. split; [|exact Hor].
        apply (reach_field _ k v0); assumption.
    + apply reach_sanitized_index in Hreach as (items & v0 & -> & Hn & H).
      destruct (IH _ _ H) as (v & Hv & Hor). exists v. split; [|exact Hor].
      apply (reach_index _ i v0); assumption.
Qed.


Lemma sanitize_keeps_the_rest_witness :
  reach (sanitizeData (JObj [("user", JObj [("name", JStr "Ada"); ("token", JStr "t0")])]))
        [Field "user"; Field "name"] (JStr "Ada").
Proof.
  apply (proj1 sanitize_keeps_the_rest
               (JObj [("user", JObj [("name", JStr "Ada"); ("token", JStr "t0")])])
               [Field "user"; Field "name"] (JStr "Ada")).
  - apply (reach_field _ "user" (JObj [("name", JStr "Ada"); ("token", JStr "t0")]));
      [left; reflexivity|].
    apply (reach_field _ "name" (JStr "Ada")); [left; reflexivity | constructor].
  - intros key [E|[E|[]]]; injection E as <-; intros Hs;
      apply is_sensitive_spec in Hs; discriminate.
Defined.

End LoggerFacts.

Module AnchoredFacts.
Import JsString Regex Anchored JsStringFacts HeuristicsFacts Heuristics.

Lemma test_spec r s :
  test r s = true <-> exists m, In m (exec r s) /\ matched m = s /\ rest m = EmptyString.
Proof.
  unfold test. rewrite existsb_exists. split.
  - intros (m & Hin & Hr). apply String.eqb_eq in Hr. exists m. split; [exact Hin|].
    split; [|exact Hr]. rewrite (exec_sound _ _ _ Hin), Hr, append_nil_r. reflexivity.
  - intros (m & Hin & _ & Hr). exists m. split; [exact Hin|]. apply String.eqb_eq, Hr.
Qed.

Lemma matches_eps s : matches Eps s EmptyString s.
Proof. eexists. split; [left; reflexivity|]. auto. Qed.

Lemma matches_chr p c s : p c = true -> matches (Chr p) (String c s) (String c EmptyString) s.
Proof.
  intros Hc. eexists. split; [cbn [exec]; rewrite Hc; left; reflexivity|]. auto.
Qed.

Lemma matches_cat a b s x y r1 r2 :
  matches a s x r1 -> matches b r1 y r2 -> matches (Cat a b) s (x +:+ y) r2.
Proof.
  intros (ma & Ha & <- & <-) (mb & Hb & <- & <-).
  eexists. split.
  - cbn [exec]. apply in_flat_map. exists ma. split; [exact Ha|].
    apply in_map_iff. exists mb. split; [reflexivity | exact Hb].
  - auto.
Qed.

Lemma matches_opt_some a s x r : matches a s x r -> matches (Opt a) s x r.
Proof.
  intros (m & Hin & <- & <-). exists m. split; [|auto]. cbn [exec]. apply in_or_app. auto.
Qed.

Lemma matches_opt_none a s : matches (Opt a) s EmptyString s.
Proof.
  eexists. split; [cbn [exec]; apply in_or_app; right; left; reflexivity|]. auto.
Qed.

Lemma runs_complete p m r :
  m <> EmptyString -> every p m = true -> In (m, r) (runs p (m +:+ r)).
Proof.
  induction m as [|c m IH]; [congruence|]. intros _ H. cbn [every] in H.
  apply andb_true_iff in H as [Hc Hm]. rewrite append_cons. cbn [runs]. rewrite Hc.
  apply in_or_app. destruct m as [|c' m].
  - right. rewrite append_nil. left. reflexivity.
  - left. apply in_map_iff. exists (String c' m, r). split; [reflexivity|].
    apply IH; [discriminate | exact Hm].
Qed.

Lemma matches_plus p m r :
  m <> EmptyString -> every p m = true -> matches (Plus p) (m +:+ r) m r.
Proof.
  intros Hne Hm. eexists. split.
  - cbn [exec]. apply in_map_iff. exists (m, r). split; [reflexivity|].
    apply runs_complete; assumption.
  - auto.
Qed.

Lemma matches_times p x r :
  every p x = true -> matches (times (String.length x) (Chr p)) (x +:+ r) x r.
Proof.
  induction x as [|c x IH]; intros H.
  - rewrite append_nil. apply matches_eps.
  - cbn [every] in H. apply andb_true_iff in H as [Hc Hx].
    cbn [String.length times]. rewrite append_cons.
    change (String c x) with (String c EmptyString +:+ x).
    eapply matches_cat; [apply matches_chr, Hc | apply IH, Hx].
Qed.

Lemma matches_upto p n x r :
  every p x = true -> (String.length x <= n)%nat ->
  matches (upto n (Chr p)) (x +:+ r) x r.
Proof.
  revert x. induction n as [|n IH]; intros x H Hlen.
  - destruct x; [|cbn in Hlen; lia]. rewrite append_nil. apply matches_eps.
  - destruct x as [|c x].
    + rewrite append_nil. cbn [upto]. apply matches_opt_none.
    + cbn [every] in H. apply andb_true_iff in H as [Hc Hx].
      cbn [upto]. apply matches_opt_some. rewrite append_cons.
      change (String c x) with (String c EmptyString +:+ x).
      eapply matches_cat; [apply matches_chr, Hc | apply IH; [exact Hx | cbn in Hlen; lia]].
Qed.

Lemma length_app a b : String.length (a +:+ b) = (String.length a + String.length b)%nat.
Proof.
  induction a as [|c a IH]; [rewrite append_nil; reflexivity|].
  rewrite append_cons. cbn [String.length]. rewrite IH. reflexivity.
Qed.

Lemma in_exec_times p n s m :
  In m (exec (times n (Chr p)) s) ->
  every p (matched m) = true /\ String.length (matched m) = n.
Proof.
  revert s m. induction n as [|n IH]; intros s m Hin.
  - destruct Hin as [<-|[]]. auto.
  - cbn [times] in Hin. apply in_exec_cat in Hin as (ra & rb & Ha & Hb & -> & _).
    apply in_exec_chr in Ha as (c & Hc & -> & _). destruct (IH _ _ Hb) as [H1 H2].
    rewrite append_cons, append_nil. cbn [every String.length]. rewrite Hc, H1, H2. auto.
Qed.

Lemma in_exec_upto p n s m :
  In m (exec (upto n (Chr p)) s) ->
  every p (matched m) = true /\ (String.length (matched m) <= n)%nat.
Proof.
  revert s m. induction n as [|n IH]; intros s m Hin.
  - destruct Hin as [<-|[]]. auto.
  - cbn [upto] in Hin. apply in_exec_opt in Hin as [Hin| ->]; [|split; [reflexivity|cbn; lia]].
    apply in_exec_cat in Hin as (ra & rb & Ha & Hb & -> & _).
    apply in_exec_chr in Ha as (c & Hc & -> & _). destruct (IH _ _ Hb) as [H1 H2].
    rewrite append_cons, append_nil. cbn [every String.length]. rewrite Hc, H1. split; [reflexivity|lia].
Qed.

Lemma test_matches r s : test r s = true <-> matches r s s EmptyString.
Proof. apply test_spec. Qed.

End AnchoredFacts.

Module DemoCallFacts.
Import JsString Regex Anchored RateLimit Traffic DemoCall.
Import JsStringFacts Heuristics HeuristicsFacts RateLimitFacts TrafficFacts AnchoredFacts.
Import WebhookFacts.

Lemma split_digits more :
  (6 <= String.length more)%nat ->
  exists a b, more = a +:+ b /\ String.length a = 6%nat.
Proof.
  intros H.
  do 6 (destruct more as [|? more]; [cbn in H; lia|]).
  eexists (String _ (String _ (String _ (String _ (String _ (String _ EmptyString)))))), more.
  split; reflexivity.
Qed.

Lemma phoneRegex_sound s :
  test phoneRegex s = true ->
  exists digits, international digits /\ (s = digits \/ s = String "+" digits).
Proof.
  rewrite test_matches.
  intros (m & Hin & Hm & Hr). unfold phoneRegex in Hin.
  apply in_exec_cat in Hin as (r1 & r2 & H1 & Hin & E1 & _).
  apply in_exec_cat in Hin as (r3 & r4 & H3 & Hin & E2 & _).
  apply in_exec_cat in Hin as (r5 & r6 & H5 & H6 & E3 & _).
  apply in_exec_chr in H3 as (d & Hd & E4 & _).
  apply in_exec_times in H5 as [A5 L5].
  apply in_exec_upto in H6 as [A6 L6].
  exists (String d (matched r5 +:+ matched r6)). split.
  - exists d, (matched r5 +:+ matched r6). rewrite every_app, A5, A6, length_app, L5.
    repeat split; auto; lia.
  - rewrite <- Hm, E1, E2, E3, E4, append_cons, append_nil.
    apply in_exec_opt in H1 as [H1| ->].
    + apply in_exec_chr in H1 as (c & Hc & -> & _). apply Ascii.eqb_eq in Hc. subst c.
      right. reflexivity.
    + left. reflexivity.
Qed.

Lemma phoneRegex_complete s digits :
  international digits -> s = digits \/ s = String "+" digits ->
  test phoneRegex s = true.
Proof.
  rewrite test_matches.
  intros (d & more & -> & Hd & Hmore & Hlen) Hs.
  destruct (split_digits more ltac:(lia)) as (a & b & -> & La).
  rewrite every_app in Hmore. apply andb_true_iff in Hmore as [Ha Hb].
  rewrite length_app in Hlen.
  assert (Hbody : matches (Cat (Chr nonzero_digit)
                               (Cat (times 6 (Chr is_digit)) (upto 8 (Chr is_digit))))
                          (String d (a +:+ b)) (String d (a +:+ b)) EmptyString).
  { change (String d (a +:+ b)) with (String d EmptyString +:+ (a +:+ b)) at 2.
    eapply matches_cat; [apply matches_chr, Hd|].
    eapply matches_cat.
    - rewrite <- La. apply matches_times, Ha.
    - rewrite <- (append_nil_r b) at 1. apply matches_upto; [exact Hb | lia]. }
  unfold phoneRegex. destruct Hs as [-> | ->].
  - rewrite <- (append_nil (String d (a +:+ b))) at 2.
    eapply matches_cat; [apply matches_opt_none | exact Hbody].
  - change (String "+" (String d (a +:+ b)))
      with (String "+" EmptyString +:+ String d (a +:+ b)) at 2.
    eapply matches_cat; [|exact Hbody].
    apply matches_opt_some, matches_chr. reflexivity.
Qed.

(** X15.  The phone pattern accepts exactly an optional plus sign
    followed by 7 to 15 digits of which the first is not zero. *)
Theorem phoneRegex_spec :
  forall s,
    test phoneRegex s = true <->
    exists digits, international digits /\ (s = digits \/ s = String "+" digits).
Proof.
  intros s. split.
  - apply phoneRegex_sound.
  - intros (digits & Hd & Hs). exact (phoneRegex_complete s digits Hd Hs).
Qed.


Lemma customer_number_dialable cleanedPhone digits :
  international digits ->
  cleanedPhone = digits \/ cleanedPhone = String "+" digits ->
  customer_number cleanedPhone = String "+" digits.
Proof.
  intros (d & more & -> & Hd & _) [-> | ->]; unfold customer_number.
  - cbn [startsWith].
    destruct (Ascii.eqb_spec "+"%char d) as [<-|_]; [discriminate Hd|].
    rewrite append_cons, append_nil. reflexivity.
  - cbn [startsWith]. rewrite Ascii.eqb_refl. reflexivity.
Qed.

Lemma acceptable_dec body :
  acceptable body \/
  (~ acceptable body /\
   (truthy_field (honeypot body) = true \/
    match phoneNumber body with
    | Text p => p = EmptyString \/ test phoneRegex (cleanPhone p) = false
    | _ => True
    end)).
Proof.
  unfold acceptable. destruct (truthy_field (honeypot body)) eqn:Hh.
  { right. split; [intros [? _]; discriminate | left; reflexivity]. }
  destruct (phoneNumber body) as [|p|b] eqn:Hp.
  - right. split; [intros (_ & ? & ? & ? & _); discriminate | right; exact I].
  - destruct (test phoneRegex (cleanPhone p)) eqn:Ht.
    + left. split; [reflexivity|]. apply phoneRegex_sound in Ht as (digits & Hd & Hs).
      exists p, digits. auto.
    + right. split; [|right; right; reflexivity].
      intros (_ & p' & digits & E & Hd & Hs). injection E as <-.
      assert (test phoneRegex (cleanPhone p) = true) by (eapply phoneRegex_complete; eauto).
      congruence.
  - right. split; [intros (_ & ? & ? & ? & _); discriminate | right; exact I].
Qed.

Lemma cleanPhone_nil : cleanPhone EmptyString = EmptyString.
Proof. reflexivity. Qed.

Lemma acceptable_run sur headers body site :
  acceptable body ->
  exists p callRequest,
    phoneNumber body = Text p /\ dialable callRequest /\
    metadata_clientIp callRequest = clientIpOf headers /\
    post_demo_call sur headers body site =
    match provider_reply sur (issued site) with
    | Started id =>
        (mkReply 200 true None (Some id) (Some (cleanPhone p)) None,
         notify sur
           (mkDemoNotice (cleanPhone p) (text_or (name body) "Not provided") (clientIpOf headers)
                         (text_or (source body) "landing_page_demo") id)
           (save_log sur
              (mkCallLog id (cleanPhone p) (text_or (name body) "Demo User")
                         (text_or (source body) "landing_page_demo") (clientIpOf headers)
                         (isoNow sur (S (issued site))))
              (place callRequest site)))
    | HttpError code message =>
        (if code =? 400 then
           if includes (text_or message EmptyString) "international calls"
           then mkReply 400 false (Some "International calls not supported") None None None
           else mkReply 400 false (Some "Invalid phone number") None None None
         else if code =? 429 then mkReply 429 false (Some "Rate limit exceeded") None None None
         else mkReply 500 false (Some "Demo call failed") None None None,
         place callRequest site)
    | NoResponse =>
        (mkReply 500 false (Some "Demo call failed") None None None, place callRequest site)
    end.
Proof.
  intros (Hh & p & digits & Hp & Hd & Hs).
  assert (Ht : test phoneRegex (cleanPhone p) = true) by (eapply phoneRegex_complete; eauto).
  assert (Hne : String.eqb p EmptyString = false).
  { apply String.eqb_neq. intros ->. rewrite cleanPhone_nil in Hs.
    destruct Hd as (d & more & -> & _). destruct Hs; discriminate. }
  exists p. eexists. split; [exact Hp|]. split; [|split]; cycle 2.
  - unfold post_demo_call. rewrite Hh, Hp, Hne, Ht. cbn [negb].
    destruct (provider_reply sur (issued site)) as [id|code message|]; [reflexivity| |reflexivity].
    destruct (code =? 400); [destruct (includes _ _); reflexivity|].
    destruct (code =? 429); reflexivity.
  - exists digits. cbn [number]. split; [|exact Hd]. apply customer_number_dialable; assumption.
  - reflexivity.
Qed.

Lemma unacceptable_run sur sur' headers body site :
  ~ acceptable body ->
  exists error,
    post_demo_call sur headers body site = (bad_request error, site) /\
    post_demo_call sur' headers body site = (bad_request error, site).
Proof.
  intros Hn. destruct (acceptable_dec body) as [H|[_ H]]; [contradiction|].
  unfold post_demo_call. destruct H as [H|H].
  - rewrite H. eauto.
  - destruct (truthy_field (honeypot body)); [eauto|].
    destruct (phoneNumber body) as [|p|b]; [eauto| |eauto].
    destruct H as [-> |H]; [cbn; eauto|].
    destruct (String.eqb p EmptyString); [eauto|]. rewrite H. cbn [negb]. eauto.
Qed.

Lemma requests_save_log sur row site :
  provider_requests (save_log sur row site) = provider_requests site /\
  rateLimitStore (save_log sur row site) = rateLimitStore site.
Proof. unfold save_log. destruct (log_reply sur (issued site)); auto. Qed.

Lemma requests_notify sur notice site :
  provider_requests (notify sur notice site) = provider_requests site /\
  rateLimitStore (notify sur notice site) = rateLimitStore site.
Proof. auto. Qed.



(** X17.  The demo handler answers 200 exactly for an acceptable body whose
    call the provider created, with the provider's call identifier and the
    cleaned number; its status is one of 200, 400, 429 and 500; and the
    answer does not depend on whether the log row was written or the
    notification sent. *)
Theorem demo_call_reply_follows_provider :
  forall sur headers body site,
    let reply := fst (post_demo_call sur headers body site) in
    (status reply = 200 <->
     acceptable body /\ exists id, provider_reply sur (issued site) = Started id) /\
    (forall id p,
       status reply = 200 -> provider_reply sur (issued site) = Started id ->
       phoneNumber body = Text p ->
       callId reply = Some id /\ phone reply = Some (cleanPhone p)) /\
    status reply ∈ [200; 400; 429; 500] /\
    (forall sur',
       provider_reply sur' (issued site) = provider_reply sur (issued site) ->
       fst (post_demo_call sur' headers body site) = reply).
Proof.
  intros sur headers body site. cbv zeta.
  destruct (acceptable_dec body) as [H|[H _]].
  - destruct (acceptable_run sur headers body site H) as (p & cr & Hp & _ & _ & Hrun).
    rewrite Hrun. split; [|split; [|split]].
    + destruct (provider_reply sur (issued site)) as [id|code message|]; cbn [fst status].
      * split; [eauto|reflexivity].
      * split; [|intros (_ & ? & ?); discriminate].
        destruct (code =? 400); [destruct (includes _ _)|destruct (code =? 429)];
          cbn [status]; discriminate.
      * split; [discriminate | intros (_ & ? & ?); discriminate].
    + intros id p' _ Hr Hp'. rewrite Hr. rewrite Hp in Hp'. injection Hp' as <-. auto.
    + destruct (provider_reply sur (issued site)) as [id|code message|]; cbn [fst status];
        [elem| |elem].
      destruct (code =? 400); [destruct (includes _ _)|destruct (code =? 429)];
        cbn [status]; elem.
    + intros sur' Hsame.
      destruct (acceptable_run sur' headers body site H) as (p' & cr' & Hp' & _ & _ & Hrun').
      rewrite Hrun', Hsame. rewrite Hp in Hp'. injection Hp' as <-.
      destruct (provider_reply sur (issued site)); reflexivity.
  - split; [|split; [|split]].
    + destruct (unacceptable_run sur sur headers body site H) as (e & -> & _).
      split; [discriminate | intros [Ha _]; contradiction].
    + destruct (unacceptable_run sur sur headers body site H) as (e & -> & _). discriminate.
    + destruct (unacceptable_run sur sur headers body site H) as (e & -> & _). elem.
    + intros sur' _.
      destruct (unacceptable_run sur sur' headers body site H) as (e & -> & ->). reflexivity.
Qed.


(** *** The route behind its limiter *)

Lemma post_demo_call_frame sur headers body site :
  rateLimitStore (snd (post_demo_call sur headers body site)) = rateLimitStore site /\
  (length (provider_requests (snd (post_demo_call sur headers body site)))
   <= S (length (provider_requests site)))%nat.
Proof.
  destruct (acceptable_dec body) as [H|[H _]].
  - destruct (acceptable_run sur headers body site H) as (p & cr & _ & _ & _ & ->).
    destruct (provider_reply sur (issued site)); cbn [snd];
      rewrite ?(proj1 (requests_notify _ _ _)), ?(proj2 (requests_notify _ _ _)),
              ?(proj1 (requests_save_log _ _ _)), ?(proj2 (requests_save_log _ _ _));
      cbn; auto.
  - destruct (unacceptable_run sur sur headers body site H) as (e & -> & _). cbn. auto.
Qed.

Lemma demo_call_route_spec sur headers body now site :
  let verdict := snd (rateLimiter demoCallRateLimiter headers now (rateLimitStore site)) in
  let reply := fst (demo_call_route sur headers body now site) in
  let site' := snd (demo_call_route sur headers body now site) in
  rateLimitStore site'
  = fst (rateLimiter demoCallRateLimiter headers now (rateLimitStore site)) /\
  (length (provider_requests site')
   <= length (provider_requests site) + (if admitted verdict then 1 else 0))%nat /\
  (admitted verdict = false ->
   status reply = 429 /\ error reply = Some "Too Many Requests" /\
   provider_requests site' = provider_requests site).
Proof.
  cbv zeta. unfold demo_call_route.
  destruct (rateLimiter demoCallRateLimiter headers now (rateLimitStore site)) as [store v].
  cbn [fst snd]. destruct v as [limit remaining reset|resetIn]; cbn [admitted fst snd].
  - destruct (post_demo_call_frame sur headers body (with_store store site)) as [H1 H2].
    rewrite H1. cbn [with_store rateLimitStore provider_requests] in *.
    split; [reflexivity|]. split; [lia | discriminate].
  - cbn. split; [reflexivity|]. split; [lia|auto].
Qed.

Lemma visits_cons sur headers body now more site :
  visits sur ((headers, body, now) :: more) site
  = (fst (demo_call_route sur headers body now site)
       :: fst (visits sur more (snd (demo_call_route sur headers body now site))),
     snd (visits sur more (snd (demo_call_route sur headers body now site)))).
Proof.
  cbn [visits]. destruct (demo_call_route sur headers body now site) as [reply site1].
  cbn [fst snd]. destruct (visits sur more site1). reflexivity.
Qed.

Lemma visits_spec sur arrivals site :
  let verdicts := snd (serve demoCallRateLimiter (knocks arrivals) (rateLimitStore site)) in
  let replies := fst (visits sur arrivals site) in
  let site' := snd (visits sur arrivals site) in
  (length (provider_requests site') <= length (provider_requests site) + passes verdicts)%nat /\
  Forall2 (fun v reply =>
             admitted v = false ->
             status reply = 429 /\ error reply = Some "Too Many Requests")
          verdicts replies.
Proof.
  cbv zeta. revert site. induction arrivals as [|[[headers body] now] more IH]; intros site.
  - cbn. split; [lia | constructor].
  - rewrite visits_cons. cbn [knocks map fst snd]. fold (knocks more).
    rewrite serve_cons. cbn [fst snd].
    destruct (demo_call_route_spec sur headers body now site) as (Hs & Hl & Hr).
    cbv zeta in Hs, Hl, Hr.
    destruct (IH (snd (demo_call_route sur headers body now site))) as [IH1 IH2].
    rewrite Hs in IH1, IH2. split.
    + rewrite passes_cons. lia.
    + constructor; [|exact IH2]. intros Hv. destruct (Hr Hv) as (? & ? & _). auto.
Qed.

Lemma first_pass_lookup n len i b :
  first_pass n len !! i = Some b -> b = (Z.of_nat (S i) <=? n).
Proof.
  unfold first_pass. rewrite list_lookup_fmap. intros H.
  destruct (seq 1 len !! i) as [k|] eqn:Hk; [|discriminate]. cbn in H. injection H as <-.
  apply lookup_seq in Hk as [-> _]. reflexivity.
Qed.

(** X18.  Behind its limiter the demo route asks the provider for at most
    three calls per client key and hour: of the requests of one key within
    an hour of the first, those after the third are answered 429 by the
    limiter, whatever their bodies -- requests the handler rejects use up
    the budget as well. *)
Theorem demo_call_budget :
  forall sur headers body now more site,
    no_window (rateLimitStore site) (key_of headers) now ->
    within (key_of headers) (now + 3600000) (knocks more) ->
    let replies := fst (visits sur ((headers, body, now) :: more) site) in
    let site' := snd (visits sur ((headers, body, now) :: more) site) in
    (length (provider_requests site') <= length (provider_requests site) + 3)%nat /\
    (forall i reply,
       (3 <= i)%nat -> replies !! i = Some reply ->
       status reply = 429 /\ error reply = Some "Too Many Requests").
Proof.
  intros sur headers body now more site Hfresh Hwithin. cbv zeta.
  destruct (visits_spec sur ((headers, body, now) :: more) site) as [Hlen Hall].
  cbv zeta in Hlen, Hall. cbn [knocks map fst snd] in Hlen, Hall. fold (knocks more) in Hlen, Hall.
  destruct (serve_window demoCallRateLimiter (rateLimitStore site) headers now (knocks more)
              Hfresh Hwithin) as [Hpass _].
  set (verdicts := snd (serve demoCallRateLimiter ((headers, now) :: knocks more)
                              (rateLimitStore site))) in *.
  assert (Hn : length verdicts = S (length (knocks more))) by apply serve_length.
  rewrite <- Hn in Hpass. split.
  - pose proof (passes_first_pass verdicts _ Hpass) as Hp. cbn [maxRequests demoCallRateLimiter] in Hp. lia.
  - intros i reply Hi Hreply.
    destruct (Forall2_lookup_r _ _ _ _ _ Hall Hreply) as (v & Hv & Himp).
    apply Himp. assert (Hb : map admitted verdicts !! i = Some (admitted v)).
    { change (map admitted verdicts) with (admitted <$> verdicts).
      rewrite list_lookup_fmap, Hv. reflexivity. }
    rewrite Hpass in Hb. apply first_pass_lookup in Hb. rewrite Hb.
    apply Z.leb_gt. cbn. lia.
Qed.


Lemma caller_acceptable : acceptable caller.
Proof.
  split; [reflexivity|]. exists "+1 (415) 555-1234", "14155551234".
  split; [reflexivity|]. split; [|right; reflexivity].
  exists "1"%char, "4155551234". repeat split; cbn; lia.
Qed.

Lemma demo_call_reply_follows_provider_witness :
  status (fst (post_demo_call calm visitor caller opening)) = 200.
Proof.
  pose proof (demo_call_reply_follows_provider calm visitor caller opening) as H.
  cbv zeta in H. destruct H as [[_ H] _]. apply H.
  split; [apply caller_acceptable | exists "call-1"; reflexivity].
Defined.

Lemma demo_call_budget_witness :
  (length (provider_requests
             (snd (visits calm
                     [(visitor, caller, 0%Z); (visitor, caller, 10%Z);
                      (visitor, caller, 20%Z); (visitor, caller, 30%Z)] opening)))
   <= length (provider_requests opening) + 3)%nat.
Proof.
  pose proof (demo_call_budget calm visitor caller 0
                [(visitor, caller, 10); (visitor, caller, 20); (visitor, caller, 30)] opening)
    as H.
  cbv zeta in H. apply H.
  - apply empty_no_window.
  - unfold within. cbn [knocks map fst snd]. repeat constructor; cbn; lia.
Defined.

End DemoCallFacts.

Module DeliveryFacts.
Import JsNum JsString Leads World Services Webhook Delivery.
Import ServicesFacts WebhookFacts.
Local Open Scope js_scope.

Lemma dispatch_eq event w : dispatch event w = (inr tt, dispatch_effect event w).
Proof.
  unfold dispatch, dispatch_effect.
  destruct (String.eqb (type event) "call.ended").
  { rewrite handleCallEnded_eq. destruct (call event) as [c|]; [|reflexivity].
    destruct (truthy_str _); reflexivity. }
  destruct (String.eqb (type event) "call.started").
  { rewrite handleCallStarted_eq. destruct (call event) as [c|]; [|reflexivity].
    destruct (truthy_str _); reflexivity. }
  destruct (String.eqb (type event) "call.failed").
  { rewrite handleCallFailed_eq. destruct (call event) as [c|]; [|reflexivity].
    destruct (truthy_str _); reflexivity. }
  destruct (String.eqb (type event) "transcript");
    destruct (call event) as [c|]; try reflexivity;
    destruct (truthy_str _); reflexivity.
Qed.

Lemma vapi_webhook_eq event w : vapi_webhook event w = (inr ok_response, delivery event w).
Proof. apply webhook_route_returns, dispatch_eq. Qed.


(** *** What each step leaves alone *)

Lemma saved_world_eq event w :
  saved_world event w
  = match db_up (env w) (step w) with
    | Up => with_db (insert_event (next_event_id (db w)) (incoming event)) (tick w)
    | Refused | Down => tick w
    end.
Proof.
  unfold saved_world. rewrite saveWebhookEvent_eq. destruct (db_up _ _); reflexivity.
Qed.

Lemma saved_world_frame event w :
  env (saved_world event w) = env w /\
  step (saved_world event w) = S (step w) /\
  calls (db (saved_world event w)) = calls (db w) /\
  leads (db (saved_world event w)) = leads (db w) /\
  next_lead_id (db (saved_world event w)) = next_lead_id (db w) /\
  outbox (saved_world event w) = outbox w /\
  payment_requests (saved_world event w) = payment_requests w /\
  journal (saved_world event w) = journal w.
Proof.
  rewrite saved_world_eq. destruct (db_up _ _); cbn; auto 10.
Qed.

Lemma marked_frame saved msg w :
  env (marked saved msg w) = env w /\
  calls (db (marked saved msg w)) = calls (db w) /\
  leads (db (marked saved msg w)) = leads (db w) /\
  next_lead_id (db (marked saved msg w)) = next_lead_id (db w) /\
  next_event_id (db (marked saved msg w)) = next_event_id (db w) /\
  outbox (marked saved msg w) = outbox w /\
  payment_requests (marked saved msg w) = payment_requests w /\
  journal (marked saved msg w) = journal w.
Proof.
  unfold marked. destruct saved as [id|]; [|auto 10].
  unfold db_effect. destruct (db_up _ _); cbn; auto 10.
Qed.

Lemma call_update_frame u id w :
  let w' := db_effect (alter_call (apply_updates u) id) w in
  env w' = env w /\
  (calls (db w') = calls (db w) \/ calls (db w') = alter (apply_updates u) id (calls (db w))) /\
  leads (db w') = leads (db w) /\
  webhook_events (db w') = webhook_events (db w) /\
  next_lead_id (db w') = next_lead_id (db w) /\
  next_event_id (db w') = next_event_id (db w) /\
  outbox w' = outbox w /\ payment_requests w' = payment_requests w /\ journal w' = journal w.
Proof.
  cbv zeta. unfold db_effect. destruct (db_up _ _); cbn; auto 12.
Qed.

(** The calls table after the processing of an event: as before, or with
    the row of the event's call patched. *)
Lemma dispatch_calls event w :
  calls (db (dispatch_effect event w)) = calls (db w) \/
  exists c u, of_user event c /\
              calls (db (dispatch_effect event w))
              = alter (apply_updates u) (call_id c) (calls (db w)).
Proof.
  unfold dispatch_effect. destruct (call event) as [c|] eqn:Hc; [|auto].
  destruct (truthy_str (metadata_userId c)) eqn:Hu; [|auto].
  assert (Hof : of_user event c) by (split; assumption).
  destruct (String.eqb (type event) "call.ended").
  { unfold call_ended_effect.
    destruct (call_update_frame (ended_updates c) (call_id c) w) as (_ & Hcalls & _).
    cbv zeta in Hcalls.
    destruct (truthy_str (call_transcript c)).
    - destruct (lead_pipeline_frame (string_or_default (metadata_userId c)) (call_id c)
                  (string_or_default (call_transcript c)) (customer_number c)
                  (db_effect (alter_call (apply_updates (ended_updates c)) (call_id c)) w))
        as (_ & -> & _).
      destruct Hcalls as [->| ->]; eauto.
    - destruct Hcalls as [->| ->]; eauto. }
  destruct (String.eqb (type event) "call.started").
  { destruct (call_update_frame started_updates (call_id c) w) as (_ & [->| ->] & _); eauto. }
  destruct (String.eqb (type event) "call.failed"); [|auto].
  unfold call_failed_effect. through.
  destruct (call_update_frame failed_updates (call_id c) w) as (_ & [H|H] & _);
    cbv zeta in H; unfold failed_updates in H; rewrite H; eauto.
Qed.

Lemma delivery_calls event w :
  calls (db (delivery event w)) = calls (db w) \/
  exists c u, of_user event c /\
              calls (db (delivery event w)) = alter (apply_updates u) (call_id c) (calls (db w)).
Proof.
  unfold delivery.
  destruct (marked_frame (saved_id event w) None (dispatch_effect event (saved_world event w)))
    as (_ & -> & _).
  destruct (saved_world_frame event w) as (_ & _ & Hc & _).
  destruct (dispatch_calls event (saved_world event w)) as [H|(c & u & Hof & H)];
    rewrite H, Hc; eauto.
Qed.

(** X19.  A webhook delivery never creates or deletes a call row, never
    changes the user or the caller phone of a row, and leaves every row
    other than the one of the event's call as it was. *)
Theorem webhook_keeps_call_identity :
  forall event w,
  exists w',
    vapi_webhook event w = (inr ok_response, w') /\
    (forall id, calls (db w') !! id = None <-> calls (db w) !! id = None) /\
    (forall id row',
       calls (db w') !! id = Some row' ->
       exists row,
         calls (db w) !! id = Some row /\
         user_id row' = user_id row /\ caller_phone row' = caller_phone row /\
         (row' = row \/ exists c, of_user event c /\ call_id c = id)).
Proof.
  intros event w. exists (delivery event w). split; [apply vapi_webhook_eq|].
  destruct (delivery_calls event w) as [->|(c & u & Hof & ->)].
  - split; [tauto|]. intros id row' H. exists row'. auto.
  - split.
    + intros id. destruct (decide (call_id c = id)) as [<-|Hne].
      * rewrite lookup_alter_eq. destruct (calls (db w) !! call_id c); cbn; split; congruence.
      * rewrite lookup_alter_ne by exact Hne. tauto.
    + intros id row'. destruct (decide (call_id c = id)) as [<-|Hne].
      * rewrite lookup_alter_eq. destruct (calls (db w) !! call_id c) as [row|]; [|discriminate].
        cbn. intros [= <-]. exists row. split; [reflexivity|]. cbn. eauto 6.
      * rewrite lookup_alter_ne by exact Hne. intros H. exists row'. auto.
Qed.


(** *** The append-only tables *)

Lemma patched_refl {A} id (m : gmap nat A) : patched id m m.
Proof. split; tauto. Qed.

Lemma patched_trans {A} id (a b c : gmap nat A) :
  patched id a b -> patched id b c -> patched id a c.
Proof.
  intros [H1 H2] [H3 H4]. split.
  - intros id' Hne. rewrite H3, H1 by exact Hne. reflexivity.
  - tauto.
Qed.

Lemma patched_alter {A} (f : A -> A) id (m : gmap nat A) : patched id m (alter f id m).
Proof.
  split.
  - intros id' Hne. apply lookup_alter_ne. congruence.
  - rewrite lookup_alter_eq. destruct (m !! id); cbn; split; congruence.
Qed.

Lemma lead_update_frame f id w :
  patched id (leads (db w)) (leads (db (db_effect (alter_lead f id) w))).
Proof.
  unfold db_effect. destruct (db_up _ _); cbn; first [apply patched_alter | apply patched_refl].
Qed.

Lemma after_save_leads lead_id lead transcript phoneNumber w :
  let w' := after_save lead_id lead transcript phoneNumber w in
  patched lead_id (leads (db w)) (leads (db w')) /\
  next_lead_id (db w') = next_lead_id (db w).
Proof.
  unfold after_save.
  set (w2 := telegram_effect _ _).
  set (w3 := db_effect _ w2).
  assert (H3 : patched lead_id (leads (db w)) (leads (db w3)) /\
               next_lead_id (db w3) = next_lead_id (db w)).
  { split.
    - pose proof (lead_update_frame (set_notified (clock (env w2))) lead_id w2) as H.
      fold w3 in H. subst w2. revert H. through. auto.
    - destruct (db_effect_lead_frame (set_notified (clock (env w2))) lead_id w2)
        as (_ & _ & _ & Hn). fold w3 in Hn. rewrite Hn. subst w2. through. reflexivity. }
  destruct (wants_payment_link transcript); [|exact H3].
  set (w4 := record_call _ w3). set (w5 := gateway_effect _ w4).
  assert (H5 : patched lead_id (leads (db w)) (leads (db w5)) /\
               next_lead_id (db w5) = next_lead_id (db w)).
  { subst w5 w4. through. exact H3. }
  destruct (gateway_link w4) as [link|]; [|exact H5].
  through. split.
  - eapply patched_trans; [exact (proj1 H5) | apply lead_update_frame].
  - destruct (db_effect_lead_frame (set_payment link pending) lead_id w5) as (_ & _ & _ & Hn).
    rewrite Hn. exact (proj2 H5).
Qed.

(** The leads table after the pipeline: one row more under the next
    identifier, or as before. *)
Lemma lead_pipeline_leads userId callId transcript phoneNumber w :
  let w' := lead_pipeline userId callId transcript phoneNumber w in
  (leads (db w') = leads (db w) /\ next_lead_id (db w') = next_lead_id (db w)) \/
  (db_up (env w) (step w) = Up /\
   next_lead_id (db w') = S (next_lead_id (db w)) /\
   exists stored,
     leads (db w') !! next_lead_id (db w) = Some stored /\
     forall id, id <> next_lead_id (db w) -> leads (db w') !! id = leads (db w) !! id).
Proof.
  cbv zeta. unfold lead_pipeline. destruct (db_up (env w) (step w)); [|left; auto..].
  right. split; [reflexivity|].
  destruct (after_save_leads (next_lead_id (db w))
              (lead_of userId callId transcript phoneNumber) transcript phoneNumber
              (with_db (insert_lead (next_lead_id (db w))
                          (lead_of userId callId transcript phoneNumber)) (tick w)))
    as ([Hother Hsame] & Hn).
  cbv zeta in Hother, Hsame, Hn. revert Hother Hsame Hn. through. intros Hother Hsame Hn.
  split; [exact Hn|].
  rewrite lookup_insert_eq in Hsame.
  destruct (leads _ !! next_lead_id (db w)) as [stored|] eqn:Hs.
  - exists stored. split; [reflexivity|]. intros id Hne.
    rewrite Hother by exact Hne. apply lookup_insert_ne. congruence.
  - destruct Hsame as [Hsame _]. specialize (Hsame eq_refl). discriminate.
Qed.

Lemma dispatch_frame event w :
  let w' := dispatch_effect event w in
  env w' = env w /\
  webhook_events (db w') = webhook_events (db w) /\
  next_event_id (db w') = next_event_id (db w).
Proof.
  cbv zeta. unfold dispatch_effect. destruct (call event) as [c|]; [|auto].
  destruct (truthy_str (metadata_userId c)); [|auto].
  destruct (String.eqb (type event) "call.ended").
  { unfold call_ended_effect.
    destruct (call_update_frame (ended_updates c) (call_id c) w)
      as (He & _ & _ & Hw & _ & Hn & _).
    cbv zeta in He, Hw, Hn.
    destruct (truthy_str (call_transcript c)); [|auto].
    destruct (lead_pipeline_frame (string_or_default (metadata_userId c)) (call_id c)
                (string_or_default (call_transcript c)) (customer_number c)
                (db_effect (alter_call (apply_updates (ended_updates c)) (call_id c)) w))
      as (-> & _ & -> & ->). auto. }
  destruct (String.eqb (type event) "call.started").
  { destruct (call_update_frame started_updates (call_id c) w)
      as (He & _ & _ & Hw & _ & Hn & _). auto. }
  destruct (String.eqb (type event) "call.failed"); [|auto].
  unfold call_failed_effect. through.
  destruct (call_update_frame failed_updates (call_id c) w)
    as (He & _ & _ & Hw & _ & Hn & _). auto.
Qed.

(** The leads table after the processing of an event. *)
Lemma dispatch_leads event w :
  let w' := dispatch_effect event w in
  (leads (db w') = leads (db w) /\ next_lead_id (db w') = next_lead_id (db w)) \/
  (type event = "call.ended" /\
   (exists c, of_user event c /\ truthy_str (call_transcript c) = true) /\
   next_lead_id (db w') = S (next_lead_id (db w)) /\
   exists stored,
     leads (db w') !! next_lead_id (db w) = Some stored /\
     forall id, id <> next_lead_id (db w) -> leads (db w') !! id = leads (db w) !! id).
Proof.
  cbv zeta. unfold dispatch_effect. destruct (call event) as [c|] eqn:Hc; [|auto].
  destruct (truthy_str (metadata_userId c)) eqn:Hu; [|auto].
  destruct (String.eqb_spec (type event) "call.ended") as [Ht|_].
  { unfold call_ended_effect.
    destruct (call_update_frame (ended_updates c) (call_id c) w)
      as (_ & _ & Hl & _ & Hn & _).
    cbv zeta in Hl, Hn.
    destruct (truthy_str (call_transcript c)) eqn:Htr; [|auto].
    destruct (lead_pipeline_leads (string_or_default (metadata_userId c)) (call_id c)
                (string_or_default (call_transcript c)) (customer_number c)
                (db_effect (alter_call (apply_updates (ended_updates c)) (call_id c)) w))
      as [[H1 H2]|(_ & H1 & stored & H2 & H3)]; cbv zeta in *.
    - left. rewrite H1, H2. auto.
    - right. split; [exact Ht|]. split; [exists c; repeat split; assumption|].
      rewrite H1, Hn. split; [reflexivity|]. exists stored. rewrite <- Hn, <- Hl. auto. }
  destruct (String.eqb (type event) "call.started").
  { destruct (call_update_frame started_updates (call_id c) w) as (_ & _ & Hl & _ & Hn & _).
    auto. }
  destruct (String.eqb (type event) "call.failed"); [|auto].
  unfold call_failed_effect. through.
  destruct (call_update_frame failed_updates (call_id c) w) as (_ & _ & Hl & _ & Hn & _).
  auto.
Qed.

(** X20.  The event log and the leads are append-only across deliveries:
    starting from a state in which unused identifiers name no row, a
    delivery keeps every stored event row and every stored lead as it was,
    adds at most one row to each table, and leaves a state of the same
    kind. *)
Theorem webhook_tables_append_only :
  forall event w,
    fresh_ids w ->
    exists w',
      vapi_webhook event w = (inr ok_response, w') /\
      fresh_ids w' /\
      (forall id row, webhook_events (db w) !! id = Some row ->
                      webhook_events (db w') !! id = Some row) /\
      (forall id lead, leads (db w) !! id = Some lead -> leads (db w') !! id = Some lead) /\
      (next_event_id (db w) <= next_event_id (db w') <= S (next_event_id (db w)))%nat /\
      (next_lead_id (db w) <= next_lead_id (db w') <= S (next_lead_id (db w)))%nat.
Proof.
  intros event w [Hfe Hfl]. exists (delivery event w). split; [apply vapi_webhook_eq|].
  unfold delivery.
  set (w1 := saved_world event w). set (w2 := dispatch_effect event w1).
  destruct (saved_world_frame event w) as (_ & _ & _ & Hl1 & Hn1 & _). fold w1 in Hl1, Hn1.
  destruct (dispatch_frame event w1) as (_ & He2 & Hne2). fold w2 in He2, Hne2.
  destruct (marked_frame (saved_id event w) None w2) as (_ & _ & Hl3 & Hn3 & Hne3 & _).
  (* the event rows *)
  assert (Hev : (webhook_events (db (marked (saved_id event w) None w2))
                 = webhook_events (db w) /\
                 next_event_id (db (marked (saved_id event w) None w2)) = next_event_id (db w)) \/
                (next_event_id (db (marked (saved_id event w) None w2))
                 = S (next_event_id (db w)) /\
                 patched (next_event_id (db w))
                         (<[next_event_id (db w) := incoming event]> (webhook_events (db w)))
                         (webhook_events (db (marked (saved_id event w) None w2))))).
  { rewrite Hne3, Hne2. unfold marked, saved_id. subst w1. rewrite saved_world_eq in *.
    destruct (db_up (env w) (step w)).
    - right. cbn. split; [reflexivity|].
      unfold db_effect. destruct (db_up _ _); cbn; rewrite He2; cbn;
        first [apply patched_alter | apply patched_refl].
    - left. rewrite He2. cbn. auto.
    - left. rewrite He2. cbn. auto. }
  (* the leads *)
  assert (Hld : (leads (db w2) = leads (db w) /\ next_lead_id (db w2) = next_lead_id (db w)) \/
                (next_lead_id (db w2) = S (next_lead_id (db w)) /\
                 exists stored,
                   leads (db w2) !! next_lead_id (db w) = Some stored /\
                   forall id, id <> next_lead_id (db w) -> leads (db w2) !! id = leads (db w) !! id)).
  { destruct (dispatch_leads event w1) as [[H1 H2]|(_ & _ & H1 & stored & H2 & H3)];
      fold w2 in H1, H2; rewrite ?Hl1, ?Hn1 in *.
    - left. auto.
    - right. split; [exact H1|]. exists stored. split; [exact H2|].
      intros id Hne. fold w2 in H3. apply H3, Hne. }
  rewrite Hl3, Hn3.
  split; [split|split; [|split; [|split]]].
  - intros id Hid. destruct Hev as [[-> Hn]|[Hn [Ho Hs]]]; rewrite Hn in Hid.
    + apply Hfe, Hid.
    + rewrite Ho by lia. rewrite lookup_insert_ne by lia. apply Hfe. lia.
  - intros id Hid. rewrite Hl3. rewrite Hn3 in Hid.
    destruct Hld as [[-> Hn]|(Hn & stored & _ & Ho)]; rewrite Hn in Hid.
    + apply Hfl, Hid.
    + rewrite Ho by lia. apply Hfl. lia.
  - intros id row Hrow. destruct Hev as [[-> _]|[_ [Ho _]]]; [exact Hrow|].
    assert (id <> next_event_id (db w)).
    { intros ->. rewrite Hfe in Hrow by lia. discriminate. }
    rewrite Ho by assumption. rewrite lookup_insert_ne by congruence. exact Hrow.
  - intros id lead Hlead. destruct Hld as [[-> _]|(_ & stored & _ & Ho)]; [exact Hlead|].
    assert (id <> next_lead_id (db w)).
    { intros ->. rewrite Hfl in Hlead by lia. discriminate. }
    rewrite Ho by assumption. exact Hlead.
  - destruct Hev as [[_ ->]|[-> _]]; lia.
  - destruct Hld as [[_ ->]|[-> _]]; lia.
Qed.


(** *** Effects and their causes *)

Lemma alter_absent {A} (f : A -> A) (id : string) (m : gmap string A) :
  m !! id = None -> alter f id m = m.
Proof.
  intros H. apply map_eq. intros k. destruct (decide (id = k)) as [<-|Hne].
  - rewrite lookup_alter_eq, H. reflexivity.
  - apply lookup_alter_ne. exact Hne.
Qed.

Lemma call_update_quiet u id w :
  let w' := db_effect (alter_call (apply_updates u) id) w in
  calls (db w') = calls (db w) \/ calls (db w) !! id <> None.
Proof.
  cbv zeta. destruct (calls (db w) !! id) eqn:H; [right; discriminate|]. left.
  destruct (call_update_frame u id w) as (_ & [Hc|Hc] & _); cbv zeta in Hc; rewrite Hc;
    [reflexivity | apply alter_absent, H].
Qed.

Lemma dispatch_causes event w :
  let w' := dispatch_effect event w in
  ((leads (db w') = leads (db w) /\ payment_requests w' = payment_requests w) \/
   (type event = "call.ended" /\
    exists c, of_user event c /\ truthy_str (call_transcript c) = true)) /\
  ((outbox w' = outbox w /\ journal w' = journal w) \/
   ((type event = "call.ended" \/ type event = "call.failed") /\ exists c, of_user event c)) /\
  (calls (db w') = calls (db w) \/
   ((type event = "call.ended" \/ type event = "call.started" \/ type event = "call.failed") /\
    exists c, of_user event c /\ calls (db w) !! call_id c <> None)).
Proof.
  cbv zeta. unfold dispatch_effect. destruct (call event) as [c|] eqn:Hc; [|auto].
  destruct (truthy_str (metadata_userId c)) eqn:Hu; [|auto].
  assert (Hof : of_user event c) by (split; assumption).
  destruct (String.eqb_spec (type event) "call.ended") as [Ht|_].
  { split; [|split].
    - unfold call_ended_effect.
      destruct (truthy_str (call_transcript c)) eqn:Htr; [right; eauto|].
      left. destruct (call_update_frame (ended_updates c) (call_id c) w)
        as (_ & _ & Hl & _ & _ & _ & _ & Hp & _). auto.
    - right. eauto.
    - unfold call_ended_effect.
      assert (Hcalls : calls (db (call_ended_effect c w))
                       = calls (db (db_effect (alter_call (apply_updates (ended_updates c))
                                                          (call_id c)) w))).
      { unfold call_ended_effect. destruct (truthy_str (call_transcript c)); [|reflexivity].
        apply lead_pipeline_frame. }
      unfold call_ended_effect in Hcalls. rewrite Hcalls.
      destruct (call_update_quiet (ended_updates c) (call_id c) w); eauto 8. }
  destruct (String.eqb_spec (type event) "call.started") as [Ht|_].
  { destruct (call_update_frame started_updates (call_id c) w)
      as (_ & _ & Hl & _ & _ & _ & Ho & Hp & Hj).
    split; [auto|]. split; [auto|].
    destruct (call_update_quiet started_updates (call_id c) w); eauto 8. }
  destruct (String.eqb_spec (type event) "call.failed") as [Ht|_]; [|auto].
  unfold call_failed_effect. through.
  destruct (call_update_frame failed_updates (call_id c) w)
    as (_ & _ & Hl & _ & _ & _ & Ho & Hp & Hj).
  split; [auto|]. split; [right; eauto|].
  destruct (call_update_quiet failed_updates (call_id c) w); eauto 8.
Qed.

(** X21.  Effects need a cause: a delivery changes the leads or asks the
    payment gateway only for a [call.ended] event of a call with a user
    and a non-empty transcript; it notifies only for an ended or failed
    call with a user; and it changes a call row only for an ended, started
    or failed call with a user whose row exists. *)
Theorem effects_need_a_cause :
  forall event w,
  exists w',
    vapi_webhook event w = (inr ok_response, w') /\
    (leads (db w') <> leads (db w) \/ payment_requests w' <> payment_requests w ->
     type event = "call.ended" /\
     exists c, of_user event c /\ truthy_str (call_transcript c) = true) /\
    (outbox w' <> outbox w \/ journal w' <> journal w ->
     (type event = "call.ended" \/ type event = "call.failed") /\
     exists c, of_user event c) /\
    (calls (db w') <> calls (db w) ->
     (type event = "call.ended" \/ type event = "call.started" \/ type event = "call.failed") /\
     exists c, of_user event c /\ calls (db w) !! call_id c <> None).
Proof.
  intros event w. exists (delivery event w). split; [apply vapi_webhook_eq|].
  unfold delivery.
  destruct (marked_frame (saved_id event w) None (dispatch_effect event (saved_world event w)))
    as (_ & -> & -> & _ & _ & -> & -> & ->).
  destruct (saved_world_frame event w) as (_ & _ & Hc & Hl & _ & Ho & Hp & Hj).
  destruct (dispatch_causes event (saved_world event w)) as (H1 & H2 & H3).
  cbv zeta in H1, H2, H3. rewrite Hc, Hl, Ho, Hp, Hj in *.
  split; [|split].
  - intros Hch. destruct H1 as [[E1 E2]|H1]; [|exact H1].
    rewrite E1, E2 in Hch. destruct Hch; congruence.
  - intros Hch. destruct H2 as [[E1 E2]|H2]; [|exact H2].
    rewrite E1, E2 in Hch. destruct Hch; congruence.
  - intros Hch. destruct H3 as [E|H3]; [congruence | exact H3].
Qed.


(** *** The status of a call *)

Lemma db_effect_up f w :
  db_up (env w) (step w) = Up -> db_effect f w = with_db f (tick w).
Proof. unfold db_effect. intros ->. reflexivity. Qed.

Lemma db_effect_out f w :
  db_up (env w) (step w) <> Up -> db_effect f w = tick w.
Proof. unfold db_effect. destruct (db_up _ _); [congruence|reflexivity..]. Qed.

Lemma marked_calls saved msg w : calls (db (marked saved msg w)) = calls (db w).
Proof. apply marked_frame. Qed.

(** X22.  When the call is on record and the database accepts the update,
    [call.started] sets the status [in_progress], [call.failed] sets
    [missed] and attempts an error alert (delivered when the bot is up),
    and [call.ended] sets [answered]; the other columns of a started or
    failed call stay. *)
Theorem call_status_follows_event :
  forall event c row w,
    of_user event c ->
    calls (db w) !! call_id c = Some row ->
    db_up (env w) (S (step w)) = Up ->
    exists w',
      vapi_webhook event w = (inr ok_response, w') /\
      (type event = "call.started" ->
       calls (db w') !! call_id c = Some (with_status in_progress row)) /\
      (type event = "call.failed" ->
       calls (db w') !! call_id c = Some (with_status missed row) /\
       journal w' = NotifyError ("Call " +:+ call_id c +:+ " failed") :: journal w /\
       (telegram_enabled (env w) = true -> telegram_up (env w) (S (S (step w))) = true ->
        exists error,
          outbox w' = ErrorAlert ("Call " +:+ call_id c +:+ " failed") error :: outbox w)) /\
      (type event = "call.ended" ->
       exists row', calls (db w') !! call_id c = Some row' /\ status row' = Some answered /\
                    user_id row' = user_id row /\ caller_phone row' = caller_phone row).
Proof.
  intros event c row w [Hc Hu] Hrow Hup.
  exists (delivery event w). split; [apply vapi_webhook_eq|].
  unfold delivery. rewrite marked_calls.
  destruct (marked_frame (saved_id event w) None (dispatch_effect event (saved_world event w)))
    as (_ & _ & _ & _ & _ & -> & _ & ->).
  destruct (saved_world_frame event w) as (He & Hs & Hcalls & _ & _ & Ho & _ & Hj).
  set (w1 := saved_world event w) in *.
  assert (Hup1 : db_up (env w1) (step w1) = Up) by (rewrite He, Hs; exact Hup).
  unfold dispatch_effect. rewrite Hc, Hu.
  split; [|split].
  - intros Ht. rewrite Ht. cbn [String.eqb Ascii.eqb Bool.eqb].
    rewrite (db_effect_up _ _ Hup1). cbn. rewrite Hcalls, lookup_alter_eq, Hrow. reflexivity.
  - intros Ht. rewrite Ht. cbn [String.eqb Ascii.eqb Bool.eqb].
    unfold call_failed_effect. through. rewrite (db_effect_up _ _ Hup1).
    split; [|split].
    + cbn. rewrite Hcalls, lookup_alter_eq, Hrow. reflexivity.
    + cbn. rewrite Hj. reflexivity.
    + intros Hen Hbot. eexists. unfold telegram_effect. cbn [env record_call with_db tick step].
      rewrite He, Hs, Hen, Hbot. cbn. rewrite Ho. reflexivity.
  - intros Ht. rewrite Ht. cbn [String.eqb Ascii.eqb Bool.eqb].
    assert (Hcalls' : calls (db (call_ended_effect c w1))
                      = alter (apply_updates (ended_updates c)) (call_id c) (calls (db w))).
    { unfold call_ended_effect.
      destruct (truthy_str (call_transcript c)).
      - destruct (lead_pipeline_frame (string_or_default (metadata_userId c)) (call_id c)
                    (string_or_default (call_transcript c)) (customer_number c)
                    (db_effect (alter_call (apply_updates (ended_updates c)) (call_id c)) w1))
          as (_ & -> & _).
        rewrite (db_effect_up _ _ Hup1). cbn. rewrite Hcalls. reflexivity.
      - rewrite (db_effect_up _ _ Hup1). cbn. rewrite Hcalls. reflexivity. }
    rewrite Hcalls', lookup_alter_eq, Hrow. cbn. eexists. split; [reflexivity|]. auto.
Qed.

(** *** An unreachable database *)

Lemma lead_pipeline_out userId callId transcript phoneNumber w :
  db_up (env w) (step w) <> Up ->
  lead_pipeline userId callId transcript phoneNumber w = tick w.
Proof. unfold lead_pipeline. destruct (db_up _ _); [congruence|reflexivity..]. Qed.

(** X23.  With the database out of reach a delivery is still answered 200,
    and nothing is stored: no event row, no call update, no lead; no
    payment link is requested, and the only message that can go out is the
    error alert of a failed call. *)
Theorem database_outage_loses_the_event :
  forall event w,
    (forall n, db_up (env w) n <> Up) ->
    exists w',
      vapi_webhook event w = (inr ok_response, w') /\
      db w' = db w /\
      payment_requests w' = payment_requests w /\
      (forall m, m ∈ outbox w' ->
                 m ∈ outbox w \/ exists context error, m = ErrorAlert context error).
Proof.
  intros event w Hout. exists (delivery event w). split; [apply vapi_webhook_eq|].
  assert (Hsaved : saved_world event w = tick w).
  { rewrite saved_world_eq. specialize (Hout (step w)).
    destruct (db_up _ _); [congruence|reflexivity..]. }
  assert (Hid : saved_id event w = None).
  { unfold saved_id. specialize (Hout (step w)).
    destruct (db_up _ _); [congruence|reflexivity..]. }
  unfold delivery. rewrite Hid, Hsaved. cbn [marked].
  unfold dispatch_effect. destruct (call event) as [c|]; [|cbn; auto].
  destruct (truthy_str (metadata_userId c)); [|cbn; auto].
  destruct (String.eqb (type event) "call.ended").
  { unfold call_ended_effect. rewrite db_effect_out by apply Hout.
    destruct (truthy_str (call_transcript c)); [|cbn; auto].
    rewrite lead_pipeline_out by apply Hout. cbn. auto. }
  destruct (String.eqb (type event) "call.started").
  { rewrite db_effect_out by apply Hout. cbn. auto. }
  destruct (String.eqb (type event) "call.failed"); [|cbn; auto].
  unfold call_failed_effect. rewrite db_effect_out by apply Hout.
  through. split; [reflexivity|]. split; [reflexivity|].
  unfold telegram_effect. cbn [env record_call tick step].
  destruct (telegram_enabled (env w)); [|cbn; auto].
  destruct (telegram_up (env w) _); [|cbn; auto].
  cbn. intros m Hm. apply elem_of_cons in Hm as [->|Hm]; eauto.
Qed.


(** *** The stored lead after the pipeline *)

(** A property of the stored row that an update keeps. *)
Lemma lead_update_keeps (P : Lead -> Prop) f id w :
  (forall l, P l -> P (f l)) ->
  (exists stored, leads (db w) !! id = Some stored /\ P stored) ->
  exists stored, leads (db (db_effect (alter_lead f id) w)) !! id = Some stored /\ P stored.
Proof.
  intros Hf (stored & Hs & HP). unfold db_effect. destruct (db_up _ _); cbn; eauto.
  rewrite lookup_alter_eq, Hs. cbn. eauto.
Qed.

Lemma lead_update_written f id w stored :
  db_up (env w) (step w) = Up ->
  leads (db w) !! id = Some stored ->
  leads (db (db_effect (alter_lead f id) w)) !! id = Some (f stored).
Proof.
  intros Hup Hs. rewrite (db_effect_up _ _ Hup). cbn. rewrite lookup_alter_eq, Hs. reflexivity.
Qed.

Lemma telegram_effect_unsent m w :
  telegram_sent w = false ->
  outbox (telegram_effect m w) = outbox w /\ db (telegram_effect m w) = db w /\
  env (telegram_effect m w) = env w.
Proof.
  unfold telegram_sent, telegram_effect. destruct (telegram_enabled (env w)); [|auto].
  cbn. intros ->. auto.
Qed.

Lemma outbox_telegram_cases m w x :
  x ∈ outbox (telegram_effect m w) -> x = m \/ x ∈ outbox w.
Proof.
  unfold telegram_effect. destruct (telegram_enabled _); [|auto].
  destruct (telegram_up _ _); cbn; [|auto].
  intros H. apply elem_of_cons in H. exact H.
Qed.

(** X24.  The stored lead is stamped as notified also when no alert went
    out: with the bot not configured or not reachable, the lead still gets
    [telegram_notified_at], and no alert for it is in the outbox. *)
Theorem lead_is_stamped_notified_even_when_nothing_was_sent :
  forall userId callId transcript phoneNumber w,
    (forall n, db_up (env w) n = Up) ->
    telegram_enabled (env w) = false \/ telegram_up (env w) (S (step w)) = false ->
    exists w' stored,
      extractAndSaveLead userId callId transcript phoneNumber w = (inr tt, w') /\
      leads (db w') !! next_lead_id (db w) = Some stored /\
      telegram_notified_at stored = Some (clock (env w)) /\
      (forall l t, LeadAlert (next_lead_id (db w)) l t ∈ outbox w' ->
                   LeadAlert (next_lead_id (db w)) l t ∈ outbox w).
Proof.
  intros userId callId transcript phoneNumber w Hup Hbot.
  exists (lead_pipeline userId callId transcript phoneNumber w).
  cut (exists stored,
         leads (db (lead_pipeline userId callId transcript phoneNumber w))
           !! next_lead_id (db w) = Some stored /\
         telegram_notified_at stored = Some (clock (env w)) /\
         (forall l t,
            LeadAlert (next_lead_id (db w)) l t
              ∈ outbox (lead_pipeline userId callId transcript phoneNumber w) ->
            LeadAlert (next_lead_id (db w)) l t ∈ outbox w)).
  { intros (stored & H). exists stored. split; [apply extractAndSaveLead_eq | exact H]. }
  unfold lead_pipeline. rewrite Hup. cbv zeta.
  set (lead_id := next_lead_id (db w)).
  set (lead := lead_of userId callId transcript phoneNumber).
  set (w1 := with_db (insert_lead lead_id lead) (tick w)).
  unfold after_save.
  set (w1' := record_call (NotifyNewLead lead_id) w1).
  assert (Hunsent : telegram_sent w1' = false).
  { unfold telegram_sent. cbn. destruct Hbot as [-> | ->]; [reflexivity|apply andb_false_r]. }
  destruct (telegram_effect_unsent (LeadAlert lead_id lead (Some transcript)) w1' Hunsent)
    as (Ho2 & Hd2 & He2).
  set (w2 := telegram_effect _ w1') in *.
  assert (Hclock : clock (env w2) = clock (env w)) by (rewrite He2; reflexivity).
  assert (Hup2 : forall w0, env w0 = env w -> db_up (env w0) (step w0) = Up).
  { intros w0 ->. apply Hup. }
  assert (Hl2 : leads (db w2) !! lead_id = Some lead).
  { rewrite Hd2. cbn. apply lookup_insert_eq. }
  set (w3 := db_effect (alter_lead (set_notified (clock (env w2))) lead_id) w2).
  assert (Hl3 : leads (db w3) !! lead_id = Some (set_notified (clock (env w)) lead)).
  { unfold w3. rewrite Hclock. apply lead_update_written; [apply Hup2, He2 | exact Hl2]. }
  assert (Ho3 : outbox w3 = outbox w).
  { unfold w3. rewrite outbox_db_effect, Ho2. reflexivity. }
  assert (Hkeep : forall wx,
            (exists stored, leads (db wx) !! lead_id = Some stored /\
                            telegram_notified_at stored = Some (clock (env w))) ->
            (forall l t, LeadAlert lead_id l t ∈ outbox wx -> LeadAlert lead_id l t ∈ outbox w) ->
            exists stored,
              leads (db wx) !! lead_id = Some stored /\
              telegram_notified_at stored = Some (clock (env w)) /\
              (forall l t, LeadAlert lead_id l t ∈ outbox wx -> LeadAlert lead_id l t ∈ outbox w)).
  { intros wx (stored & H1 & H2) H3. exists stored. auto. }
  destruct (wants_payment_link transcript).
  - set (w4 := record_call _ w3). set (w5 := gateway_effect _ w4).
    assert (H5 : exists stored, leads (db w5) !! lead_id = Some stored /\
                                telegram_notified_at stored = Some (clock (env w))).
    { unfold w5, w4. through. eauto. }
    assert (Ho5 : outbox w5 = outbox w).
    { unfold w5, w4. through. exact Ho3. }
    clearbody w5.
    destruct (gateway_link w4) as [link|].
    + apply Hkeep.
      * rewrite db_telegram_effect. cbn [db record_call].
        apply (lead_update_keeps (fun l => telegram_notified_at l = Some (clock (env w))));
          [intros l Hl; exact Hl | exact H5].
      * intros l t Hin. apply outbox_telegram_cases in Hin as [Hin|Hin]; [discriminate|].
        revert Hin. through. rewrite Ho5. auto.
    + apply Hkeep; [exact H5 | rewrite Ho5; auto].
  - apply Hkeep; [eauto | rewrite Ho3; auto].
Qed.


(** *** The payment link of a lead *)

Lemma gateway_link_accepted w link :
  gateway_link w = Some link ->
  flutterwave_enabled (env w) = true /\
  gateway_reply (env w) (step w) = Accepted link /\ link <> EmptyString.
Proof.
  unfold gateway_link. destruct (flutterwave_enabled _); [|discriminate].
  destruct (gateway_reply _ _) as [l| |]; try discriminate.
  cbn [truthy_str]. destruct (String.eqb_spec l EmptyString); cbn; [discriminate|].
  intros [= <-]. auto.
Qed.

(** X25.  A payment link on a stored lead is always a non-empty link the
    gateway returned for this lead's Starter-plan request, for a transcript
    that passed the guard; its status is [pending], and its notification
    was attempted.  A lead without link has no payment status. *)
Theorem payment_link_comes_from_the_gateway :
  forall userId callId transcript phoneNumber w,
    db_up (env w) (step w) = Up ->
    exists w' stored,
      extractAndSaveLead userId callId transcript phoneNumber w = (inr tt, w') /\
      leads (db w') !! next_lead_id (db w) = Some stored /\
      match flutterwave_payment_link stored with
      | None => payment_status stored = None
      | Some link =>
          payment_status stored = Some pending /\ link <> EmptyString /\
          wants_payment_link transcript = true /\
          flutterwave_enabled (env w) = true /\
          (exists n, gateway_reply (env w) n = Accepted link) /\
          payment_params transcript phoneNumber ∈ payment_requests w' /\
          NotifyPaymentLink (next_lead_id (db w)) ∈ journal w'
      end.
Proof.
  intros userId callId transcript phoneNumber w Hup.
  exists (lead_pipeline userId callId transcript phoneNumber w).
  cut (exists stored,
         leads (db (lead_pipeline userId callId transcript phoneNumber w))
           !! next_lead_id (db w) = Some stored /\
         match flutterwave_payment_link stored with
         | None => payment_status stored = None
         | Some link =>
             payment_status stored = Some pending /\ link <> EmptyString /\
             wants_payment_link transcript = true /\
             flutterwave_enabled (env w) = true /\
             (exists n, gateway_reply (env w) n = Accepted link) /\
             payment_params transcript phoneNumber
               ∈ payment_requests (lead_pipeline userId callId transcript phoneNumber w) /\
             NotifyPaymentLink (next_lead_id (db w))
               ∈ journal (lead_pipeline userId callId transcript phoneNumber w)
         end).
  { intros (stored & H). exists stored. split; [apply extractAndSaveLead_eq | exact H]. }
  unfold lead_pipeline. rewrite Hup. cbv zeta.
  set (lead_id := next_lead_id (db w)).
  set (lead := lead_of userId callId transcript phoneNumber).
  set (w1 := with_db (insert_lead lead_id lead) (tick w)).
  unfold after_save.
  set (w2 := telegram_effect _ _).
  assert (He2 : env w2 = env w) by (unfold w2; through; reflexivity).
  set (w3 := db_effect (alter_lead (set_notified (clock (env w2))) lead_id) w2).
  assert (He3 : env w3 = env w) by (unfold w3; through; exact He2).
  assert (H3 : exists stored, leads (db w3) !! lead_id = Some stored /\
                 (flutterwave_payment_link stored = None /\ payment_status stored = None)).
  { apply lead_update_keeps; [intros l Hl; exact Hl|].
    exists lead. unfold w2. through. split; [apply lookup_insert_eq|]. auto. }
  clearbody w3.
  destruct (wants_payment_link transcript) eqn:Hwants.
  - set (w4 := record_call _ w3).
    destruct (gateway_link w4) as [link|] eqn:Hlink.
    + apply gateway_link_accepted in Hlink as (Hen & Hrep & Hne).
      assert (Hp5 : payment_requests (gateway_effect (payment_params transcript phoneNumber) w4)
                    = payment_params transcript phoneNumber :: payment_requests w4).
      { unfold gateway_effect. rewrite Hen, Hrep. reflexivity. }
      set (w5 := gateway_effect (payment_params transcript phoneNumber) w4) in *.
      assert (He5 : env w5 = env w) by (unfold w5, w4; through; exact He3).
      assert (H5 : exists stored, leads (db w5) !! lead_id = Some stored /\
                     (flutterwave_payment_link stored = None /\ payment_status stored = None)).
      { unfold w5, w4. through. exact H3. }
      clearbody w5. through.
      destruct H5 as (stored & Hs & Hl0 & Hs0).
      rewrite Hp5.
      destruct (db_up (env w5) (step w5)) eqn:Hup5.
      * rewrite (db_effect_up _ _ Hup5). cbn. rewrite lookup_alter_eq, Hs. cbn.
        eexists. split; [reflexivity|]. cbn.
        repeat split; auto.
        -- unfold w4 in Hen. cbn in Hen. rewrite He3 in Hen. exact Hen.
        -- unfold w4 in Hrep. cbn in Hrep. rewrite He3 in Hrep. eauto.
        -- elem.
        -- elem.
      * rewrite db_effect_out by congruence. cbn. exists stored. rewrite Hl0. auto.
      * rewrite db_effect_out by congruence. cbn. exists stored. rewrite Hl0. auto.
    + destruct H3 as (stored & Hs & Hl0 & Hs0). exists stored. through. rewrite Hl0. auto.
  - destruct H3 as (stored & Hs & Hl0 & Hs0). exists stored. rewrite Hl0. auto.
Qed.


(** *** The properties at work *)

Lemma webhook_tables_append_only_witness :
  exists w', vapi_webhook ended_event ringing = (inr ok_response, w') /\ fresh_ids w'.
Proof.
  destruct (webhook_tables_append_only ended_event ringing ringing_fresh)
    as (w' & Hrun & Hfresh & _).
  exists w'. split; assumption.
Defined.

Lemma call_status_follows_event_witness :
  exists w',
    vapi_webhook failed_event ringing = (inr ok_response, w') /\
    calls (db w') !! "call-1"
    = Some (mkCallRow "user-1" (Some "+14155551234") None (Some missed) None None).
Proof.
  destruct (call_status_follows_event failed_event ended_call
              (mkCallRow "user-1" (Some "+14155551234") None (Some in_progress) None None)
              ringing)
    as (w' & Hrun & _ & Hfailed & _).
  - split; reflexivity.
  - apply lookup_singleton_eq.
  - reflexivity.
  - exists w'. split; [exact Hrun|]. apply Hfailed. reflexivity.
Defined.

Lemma database_outage_loses_the_event_witness :
  exists w', vapi_webhook ended_event outage = (inr ok_response, w') /\ db w' = db outage.
Proof.
  destruct (database_outage_loses_the_event ended_event outage) as (w' & Hrun & Hdb & _).
  - intros n. discriminate.
  - exists w'. split; assumption.
Defined.

Lemma lead_is_stamped_notified_even_when_nothing_was_sent_witness :
  exists w' stored,
    extractAndSaveLead "user-1" "call-1" "yes, I am interested" None silent = (inr tt, w') /\
    leads (db w') !! 0%nat = Some stored /\
    telegram_notified_at stored = Some 1700000000000 /\
    (forall l t, LeadAlert 0 l t ∈ outbox w' -> LeadAlert 0 l t ∈ outbox silent).
Proof.
  apply (lead_is_stamped_notified_even_when_nothing_was_sent
           "user-1" "call-1" "yes, I am interested" None silent).
  - intros n. reflexivity.
  - left. reflexivity.
Defined.

Lemma payment_link_comes_from_the_gateway_witness :
  (exists w' stored,
     extractAndSaveLead "user-1" "call-1"
       "my name is John Smith, yes I am interested, john@example.com"
       (Some "+14155551234") ringing = (inr tt, w') /\
     leads (db w') !! 0%nat = Some stored /\
     flutterwave_payment_link stored = Some "https://pay.example/abc" /\
     payment_status stored = Some pending /\
     (exists n, gateway_reply (env ringing) n = Accepted "https://pay.example/abc") /\
     payment_params "my name is John Smith, yes I am interested, john@example.com"
                    (Some "+14155551234") ∈ payment_requests w' /\
     NotifyPaymentLink 0 ∈ journal w') /\
  (exists w' stored,
     extractAndSaveLead "user-1" "call-1" "yes, I am interested" None ringing = (inr tt, w') /\
     leads (db w') !! 0%nat = Some stored /\
     flutterwave_payment_link stored = None /\
     payment_status stored = None).
Proof.
  split.
  - destruct (payment_link_comes_from_the_gateway
                "user-1" "call-1"
                "my name is John Smith, yes I am interested, john@example.com"
                (Some "+14155551234") ringing)
      as (w' & stored & Hrun & Hs & Hlink); [reflexivity|].
    exists w', stored. split; [exact Hrun|]. split; [exact Hs|].
    assert (Hw : w' = snd (extractAndSaveLead "user-1" "call-1"
                             "my name is John Smith, yes I am interested, john@example.com"
                             (Some "+14155551234") ringing))
      by (rewrite Hrun; reflexivity).
    assert (Hstored : flutterwave_payment_link stored = Some "https://pay.example/abc").
    { rewrite Hw in Hs. vm_compute in Hs. injection Hs as <-. reflexivity. }
    rewrite Hstored in Hlink. destruct Hlink as (Hp & _ & _ & _ & Hg & Hr & Hj).
    split; [exact Hstored|]. split; [exact Hp|]. split; [exact Hg|]. split; [exact Hr|exact Hj].
  - destruct (payment_link_comes_from_the_gateway
                "user-1" "call-1" "yes, I am interested" None ringing)
      as (w' & stored & Hrun & Hs & Hlink); [reflexivity|].
    exists w', stored. split; [exact Hrun|]. split; [exact Hs|].
    assert (Hw : w' = snd (extractAndSaveLead "user-1" "call-1" "yes, I am interested"
                             None ringing))
      by (rewrite Hrun; reflexivity).
    assert (Hstored : flutterwave_payment_link stored = None).
    { rewrite Hw in Hs. vm_compute in Hs. injection Hs as <-. reflexivity. }
    rewrite Hstored in Hlink. split; [exact Hstored | exact Hlink].
Defined.

End DeliveryFacts.

Module CallsFacts.
Import JsString World Services Logger Calls JsStringFacts.

Lemma skip_append p s : skip (String.length p) (p +:+ s) = s.
Proof.
  induction p as [|c p IH]; [rewrite append_nil; reflexivity|].
  rewrite append_cons. cbn [String.length skip]. exact IH.
Qed.

Lemma replace_prefix p s : replace (p +:+ s) p EmptyString = s.
Proof.
  assert (H : startsWith (p +:+ s) p = true) by (apply startsWith_spec; eauto).
  destruct (p +:+ s) eqn:E; cbn [replace]; rewrite H, append_nil, <- E; apply skip_append.
Qed.

Lemma bearer_token a b : Some ("Bearer " +:+ a) = Some ("Bearer " +:+ b) -> a = b.
Proof.
  intros E.
  apply (f_equal (fun o => replace (string_or_default o) "Bearer " EmptyString)) in E.
  cbn [string_or_default] in E. rewrite !replace_prefix in E. exact E.
Qed.

(** The middleware as a function of the header and of the identity
    provider's answer for the text after the first seven characters. *)
Lemma authenticate_eq getUser authorization :
  authenticate getUser authorization
  = inr (match authorization with
         | Some authHeader =>
             if startsWith authHeader "Bearer " then
               match getUser (skip 7 authHeader) with
               | Known user => Proceed (mkUser (id user) (email user))
               | Unknown | Unavailable => Unauthorized "Invalid or expired token"
               end
             else Unauthorized "Missing or invalid Authorization header"
         | None => Unauthorized "Missing or invalid Authorization header"
         end).
Proof.
  unfold authenticate.
  destruct authorization as [h|]; cbn [truthy_str string_or_default negb orb]; [|reflexivity].
  destruct (startsWith h "Bearer ") eqn:Hs; [|rewrite orb_true_r; reflexivity].
  apply startsWith_spec in Hs as (token & ->).
  assert (Hne : String.eqb ("Bearer " +:+ token) EmptyString = false) by reflexivity.
  rewrite Hne. cbn [negb orb]. rewrite replace_prefix.
  change 7%nat with (String.length "Bearer "). rewrite skip_append.
  unfold verifyUserToken. destruct (getUser token); reflexivity.
Qed.

(** X26.  The authentication middleware lets a request pass exactly when
    its header is [Bearer ] followed by a token the identity provider
    resolves to a user, and attaches that user; a header of another form
    is answered 401 without the token being looked at; the 500 branch is
    never taken, as the token check swallows its own errors. *)
Theorem authenticate_lets_only_verified_users_pass :
  forall getUser authorization,
  exists outcome,
    authenticate getUser authorization = inr outcome /\
    outcome <> AuthenticationFailed /\
    (forall user,
       outcome = Proceed user <->
       exists token known,
         authorization = Some ("Bearer " +:+ token) /\
         getUser token = Known known /\
         user = mkUser (id known) (email known)) /\
    (outcome = Unauthorized "Missing or invalid Authorization header" <->
     forall token, authorization <> Some ("Bearer " +:+ token)).
Proof.
  intros getUser authorization. rewrite authenticate_eq. eexists. split; [reflexivity|].
  destruct authorization as [h|].
  2:{ split; [discriminate|]. split.
      - intros user. split; [discriminate|]. intros (? & ? & ? & _). discriminate.
      - split; [discriminate | reflexivity]. }
  destruct (startsWith h "Bearer ") eqn:Hs.
  - apply startsWith_spec in Hs as (token & ->).
    change 7%nat with (String.length "Bearer "). rewrite skip_append.
    assert (Hheader : ~ (forall t, Some ("Bearer " +:+ token) <> Some ("Bearer " +:+ t))).
    { intros H. destruct (H token). reflexivity. }
    destruct (getUser token) as [known| |] eqn:Hg.
    + split; [discriminate|]. split; [|split; [discriminate | intros H; destruct (Hheader H)]].
      intros user. split.
      * intros [= <-]. eauto.
      * intros (t & k & E & Hk & ->). apply bearer_token in E. subst t.
        rewrite Hg in Hk. injection Hk as <-. reflexivity.
    + split; [discriminate|]. split; [|split; [discriminate | intros H; destruct (Hheader H)]].
      intros user. split; [discriminate|].
      intros (t & k & E & Hk & _). apply bearer_token in E. subst t. congruence.
    + split; [discriminate|]. split; [|split; [discriminate | intros H; destruct (Hheader H)]].
      intros user. split; [discriminate|].
      intros (t & k & E & Hk & _). apply bearer_token in E. subst t. congruence.
  - assert (Hno : forall t, Some h <> Some ("Bearer " +:+ t)).
    { intros t [= ->].
      assert (startsWith ("Bearer " +:+ t) "Bearer " = true) by (apply startsWith_spec; eauto).
      congruence. }
    split; [discriminate|]. split.
    + intros user. split; [discriminate|]. intros (t & k & E & _). destruct (Hno t E).
    + split; [intros _; exact Hno | reflexivity].
Qed.

Lemma authenticate_lets_only_verified_users_pass_witness :
  authenticate (fun token => if String.eqb token "abc"
                             then Known (mkUser "user-1" None) else Unknown)
               (Some "Bearer abc")
  = inr (Proceed (mkUser "user-1" None)).
Proof.
  destruct (authenticate_lets_only_verified_users_pass
              (fun token => if String.eqb token "abc"
                            then Known (mkUser "user-1" None) else Unknown)
              (Some "Bearer abc"))
    as (outcome & Hrun & _ & Hpass & _).
  rewrite Hrun. f_equal. apply Hpass.
  exists "abc", (mkUser "user-1" None). repeat split.
Defined.

(** *** The route *)

Lemma saveCall_frame cond call_id row office :
  calls_remaining (saveCall cond call_id row office) = calls_remaining office /\
  provider_requests (saveCall cond call_id row office) = provider_requests office /\
  issued (saveCall cond call_id row office) = S (issued office) /\
  (calls (saveCall cond call_id row office) = calls office \/
   (db_reply cond (issued office) = Up /\ calls office !! call_id = None /\
    calls (saveCall cond call_id row office) = <[call_id := row]> (calls office))).
Proof.
  unfold saveCall. destruct (db_reply cond (issued office)); cbn; auto.
  destruct (calls office !! call_id); cbn; auto 10.
Qed.

Lemma decrementUserCalls_frame cond userId office :
  calls (decrementUserCalls cond userId office) = calls office /\
  provider_requests (decrementUserCalls cond userId office) = provider_requests office /\
  (calls_remaining (decrementUserCalls cond userId office) = calls_remaining office \/
   (db_reply cond (issued office) = Up /\
    calls_remaining (decrementUserCalls cond userId office)
    = alter (decrement_calls_remaining cond) userId (calls_remaining office))).
Proof.
  unfold decrementUserCalls. destruct (db_reply cond (issued office)); cbn; auto.
Qed.

(** What the handler does, case by case. *)
Lemma post_call_cases cond user body office :
  let reply := fst (post_call cond user body office) in
  let office' := snd (post_call cond user body office) in
  (status reply ∈ [400; 403; 500] /\
   provider_requests office' = provider_requests office /\
   calls office' = calls office /\ calls_remaining office' = calls_remaining office) \/
  (exists quota request,
     calls_remaining office !! id user = Some quota /\ 0 < quota /\
     db_reply cond (issued office) = Up /\
     truthy_str (assistantId body) = true /\ truthy_str (customer_number body) = true /\
     provider_requests office' = request :: provider_requests office /\
     request = mkVapiCallRequest
                 (string_or_default (assistantId body))
                 (string_or_default (customer_number body))
                 (if truthy_str (phoneNumberId body) then phoneNumberId body
                  else VAPI_PHONE_ID cond)
                 (<["source" := JStr "callwaitingai"]>
                    (<["userId" := JStr (id user)]> (metadata body))) /\
     match provider_reply cond (S (issued office)) with
     | Created call_id =>
         reply = mkCallReply 200 None (Some call_id) (Some (quota - 1)) /\
         office' = decrementUserCalls cond (id user)
                     (saveCall cond call_id
                        (mkCallRow (id user) (customer_number body) None (Some in_progress)
                                   None None)
                        (place request (tick office)))
     | Failed code _ =>
         status reply = match code with
                        | Some c => if c =? 0 then 500 else c
                        | None => 500
                        end /\
         call reply = None /\
         calls office' = calls office /\ calls_remaining office' = calls_remaining office
     end).
Proof.
  cbv zeta. unfold post_call.
  destruct (truthy_str (assistantId body)) eqn:Ha; cbn [negb orb];
    [|left; cbn; repeat split; WebhookFacts.elem].
  destruct (truthy_str (customer_number body)) eqn:Hn; cbn [negb];
    [|left; cbn; repeat split; WebhookFacts.elem].
  unfold getUserCallsRemaining.
  destruct (db_reply cond (issued office)) eqn:Hdb;
    [|left; cbn; repeat split; WebhookFacts.elem..].
  destruct (calls_remaining office !! id user) as [quota|] eqn:Hq;
    [|left; cbn; repeat split; WebhookFacts.elem].
  destruct (Z.leb_spec quota 0); [left; cbn; repeat split; WebhookFacts.elem|].
  right. eexists quota, _. cbn [issued tick].
  split; [reflexivity|]. split; [assumption|]. split; [reflexivity|].
  split; [reflexivity|]. split; [reflexivity|].
  destruct (provider_reply cond (S (issued office))) as [call_id|code message].
  - cbn [fst snd].
    destruct (decrementUserCalls_frame cond (id user)
                (saveCall cond call_id
                   (mkCallRow (id user) (customer_number body) None (Some in_progress) None None)
                   (place
                      (mkVapiCallRequest (string_or_default (assistantId body))
                         (string_or_default (customer_number body))
                         (if truthy_str (phoneNumberId body) then phoneNumberId body
                          else VAPI_PHONE_ID cond)
                         (<["source" := JStr "callwaitingai"]>
                            (<["userId" := JStr (id user)]> (metadata body))))
                      (tick office)))) as (_ & -> & _).
    destruct (saveCall_frame cond call_id
                (mkCallRow (id user) (customer_number body) None (Some in_progress) None None)
                (place
                   (mkVapiCallRequest (string_or_default (assistantId body))
                      (string_or_default (customer_number body))
                      (if truthy_str (phoneNumberId body) then phoneNumberId body
                       else VAPI_PHONE_ID cond)
                      (<["source" := JStr "callwaitingai"]>
                         (<["userId" := JStr (id user)]> (metadata body))))
                   (tick office))) as (_ & -> & _).
    cbn. auto.
  - cbn. auto 10.
Qed.


(** X27.  The outbound-call route asks the voice provider for a call only
    for a verified user whose stored quota is positive; the request then
    carries the body's customer number and, whatever the body's metadata
    said, the verified user's id and the source [callwaitingai].  In every
    other case the answer is 400, 401, 403 or 500 and neither the provider
    nor a table is touched. *)
Theorem outbound_call_needs_user_and_quota :
  forall cond authorization body office,
    let reply := fst (call_route cond authorization body office) in
    let office' := snd (call_route cond authorization body office) in
    (status reply ∈ [400; 401; 403; 500] /\
     provider_requests office' = provider_requests office /\
     calls office' = calls office /\ calls_remaining office' = calls_remaining office) \/
    (exists token known quota request,
       authorization = Some ("Bearer " +:+ token) /\
       getUser cond token = Known known /\
       calls_remaining office !! id known = Some quota /\ 0 < quota /\
       provider_requests office' = request :: provider_requests office /\
       request_number request = string_or_default (customer_number body) /\
       request_metadata request !! "userId" = Some (JStr (id known)) /\
       request_metadata request !! "source" = Some (JStr "callwaitingai")).
Proof.
  intros cond authorization body office. cbv zeta. unfold call_route.
  rewrite authenticate_eq.
  assert (Hout : status (mkCallReply 401 (Some "Unauthorized") None None)
                   ∈ [400; 401; 403; 500]) by WebhookFacts.elem.
  destruct authorization as [h|]; [|left; cbn; auto].
  destruct (startsWith h "Bearer ") eqn:Hs; [|left; cbn; auto].
  apply startsWith_spec in Hs as (token & ->).
  change 7%nat with (String.length "Bearer "). rewrite skip_append.
  destruct (getUser cond token) as [known| |] eqn:Hk; [|left; cbn; auto..].
  destruct (post_call_cases cond (mkUser (id known) (email known)) body office)
    as [(Hs & H)|(quota & request & Hq & Hpos & _ & _ & _ & Hreq & -> & _)];
    cbv zeta in *.
  - left. split; [|exact H].
    repeat (apply elem_of_cons in Hs as [->|Hs]; [WebhookFacts.elem|]).
    apply not_elem_of_nil in Hs. destruct Hs.
  - right. exists token, known, quota. eexists. cbn [id] in *.
    split; [reflexivity|]. split; [exact Hk|]. split; [exact Hq|]. split; [exact Hpos|].
    split; [exact Hreq|]. cbn [request_number request_metadata].
    split; [reflexivity|]. split.
    + rewrite lookup_insert_ne by discriminate. apply lookup_insert_eq.
    + apply lookup_insert_eq.
Qed.

Lemma saveCall_up cond call_id row office :
  db_reply cond (issued office) = Up -> calls office !! call_id = None ->
  calls (saveCall cond call_id row office) = <[call_id := row]> (calls office).
Proof. unfold saveCall. intros -> ->. reflexivity. Qed.

Lemma decrementUserCalls_up cond userId office :
  db_reply cond (issued office) = Up ->
  calls_remaining (decrementUserCalls cond userId office)
  = alter (decrement_calls_remaining cond) userId (calls_remaining office).
Proof. unfold decrementUserCalls. intros ->. reflexivity. Qed.

(** X28.  When the provider created the call, the answer is 200 and
    reports the quota read before the call minus one, whether or not the
    decrement was carried out (it is, when the database accepts it); the
    call row is stored for the user with status [in_progress] when the
    database accepts the insert.  When no call was created, the calls and
    the quotas are as before; the quotas of other users never change. *)
Theorem outbound_call_accounting :
  forall cond user body office,
    let reply := fst (post_call cond user body office) in
    let office' := snd (post_call cond user body office) in
    (forall call_id,
       call reply = Some call_id ->
       exists quota,
         calls_remaining office !! id user = Some quota /\ 0 < quota /\
         provider_reply cond (S (issued office)) = Created call_id /\
         status reply = 200 /\
         callsRemaining reply = Some (quota - 1) /\
         (calls_remaining office' !! id user = Some quota \/
          calls_remaining office' !! id user = Some (decrement_calls_remaining cond quota)) /\
         (db_reply cond (S (S (S (issued office)))) = Up ->
          calls_remaining office' !! id user = Some (decrement_calls_remaining cond quota)) /\
         (db_reply cond (S (S (issued office))) = Up -> calls office !! call_id = None ->
          calls office' !! call_id
          = Some (mkCallRow (id user) (customer_number body) None (Some in_progress)
                            None None))) /\
    (call reply = None ->
     calls office' = calls office /\ calls_remaining office' = calls_remaining office) /\
    (forall other, other <> id user ->
                   calls_remaining office' !! other = calls_remaining office !! other).
Proof.
  intros cond user body office. cbv zeta.
  destruct (post_call_cases cond user body office)
    as [(Hs & Hp & Hc & Hr)|(quota & request & Hq & Hpos & _ & _ & _ & Hreq & Hrequest & Hcase)];
    cbv zeta in *.
  - split; [|split].
    + intros call_id Hcall. exfalso. revert Hcall Hs. unfold post_call.
      destruct (negb _ || negb _); [discriminate|].
      unfold getUserCallsRemaining. destruct (match db_reply cond (issued office) with
                                              | Up => _ | _ => None end) as [q|];
        [|discriminate].
      destruct (q <=? 0); [discriminate|].
      destruct (provider_reply cond _) as [cid|code message]; [|discriminate].
      cbn. intros _ Hs.
      repeat (apply elem_of_cons in Hs as [Hs|Hs]; [discriminate|]).
      apply not_elem_of_nil in Hs. destruct Hs.
    + auto.
    + intros other _. rewrite Hr. reflexivity.
  - destruct (provider_reply cond (S (issued office))) as [cid|code message] eqn:Hprov.
    + destruct Hcase as [-> ->].
      set (row := mkCallRow (id user) (customer_number body) None (Some in_progress) None None).
      set (office2 := place request (tick office)).
      destruct (saveCall_frame cond cid row office2) as (Hr3 & _ & Hi3 & Hc3).
      destruct (decrementUserCalls_frame cond (id user) (saveCall cond cid row office2))
        as (Hc4 & _ & Hr4).
      cbn [fst snd call status callsRemaining].
      split; [|split].
      * intros call_id [= <-]. exists quota. repeat split; auto.
        -- rewrite Hr3 in Hr4. cbn [office2 place tick calls_remaining] in Hr4.
           destruct Hr4 as [-> |[_ ->]]; [left; exact Hq|right].
           rewrite lookup_alter_eq, Hq. reflexivity.
        -- intros Hup. rewrite decrementUserCalls_up by (rewrite Hi3; exact Hup).
           rewrite Hr3. cbn [office2 place tick calls_remaining].
           rewrite lookup_alter_eq, Hq. reflexivity.
        -- intros Hup Hfree. rewrite Hc4, saveCall_up by assumption.
           apply lookup_insert_eq.
      * discriminate.
      * intros other Hne. rewrite Hr3 in Hr4. cbn [office2 place tick calls_remaining] in Hr4.
        destruct Hr4 as [-> |[_ ->]]; [reflexivity|].
        apply lookup_alter_ne. congruence.
    + destruct Hcase as (Hs & Hcall & Hc & Hr). split; [|split].
      * intros call_id Hsome. congruence.
      * auto.
      * intros other _. rewrite Hr. reflexivity.
Qed.

End CallsFacts.

Module AnalysisFacts.
Import JsNum JsString Scorer World Services Webhook Chat.
Import JsNumFacts ScorerFacts ChatFacts.
Local Open Scope js_scope.

(** *** Malformed scores *)

Lemma sum_nan_acc (f : SentimentAnalysis -> number) h :
  fold_left (fun sum s => add sum (f s)) h S754_nan = S754_nan.
Proof. induction h as [|s h IH]; [reflexivity|]. cbn [fold_left]. rewrite add_nan_l. exact IH. Qed.

Lemma sum_nan (f : SentimentAnalysis -> number) h acc :
  (exists s, s ∈ h /\ isNaN (f s) = true) ->
  fold_left (fun sum s => add sum (f s)) h acc = S754_nan.
Proof.
  revert acc. induction h as [|x h IH]; intros acc (s & Hin & Hs).
  - apply not_elem_of_nil in Hin. destruct Hin.
  - cbn [fold_left]. apply elem_of_cons in Hin as [<-|Hin].
    + destruct (f s); try discriminate. rewrite add_nan_r. apply sum_nan_acc.
    + apply IH. eauto.
Qed.

(** X29.  The clamp of the scorer does not repair a malformed score: a
    history that holds a NaN score is scored NaN. *)
Theorem scorer_propagates_nan :
  forall h,
    (exists s, s ∈ h /\ isNaN (score s) = true) ->
    calculateQualificationScore h = S754_nan.
Proof.
  intros h Hnan. unfold calculateQualificationScore.
  destruct h as [|x h]; [destruct Hnan as (s & Hin & _); apply not_elem_of_nil in Hin; destruct Hin|].
  cbn [length Nat.eqb]. cbv zeta.
  rewrite (sum_nan score (x :: h) zero Hnan).
  reflexivity.
Qed.

Lemma scorer_propagates_nan_witness :
  calculateQualificationScore
    [mkSentiment (lit 9 10) "purchase" "high" []; mkSentiment S754_nan "purchase" "high" []]
  = S754_nan.
Proof.
  apply scorer_propagates_nan. eexists. split; [apply list_elem_of_further, list_elem_of_here|].
  reflexivity.
Defined.


(** *** The analysis of a message, as the service makes it *)

Section Turn.

Variable getChatConversation : string -> M (option (list ChatMessage)).
Variable upsertChatConversation : ConversationData -> M (option string).
Variable provider_configured : bool.
Variable complete_chat : string -> list (Role * string) -> M (option string).
Variable getFallbackResponse : string -> string.
Variable complete_analysis : string -> M RawAnalysis.
Variable isoNow : World -> string.
Variable newConversationId : World -> string.
Variable newSessionId : World -> string.

(** The flag of a reply is computed from its score, its message count and
    the request. *)
Lemma chat_turn_capture req w body w' :
  chat_turn getChatConversation upsertChatConversation provider_configured complete_chat
            getFallbackResponse complete_analysis isoNow newConversationId newSessionId
            req w = (inr (Reply body), w') ->
  shouldCaptureLeadNow body
  = gtb (qualificationScore body) (lit 7 10)
    && Nat.leb 6 (messageCount body)
    && negb (truthy_str (userMetadata_email req)).
Proof.
  unfold chat_turn, try_catch.
  destruct (message req) as [msg|] eqn:Hmsg; [|simpl; unfold ret; intros [=]].
  destruct (truthy_str (Some msg)); cbn [negb]; [|unfold ret; intros [=]].
  unfold bind at 1 2 3, gets. cbn [string_or_default].
  destruct (loadHistory getChatConversation req w) as [[e|history] wa] eqn:Hh;
    [unfold ret; intros [=]|].
  unfold bind at 1.
  destruct (getChatResponse provider_configured complete_chat getFallbackResponse msg _ wa)
    as [[e|aiResponse] wb] eqn:Hr; [unfold ret; intros [=]|].
  unfold bind at 1.
  destruct (analyzeSentiment complete_analysis msg wb) as [[e|sentiment] wc] eqn:Hs;
    [unfold ret; intros [=]|].
  unfold bind.
  destruct (upsertChatConversation _ wc) as [[e|err] wd]; unfold ret; intros [= <- _].
  reflexivity.
Qed.

End Turn.

Lemma neutral_score : calculateQualificationScore [neutral] = lit 47 100.
Proof. vm_compute. reflexivity. Qed.

(** X30.  The service has no [client]: the analysis of every message is
    the neutral one (0.5, general, medium, no keyword), and nothing is
    sent for it.  Hence every answered chat turn, whatever the message, the
    stored history, the store and the chat provider, reports this
    sentiment and the qualification score 0.47, and never asks to capture
    the lead. *)
Theorem chat_analysis_is_always_neutral :
  forall getChatConversation upsertChatConversation provider_configured complete_chat
         getFallbackResponse isoNow newConversationId newSessionId,
  let turn :=
    chat_turn getChatConversation upsertChatConversation provider_configured complete_chat
              getFallbackResponse no_client isoNow newConversationId newSessionId in
  (forall message w, analyzeSentiment no_client message w = (inr neutral, w)) /\
  (forall req w body w',
     turn req w = (inr (Reply body), w') ->
     reply_sentiment body = (lit 5 10, "general", "medium") /\
     qualificationScore body = lit 47 100 /\
     shouldCaptureLeadNow body = false).
Proof.
  intros. split; [intros; apply analyzeSentiment_no_client|].
  intros req w body w' Hrun.
  pose proof (chat_turn_capture _ _ _ _ _ _ _ _ _ _ _ _ _ Hrun) as Hflag.
  apply chat_turn_score in Hrun
    as (msg & history & wa & aiResponse & wb & sentiment & wc & _ & _ & _ & Hs & _ & _ & Hr & Hq).
  rewrite analyzeSentiment_no_client in Hs. injection Hs as <- _.
  rewrite neutral_score in Hq.
  split; [exact Hr|]. split; [exact Hq|].
  rewrite Hflag, Hq. reflexivity.
Qed.

Lemma chat_analysis_is_always_neutral_witness :
  exists body w',
    sample_turn (mkChatRequest (Some "I want to buy today, my budget is ready")
                               (Some "conv_0") None None) ringing
      = (inr (Reply body), w') /\
    messageCount body = 8%nat /\
    qualificationScore body = lit 47 100 /\
    shouldCaptureLeadNow body = false.
Proof.
  destruct (chat_analysis_is_always_neutral
              (fun _ => ret (Some earlier)) (fun _ => ret None)
              true (fun _ _ => ret (Some "Great, let us get you started."))
              (fun _ => "Thanks for your question!")
              (fun _ => "2024-01-01T00:00:00.000Z") (fun _ => "conv_1") (fun _ => "sess_1"))
    as [_ H].
  assert (Hrun : exists body w',
             sample_turn (mkChatRequest (Some "I want to buy today, my budget is ready")
                                        (Some "conv_0") None None) ringing
               = (inr (Reply body), w') /\ messageCount body = 8%nat)
    by (eexists _, _; split; reflexivity).
  destruct Hrun as (body & w' & Hrun & Hcount).
  exists body, w'. split; [exact Hrun|]. split; [exact Hcount|].
  pose proof Hrun as Hturn. unfold sample_turn in Hturn.
  destruct (H _ _ _ _ Hturn) as (_ & Hq & Hf). split; assumption.
Defined.

End AnalysisFacts.
